(** * Project Dashboard: path classification, open routing, list maintenance

  A shallow embedding of the logic of the dashboard extension
  ([models.ts] and the extension entry point) together with the
  properties stated for it.

  JavaScript strings are sequences of UTF-16 code units, JSON documents
  are trees of JavaScript values, and code that may raise runs in a small
  exception monad that also records the calls made to the host editor. *)

From Stdlib Require Import ZArith NArith List String Ascii Bool Lia.
From Stdlib Require Import Decimal Hexadecimal.
From Stdlib Require HexadecimalN.
From stdpp Require Import base option list gmap.

Set Warnings "-register-all".
Local Open Scope N_scope.

(* ===================================================================== *)
(** ** JavaScript strings *)
(* ===================================================================== *)

Module JsString.

(** A string is its list of UTF-16 code units. *)
Abbreviation jsstring := (list N).

(** A source literal (ASCII) as a JavaScript string. *)
Definition lit (s : string) : jsstring :=
  List.map N_of_ascii (list_ascii_of_string s).

(** [a === b] on strings. *)
Fixpoint eqb (a b : jsstring) : bool :=
  match a, b with
  | [], [] => true
  | c :: a', d :: b' => (c =? d) && eqb a' b'
  | _, _ => false
  end.

(** [s.startsWith(pre)] *)
Fixpoint startsWith (s pre : jsstring) : bool :=
  match pre, s with
  | [], _ => true
  | _ :: _, [] => false
  | c :: pre', d :: s' => (c =? d) && startsWith s' pre'
  end.

(** [s.indexOf(pat)], as the position of the first occurrence. *)
Fixpoint indexOf (s pat : jsstring) : option nat :=
  if startsWith s pat then Some 0%nat
  else match s with
       | [] => None
       | _ :: s' => S <$> indexOf s' pat
       end.

(** [s.includes(pat)] *)
Definition includes (s pat : jsstring) : bool :=
  bool_decide (is_Some (indexOf s pat)).

(** White space and line terminators, as [String.prototype.trim] sees them. *)
Definition isWhiteSpace (c : N) : bool :=
  bool_decide (c ∈ [9; 10; 11; 12; 13; 32; 160; 5760; 8232; 8233; 8239; 8287;
                    12288; 65279])
  || ((8192 <=? c) && (c <=? 8202)).

Fixpoint trimStart (s : jsstring) : jsstring :=
  match s with
  | c :: s' => if isWhiteSpace c then trimStart s' else s
  | [] => []
  end.

(** [s.trim()] *)
Definition trim (s : jsstring) : jsstring :=
  rev (trimStart (rev (trimStart s))).

(** The digits of a number in base 16, lower case, as
    [Number.prototype.toString(16)] prints a non-negative integer. *)
Fixpoint hex_digits (u : Hexadecimal.uint) : jsstring :=
  match u with
  | Hexadecimal.Nil => []
  | Hexadecimal.D0 u => 48 :: hex_digits u
  | Hexadecimal.D1 u => 49 :: hex_digits u
  | Hexadecimal.D2 u => 50 :: hex_digits u
  | Hexadecimal.D3 u => 51 :: hex_digits u
  | Hexadecimal.D4 u => 52 :: hex_digits u
  | Hexadecimal.D5 u => 53 :: hex_digits u
  | Hexadecimal.D6 u => 54 :: hex_digits u
  | Hexadecimal.D7 u => 55 :: hex_digits u
  | Hexadecimal.D8 u => 56 :: hex_digits u
  | Hexadecimal.D9 u => 57 :: hex_digits u
  | Hexadecimal.Da u => 97 :: hex_digits u
  | Hexadecimal.Db u => 98 :: hex_digits u
  | Hexadecimal.Dc u => 99 :: hex_digits u
  | Hexadecimal.Dd u => 100 :: hex_digits u
  | Hexadecimal.De u => 101 :: hex_digits u
  | Hexadecimal.Df u => 102 :: hex_digits u
  end.

Definition toString16 (n : N) : jsstring := hex_digits (N.to_hex_uint n).

Fixpoint dec_digits (u : Decimal.uint) : jsstring :=
  match u with
  | Decimal.Nil => []
  | Decimal.D0 u => 48 :: dec_digits u
  | Decimal.D1 u => 49 :: dec_digits u
  | Decimal.D2 u => 50 :: dec_digits u
  | Decimal.D3 u => 51 :: dec_digits u
  | Decimal.D4 u => 52 :: dec_digits u
  | Decimal.D5 u => 53 :: dec_digits u
  | Decimal.D6 u => 54 :: dec_digits u
  | Decimal.D7 u => 55 :: dec_digits u
  | Decimal.D8 u => 56 :: dec_digits u
  | Decimal.D9 u => 57 :: dec_digits u
  end.

(** Decimal printing of an integer-valued number. *)
Definition toString10 (z : Z) : jsstring :=
  match z with
  | Z0 => [48]
  | Zpos p => dec_digits (Pos.to_uint p)
  | Zneg p => 45 :: dec_digits (Pos.to_uint p)
  end.

End JsString.

Import JsString.

(* ===================================================================== *)
(** ** Exceptions and host calls *)
(* ===================================================================== *)

Module Eff.

(** What a [throw] carries: the builtin [TypeError], or an [Error] raised
    by a host function. *)
Inductive exn : Type :=
| TypeError
| SyntaxError
| HostError (message : jsstring).

(** [ex.name] *)
Definition exn_name (e : exn) : jsstring :=
  match e with
  | TypeError => lit "TypeError"
  | SyntaxError => lit "SyntaxError"
  | HostError _ => lit "Error"
  end.

Inductive result (A : Type) : Type :=
| Ok (a : A)
| Throw (e : exn).
Arguments Ok {A} a.
Arguments Throw {A} e.

Definition bind {A B} (m : result A) (k : A -> result B) : result B :=
  match m with
  | Ok a => k a
  | Throw e => Throw e
  end.

(** [try { body } catch (e) { handler }] *)
Definition try_catch {A} (body : result A) (handler : exn -> result A) : result A :=
  match body with
  | Ok a => Ok a
  | Throw e => handler e
  end.

#[export] Instance result_ret : MRet result := @Ok.
#[export] Instance result_bind : MBind result := fun A B k m => bind m k.

(** Code that also calls the host: the calls made so far, in order, and
    how the code ended. A [Throw] at the top of an [async] function is a
    rejected promise. *)
Definition io (E A : Type) : Type := (list E * result A)%type.

Definition io_ret {E A} (a : A) : io E A := ([], Ok a).

Definition io_bind {E A B} (m : io E A) (k : A -> io E B) : io E B :=
  match m with
  | (tr, Ok a) => let '(tr', r) := k a in (tr ++ tr', r)
  | (tr, Throw e) => (tr, Throw e)
  end.

(** A host call that returns nothing of interest. *)
Definition call {E} (e : E) : io E unit := ([e], Ok tt).

(** Pure code that may raise, run inside host-calling code. *)
Definition lift {E A} (r : result A) : io E A := ([], r).

(** [try { body } catch (e) { handler }] around host-calling code. *)
Definition io_try_catch {E A} (body : io E A) (handler : exn -> io E A) : io E A :=
  match body with
  | (tr, Ok a) => (tr, Ok a)
  | (tr, Throw e) => let '(tr', r) := handler e in (tr ++ tr', r)
  end.

#[export] Instance io_mret {E} : MRet (io E) := @io_ret E.
#[export] Instance io_mbind {E} : MBind (io E) := fun A B k m => io_bind m k.

End Eff.

Import Eff.

(* ===================================================================== *)
(** ** JavaScript values *)
(* ===================================================================== *)

Module JsValue.

(** The values [JSON.parse] builds, and [undefined]. An array carries,
    next to its elements, the named properties that were assigned to it. *)
Inductive value : Type :=
| VUndefined
| VNull
| VBool (b : bool)
| VNumber (z : Z)
| VString (s : jsstring)
| VArray (elems : list value) (extra : list (jsstring * value))
| VObject (props : list (jsstring * value)).

(** Truthiness: what [if (v)], [!v], [v && _] and [v || _] test. *)
Definition truthy (v : value) : bool :=
  match v with
  | VUndefined | VNull => false
  | VBool b => b
  | VNumber z => negb (z =? 0)%Z
  | VString s => negb (eqb s [])
  | VArray _ _ | VObject _ => true
  end.

(** [v == null], which is also [v == undefined]. *)
Definition nullish (v : value) : bool :=
  match v with
  | VUndefined | VNull => true
  | _ => false
  end.

(** [Array.isArray(v)] *)
Definition isArray (v : value) : bool :=
  match v with
  | VArray _ _ => true
  | _ => false
  end.

Fixpoint assoc (k : jsstring) (ps : list (jsstring * value)) : option value :=
  match ps with
  | [] => None
  | (k', v) :: ps' => if eqb k k' then Some v else assoc k ps'
  end.

Fixpoint assoc_set (k : jsstring) (x : value) (ps : list (jsstring * value))
  : list (jsstring * value) :=
  match ps with
  | [] => [(k, x)]
  | (k', v) :: ps' => if eqb k k' then (k', x) :: ps' else (k', v) :: assoc_set k x ps'
  end.

Definition assoc_remove (k : jsstring) (ps : list (jsstring * value))
  : list (jsstring * value) :=
  List.filter (fun kv => negb (eqb k (fst kv))) ps.

(** [v.k] for a property name [k] that is neither an array index nor
    inherited from a builtin prototype (the code reads only such names):
    reading from [null] or [undefined] raises. *)
Definition getProp (v : value) (k : jsstring) : result value :=
  match v with
  | VUndefined | VNull => Throw TypeError
  | VObject ps => Ok (default VUndefined (assoc k ps))
  | VArray es extra =>
      if eqb k (lit "length") then Ok (VNumber (Z.of_nat (length es)))
      else Ok (default VUndefined (assoc k extra))
  | VString s =>
      if eqb k (lit "length") then Ok (VNumber (Z.of_nat (length s)))
      else Ok VUndefined
  | VBool _ | VNumber _ => Ok VUndefined
  end.

(** [v.k = x] in strict mode, returning the object after the assignment:
    assigning to a property of a primitive raises, as does assigning to
    [null] or [undefined]. *)
Definition setProp (v : value) (k : jsstring) (x : value) : result value :=
  match v with
  | VObject ps => Ok (VObject (assoc_set k x ps))
  | VArray es extra => Ok (VArray es (assoc_set k x extra))
  | _ => Throw TypeError
  end.

(** [delete v.k], returning the object after the deletion. *)
Definition deleteProp (v : value) (k : jsstring) : result value :=
  match v with
  | VUndefined | VNull => Throw TypeError
  | VObject ps => Ok (VObject (assoc_remove k ps))
  | VArray es extra => Ok (VArray es (assoc_remove k extra))
  | _ => Ok v
  end.

Fixpoint join (sep : jsstring) (parts : list jsstring) : jsstring :=
  match parts with
  | [] => []
  | [p] => p
  | p :: rest => p ++ sep ++ join sep rest
  end.

(** [String(v)], as template literals and [+] on a string convert. *)
Fixpoint toString (v : value) : jsstring :=
  match v with
  | VUndefined => lit "undefined"
  | VNull => lit "null"
  | VBool true => lit "true"
  | VBool false => lit "false"
  | VNumber z => toString10 z
  | VString s => s
  | VArray es _ =>
      join (lit ",")
        (List.map (fun e => if nullish e then [] else toString e) es)
  | VObject _ => lit "[object Object]"
  end.

(** *** JSON.stringify *)

Definition isHighSurrogate (c : N) : bool := (55296 <=? c) && (c <=? 56319).
Definition isLowSurrogate (c : N) : bool := (56320 <=? c) && (c <=? 57343).

(** [\uXXXX], four lower-case hexadecimal digits. *)
Definition unicodeEscape (c : N) : jsstring :=
  let d := toString16 c in
  [92; 117] ++ repeat 48 (4 - length d) ++ d.

(** The characters of a string between the quotes of its JSON form. *)
Fixpoint quoteChars (s : jsstring) : jsstring :=
  match s with
  | [] => []
  | c :: rest =>
      if c =? 8 then [92; 98] ++ quoteChars rest
      else if c =? 9 then [92; 116] ++ quoteChars rest
      else if c =? 10 then [92; 110] ++ quoteChars rest
      else if c =? 12 then [92; 102] ++ quoteChars rest
      else if c =? 13 then [92; 114] ++ quoteChars rest
      else if c =? 34 then [92; 34] ++ quoteChars rest
      else if c =? 92 then [92; 92] ++ quoteChars rest
      else if c <? 32 then unicodeEscape c ++ quoteChars rest
      else if isHighSurrogate c then
        match rest with
        | d :: rest' =>
            if isLowSurrogate d then c :: d :: quoteChars rest'
            else unicodeEscape c ++ quoteChars rest
        | [] => unicodeEscape c
        end
      else if isLowSurrogate c then unicodeEscape c ++ quoteChars rest
      else c :: quoteChars rest
  end.

Definition quoteJSONString (s : jsstring) : jsstring :=
  [34] ++ quoteChars s ++ [34].

(** [JSON.stringify(v)] without indentation; [None] is [undefined]. *)
Fixpoint stringify (v : value) : option jsstring :=
  match v with
  | VUndefined => None
  | VNull => Some (lit "null")
  | VBool true => Some (lit "true")
  | VBool false => Some (lit "false")
  | VNumber z => Some (toString10 z)
  | VString s => Some (quoteJSONString s)
  | VArray es _ =>
      Some (lit "[" ++
            join (lit ",") (List.map (fun e => default (lit "null") (stringify e)) es) ++
            lit "]")
  | VObject ps =>
      Some (lit "{" ++
            join (lit ",")
              (omap
                 (fun kv =>
                    match stringify (snd kv) with
                    | Some s => Some (quoteJSONString (fst kv) ++ lit ":" ++ s)
                    | None => None
                    end) ps) ++
            lit "}")
  end.

End JsValue.

Import JsValue.

(* ===================================================================== *)
(** ** What the code imports *)
(* ===================================================================== *)

(** A regular expression, as far as the code uses one: what
    [str.match(re)] returns ([None] for [null], otherwise the first match
    with its named groups, an unmatched group being [undefined]), and
    [str.replace(re, repl)]. *)
Record RegExpMatch : Type := {
  match_text : jsstring;
  match_groups : list (jsstring * value);
}.

Record RegExp : Type := {
  re_match : jsstring -> option RegExpMatch;
  re_replace : jsstring -> jsstring -> jsstring;
}.

(** The exports of [./constants] that the code below refers to. Their
    values are fixed elsewhere; everything here holds for any choice. *)
Class Constants : Type := {
  SSH_REMOTE_PREFIX : jsstring;
  DEV_CONTAINER_PREFIX : jsstring;
  WSL_DEFAULT_REGEX : RegExp;
  SSH_REGEX : RegExp;
  CONTAINER_REGEX : RegExp;
}.

(** The builtins of the runtime whose answers depend on the machine:
    [JSON.parse], the [fs], [child_process] and [path] modules. A call
    that raises returns [Throw]. *)
Class Runtime : Type := {
  JSON_parse : jsstring -> result value;
  readFileSync : jsstring -> result jsstring;
  lstatSync_isDirectory : jsstring -> result bool;
  execSync : jsstring -> result jsstring;
  path_isAbsolute : jsstring -> bool;
  path_join : jsstring -> jsstring -> jsstring;
  path_dirname : jsstring -> jsstring;
}.

(* ===================================================================== *)
(** ** models.ts *)
(* ===================================================================== *)

Module ProjectRemoteType.
Inductive t : Type := None | SSH | WSL | CONTAINER.
End ProjectRemoteType.

Module ProjectOpenType.
Inductive t : Type := Default | NewWindow | AddToWorkspace.
End ProjectOpenType.

Module Project.
Record t : Type := {
  id : jsstring;
  name : jsstring;
  path : jsstring;
  color : option jsstring;
  lastWorkspaceColor : option jsstring;
  isGitRepo : bool;
}.
End Project.

Module Group.
(** [groupName] and [collapsed] may be absent, [projects] may be [null]. *)
Record t : Type := {
  id : jsstring;
  groupName : option jsstring;
  collapsed : option bool;
  projects : option (list Project.t);
}.
End Group.

Module GroupOrder.
Record t : Type := {
  groupId : jsstring;
  projectIds : list jsstring;
}.
End GroupOrder.

Module Models.

(** [v.startsWith(pre)] on a value: only strings have the method. *)
Definition call_startsWith (v : value) (pre : jsstring) : result bool :=
  match v with
  | VString s => Ok (startsWith s pre)
  | _ => Throw TypeError
  end.

(** [v.match(re)] on a value: only strings have the method. *)
Definition call_match (v : value) (re : RegExp) : result (option RegExpMatch) :=
  match v with
  | VString s => Ok (re_match re s)
  | _ => Throw TypeError
  end.

(** [a && b] where [b] is a test, as a condition. *)
Definition and_then (a : value) (b : result bool) : result bool :=
  if truthy a then b else Ok false.

Section WithConstants.
Context {K : Constants}.

(** [Project.prototype.getRemoteType], with [this] explicit. *)
Definition Project_getRemoteType (this : value) : result ProjectRemoteType.t :=
  p ← getProp this (lit "path");
  isSsh ← and_then p (call_startsWith p SSH_REMOTE_PREFIX);
  if isSsh : bool then Ok ProjectRemoteType.SSH
  else
    p ← getProp this (lit "path");
    isWsl ← and_then p
              (m ← call_match p WSL_DEFAULT_REGEX;
               if bool_decide (is_Some m) then Ok true
               else call_startsWith p (lit "vscode-remote://wsl+"));
    if isWsl : bool then Ok ProjectRemoteType.WSL
    else
      p ← getProp this (lit "path");
      isContainer ← and_then p (call_startsWith p DEV_CONTAINER_PREFIX);
      if isContainer : bool then Ok ProjectRemoteType.CONTAINER
      else Ok ProjectRemoteType.None.

(** [getRemoteType(project)]: the method, called on [project]. *)
Definition getRemoteType (project : value) : result ProjectRemoteType.t :=
  Project_getRemoteType project.

(** The three patterns a path is tested against; the WSL pattern is the
    regular expression or the remote prefix of WSL. *)
Definition matchesSsh (p : jsstring) : bool := startsWith p SSH_REMOTE_PREFIX.

Definition matchesWsl (p : jsstring) : bool :=
  bool_decide (is_Some (re_match WSL_DEFAULT_REGEX p))
  || startsWith p (lit "vscode-remote://wsl+").

Definition matchesContainer (p : jsstring) : bool :=
  startsWith p DEV_CONTAINER_PREFIX.

(** No pattern accepts the empty string: the prefixes are not empty and
    the regular expression needs at least one character. *)
Definition patternsNonEmpty : Prop :=
  SSH_REMOTE_PREFIX <> [] /\ DEV_CONTAINER_PREFIX <> [] /\
  re_match WSL_DEFAULT_REGEX [] = Datatypes.None.

End WithConstants.

(** [getContainerHex(containerName, contextName)]; an [undefined]
    [contextName] takes the default. *)
Definition getContainerHex (containerName : value) (contextName : value) : value :=
  let contextName :=
    match contextName with
    | VUndefined => VString (lit "desktop-linux")
    | _ => contextName
    end in
  match containerName with
  | VNull => VNull
  | _ =>
      let containerObject :=
        VObject [(lit "containerName", VString (lit "/" ++ toString containerName));
                 (lit "settings", VObject [(lit "context", contextName)])] in
      let objString := default [] (stringify containerObject) in
      let objectHex := fold_left (fun acc c => acc ++ toString16 c) objString [] in
      VString objectHex
  end.

(** The per-character base-16 concatenation of the char codes of a text. *)
Definition hexOfChars (text : jsstring) : jsstring :=
  concat (List.map toString16 text).

(** The text [{"containerName":"/NAME","settings":{"context":"CONTEXT"}}]
    for given [NAME] and [CONTEXT]; 34 is the double quote. *)
Definition descriptorText (name context : jsstring) : jsstring :=
  lit "{" ++ [34] ++ lit "containerName" ++ [34] ++ lit ":" ++
  [34] ++ lit "/" ++ name ++ [34] ++ lit "," ++
  [34] ++ lit "settings" ++ [34] ++ lit ":" ++
  lit "{" ++ [34] ++ lit "context" ++ [34] ++ lit ":" ++
  [34] ++ context ++ [34] ++ lit "}" ++ lit "}".

(** A character that JSON leaves as it is inside a string: no quote, no
    backslash, no control character, no surrogate. *)
Definition isPlainChar (c : N) : bool :=
  (32 <=? c) && negb (c =? 34) && negb (c =? 92)
  && negb (isHighSurrogate c) && negb (isLowSurrogate c).

(** [\w] *)
Definition isWordChar (c : N) : bool :=
  ((48 <=? c) && (c <=? 57)) || ((65 <=? c) && (c <=? 90)) || (c =? 95)
  || ((97 <=? c) && (c <=? 122)).

Definition toLowerAscii (c : N) : N :=
  if (65 <=? c) && (c <=? 90) then c + 32 else c.

(** [generateRandomId(prepend)]; [entropy] is what
    [Math.random().toString(36).substr(2, 9) + Date.now().toString(36)]
    evaluates to at the call. *)
Definition generateRandomId (prepend : option jsstring) (entropy : jsstring) : jsstring :=
  let prepend :=
    match prepend with
    | Some p =>
        if truthy (VString p)
        then take 24 (List.map toLowerAscii (List.filter isWordChar p))
        else []
    | Datatypes.None => []
    end in
  prepend ++ entropy.

(** [new Group(groupName)] *)
Definition new_Group (groupName : jsstring) (entropy : jsstring) : Group.t :=
  {| Group.id := generateRandomId (Some groupName) entropy;
     Group.groupName := Some groupName;
     Group.collapsed := Datatypes.None;
     Group.projects := Some [] |}.

(** The comment-stripping [replace] of [getWorkspaceColor]: every pair
    of slashes goes, with what follows it up to the end of its line. *)
Definition isLineTerminator (c : N) : bool :=
  (c =? 10) || (c =? 13) || (c =? 8232) || (c =? 8233).

Fixpoint stripComments (inComment : bool) (s : jsstring) : jsstring :=
  match s with
  | [] => []
  | c :: s' =>
      if inComment then
        if isLineTerminator c then c :: stripComments false s'
        else stripComments true s'
      else
        match s' with
        | d :: s'' =>
            if (c =? 47) && (d =? 47) then stripComments true s''
            else c :: stripComments false s'
        | [] => [c]
        end
  end.

(** [a || b] on values. *)
Definition or_else (a b : value) : value := if truthy a then a else b.

Inductive console : Type :=
| ConsoleError (message : jsstring).

(** The settings file of a project, given its [path]. *)
Definition settingsFile (p : value) : jsstring :=
  toString p ++ lit "/.vscode/settings.json".

Section WithRuntime.
Context {R : Runtime}.

(** [Project.getWorkspaceColor(project)] *)
Definition getWorkspaceColor (project : value) : io console value :=
  io_try_catch
    (lift
       (p ← getProp project (lit "path");
        raw ← readFileSync (settingsFile p);
        let fileContent := trim (stripComments false raw) in
        settings ← JSON_parse fileContent;
        colorCustomizations ← getProp settings (lit "workbench.colorCustomizations");
        a ← getProp colorCustomizations (lit "titleBar.activeBackground");
        if truthy a then Ok a
        else getProp colorCustomizations (lit "activityBar.background")))
    (fun ex =>
       call (ConsoleError (lit "Unable to load workspace color: " ++ exn_name ex));;
       mret VNull).

End WithRuntime.

End Models.

Import Models.

(* ===================================================================== *)
(** ** The extension entry point *)
(* ===================================================================== *)

Module Extension.

(** How a [vscode.Uri] was built. *)
Inductive Uri : Type :=
| Uri_file (fsPath : jsstring)
| Uri_parse (text : jsstring).

(** The calls the code makes to the editor and to the project service;
    [G] is the type of the groups handed to [saveGroups]. *)
Inductive host_call (G : Type) : Type :=
| ShowInformationMessage (message : jsstring)
| ShowWarningMessage (message : jsstring)
| ShowErrorMessage (message : jsstring)
| OpenFolder (uri : Uri) (forceNewWindow : bool)
| NewWindow (remoteAuthority : jsstring) (reuseWindow : bool)
| AddToWorkspace (project : value) (uri : Uri)
| SaveGroups (groups : list G)
| DisposeSubscriptions
| ShowTextDocument
| CloseActiveEditor
| ShowDashboard.
Arguments ShowInformationMessage {G} message.
Arguments ShowWarningMessage {G} message.
Arguments ShowErrorMessage {G} message.
Arguments OpenFolder {G} uri forceNewWindow.
Arguments NewWindow {G} remoteAuthority reuseWindow.
Arguments AddToWorkspace {G} project uri.
Arguments SaveGroups {G} groups.
Arguments DisposeSubscriptions {G}.
Arguments ShowTextDocument {G}.
Arguments CloseActiveEditor {G}.
Arguments ShowDashboard {G}.

(** Is this call one of the commands that open a project? *)
Definition isOpenCommand {G} (c : host_call G) : bool :=
  match c with
  | OpenFolder _ _ | NewWindow _ _ | AddToWorkspace _ _ => true
  | _ => false
  end.

Definition isSaveGroups {G} (c : host_call G) : bool :=
  match c with
  | SaveGroups _ => true
  | _ => false
  end.

Definition isMessage {G} (c : host_call G) : bool :=
  match c with
  | ShowInformationMessage _ | ShowWarningMessage _ | ShowErrorMessage _ => true
  | _ => false
  end.

(** What the code reads of [vscode.workspace] and of the dashboard
    configuration: the path of the workspace file's Uri ([None] when
    [workspaceFile] is [undefined]), the paths of the workspace folders'
    Uris ([None] when [workspaceFolders] is [undefined], as it is when no
    workspace has been opened), and the WSL setting; and how a call that
    the code awaits ends: [Ok] when its promise is fulfilled, [Throw]
    when it is rejected (for [AddToWorkspace], how [addToWorkspace]
    ends). *)
Record Workspace : Type := {
  workspaceFile : option jsstring;
  workspaceFolders : option (list jsstring);
  prependVscodeUrlToWslRemotes : bool;
  awaited : host_call value -> result unit;
}.

(** [await c]: the call is made, and a rejection leaves the caller. *)
Definition await (ws : Workspace) (c : host_call value) : io (host_call value) unit :=
  ([c], awaited ws c).

(** The replacement text of [str.replace(pattern, repl)] for a string
    pattern: dollar patterns of [repl] expanded, there being no captures. *)
Fixpoint getSubstitution (matched before after repl : jsstring) : jsstring :=
  match repl with
  | [] => []
  | c :: rest =>
      if c =? 36 then
        match rest with
        | d :: rest' =>
            if d =? 36 then 36 :: getSubstitution matched before after rest'
            else if d =? 38 then matched ++ getSubstitution matched before after rest'
            else if d =? 96 then before ++ getSubstitution matched before after rest'
            else if d =? 39 then after ++ getSubstitution matched before after rest'
            else 36 :: getSubstitution matched before after rest
        | [] => [36]
        end
      else c :: getSubstitution matched before after rest
  end.

(** A replacement text without dollar sign, hence without dollar pattern. *)
Definition noDollar (repl : jsstring) : bool :=
  forallb (fun c => negb (c =? 36)) repl.

(** [s.replace(pat, repl)] for a string [pat]: the first occurrence only. *)
Definition replaceString (s pat repl : jsstring) : jsstring :=
  match indexOf s pat with
  | Some i =>
      let before := take i s in
      let after := drop (i + length pat) s in
      before ++ getSubstitution pat before after repl ++ after
  | None => s
  end.

(** [m.groups.name] for the result [m] of a [match]. *)
Definition matchGroup (m : option RegExpMatch) (name : jsstring) : result value :=
  match m with
  | Some r => getProp (VObject (match_groups r)) name
  | None => Throw TypeError
  end.

(** [m && m.groups.folder != null] *)
Definition hasFolder (m : option RegExpMatch) : result bool :=
  match m with
  | Some _ => (folder ← matchGroup m (lit "folder"); Ok (negb (nullish folder)))
  | None => Ok false
  end.

Section WithImports.
Context {K : Constants} {R : Runtime}.

(** [vscode.workspace.workspaceFile?.path ||
     vscode.workspace.workspaceFolders[0]?.uri.path] *)
Definition rootPath (ws : Workspace) : result value :=
  let viaFile :=
    match workspaceFile ws with
    | Some p => VString p
    | None => VUndefined
    end in
  if truthy viaFile then Ok viaFile
  else
    match workspaceFolders ws with
    | None => Throw TypeError
    | Some [] => Ok VUndefined
    | Some (folder :: _) => Ok (VString folder)
    end.

(** [(project.path || '').trim()] *)
Definition trimmedPath (project : value) : result jsstring :=
  p ← getProp project (lit "path");
  match or_else p (VString []) with
  | VString s => Ok (trim s)
  | _ => Throw TypeError
  end.

Definition openProject (ws : Workspace) (project : value)
    (projectOpenType : ProjectOpenType.t) : io (host_call value) unit :=
  remoteType ← lift (getRemoteType project);
  projectPath ← lift (trimmedPath project);
  resolved ←
    (if negb (path_isAbsolute projectPath) && negb (includes projectPath (lit "://"))
     then
       root ← lift (rootPath ws);
       match root with
       | VString r =>
           if truthy root then mret (Some (path_join r projectPath))
           else
             call (ShowWarningMessage
                     (lit "Tried to open a project with a relative path, but no workspace is open."));;
             mret None
       | _ =>
           call (ShowWarningMessage
                   (lit "Tried to open a project with a relative path, but no workspace is open."));;
           mret None
       end
     else mret (Some projectPath));
  match resolved with
  | None => mret tt
  | Some projectPath =>
      let openInNewWindow :=
        match projectOpenType with
        | ProjectOpenType.NewWindow => true
        | _ => false
        end in
      match remoteType with
      | ProjectRemoteType.None =>
          let uri := Uri_file projectPath in
          match projectOpenType with
          | ProjectOpenType.AddToWorkspace => await ws (AddToWorkspace project uri)
          | _ => await ws (OpenFolder uri openInNewWindow)
          end
      | ProjectRemoteType.SSH =>
          let remotePathMatch :=
            re_match SSH_REGEX (replaceString projectPath SSH_REMOTE_PREFIX []) in
          hasRemoteFolder ← lift (hasFolder remotePathMatch);
          if hasRemoteFolder : bool
          then call (OpenFolder (Uri_parse projectPath) openInNewWindow)
          else call (NewWindow (replaceString projectPath (lit "vscode-remote://") [])
                               (negb openInNewWindow))
      | ProjectRemoteType.WSL =>
          let projectPath :=
            if prependVscodeUrlToWslRemotes ws
               && bool_decide (is_Some (re_match WSL_DEFAULT_REGEX projectPath))
            then lit "vscode-remote://wsl+" ++ re_replace WSL_DEFAULT_REGEX projectPath []
            else projectPath in
          await ws (OpenFolder (Uri_parse projectPath) openInNewWindow)
      | ProjectRemoteType.CONTAINER =>
          let containerPathMatch :=
            re_match CONTAINER_REGEX (replaceString projectPath DEV_CONTAINER_PREFIX []) in
          containerName ← lift (matchGroup containerPathMatch (lit "containername"));
          let containerHex := getContainerHex containerName VUndefined in
          hasContainerFolder ← lift (hasFolder containerPathMatch);
          match containerHex with
          | VNull => mret tt
          | _ =>
              let projectPath :=
                replaceString projectPath
                  (DEV_CONTAINER_PREFIX ++ toString containerName)
                  (DEV_CONTAINER_PREFIX ++ toString containerHex) in
              if hasContainerFolder : bool
              then call (OpenFolder (Uri_parse projectPath) openInNewWindow)
              else call (NewWindow (replaceString projectPath (lit "vscode-remote://") [])
                                   (negb openInNewWindow))
          end
      end
  end.

(** The shell command run by [isFolderGitRepo] in a directory. *)
Definition gitCommand (dir : jsstring) : jsstring :=
  lit "cd " ++ dir ++ lit " && git rev-parse --is-inside-work-tree".

(** [isFolderGitRepo(fPath)] *)
Definition isFolderGitRepo (fPath : jsstring) : result bool :=
  try_catch
    (isDirectory ← lstatSync_isDirectory fPath;
     let fPath := if isDirectory : bool then fPath else path_dirname fPath in
     test ← execSync (gitCommand fPath);
     Ok (truthy (VString test)))
    (fun _ => Ok false).

End WithImports.

(** *** reorderGroups *)

(** [groups.find((g) => g.id === groupId)], as the position of the group
    found: the loop below keeps and updates the very object. *)
Fixpoint findGroup (groups : list Group.t) (groupId : jsstring) : option nat :=
  match groups with
  | [] => None
  | g :: rest =>
      if eqb (Group.id g) groupId then Some 0%nat
      else S <$> findGroup rest groupId
  end.

(** The map from project id to project that [reorderGroups] builds. *)
Definition insertProject (m : gmap jsstring Project.t) (project : Project.t)
  : gmap jsstring Project.t :=
  <[Project.id project := project]> m.

Definition addProjects (m : gmap jsstring Project.t) (group : Group.t)
  : gmap jsstring Project.t :=
  match Group.projects group with
  | None => m
  | Some ps => fold_left insertProject ps m
  end.

Definition buildProjectMap (groups : list Group.t) : gmap jsstring Project.t :=
  fold_left addProjects groups ∅.

(** The projects of all groups, in order, and their ids: the original
    set of projects of a reordering. *)
Definition allProjects (groups : list Group.t) : list Project.t :=
  List.flat_map (fun g => default [] (Group.projects g)) groups.

Definition allProjectIds (groups : list Group.t) : list jsstring :=
  List.map Project.id (allProjects groups).

(** The projects that [projectIds.map(...).filter(...)] yields. *)
Definition matchedProjects (projectMap : gmap jsstring Project.t)
    (projectIds : list jsstring) : list Project.t :=
  omap (fun pid => projectMap !! pid) projectIds.

(** The objects the loop works on: the cells [0 .. n-1] of [objects] are
    the groups of the array [groups], in order, later cells are the groups
    made by [new Group]; [reorderedGroups] holds references to cells. *)
Record reorderState : Type := {
  objects : list Group.t;
  reorderedGroups : list nat;
}.

Definition setProjects (ps : list Project.t) (g : Group.t) : Group.t :=
  {| Group.id := Group.id g;
     Group.groupName := Group.groupName g;
     Group.collapsed := Group.collapsed g;
     Group.projects := Some ps |}.

(** The name of a group made at position [i] of the request, counting
    from zero: [Group #] and the position counted from one. *)
Definition groupNameAt (i : nat) : jsstring :=
  lit "Group #" ++ toString10 (Z.of_nat (i + 1)).

(** ['Group #' + (reorderedGroups.length + 1)] *)
Definition defaultGroupName (st : reorderState) : jsstring :=
  groupNameAt (length (reorderedGroups st)).

(** One turn of the loop over [groupOrders]. [n] is the length of
    [groups]; [entropy k] is the random part of the id of the [k]-th group
    made by [new Group]. *)
Definition reorderStep (n : nat) (projectMap : gmap jsstring Project.t)
    (entropy : nat -> jsstring) (st : reorderState) (order : GroupOrder.t)
  : reorderState :=
  let '(group, objects1) :=
    match findGroup (take n (objects st)) (GroupOrder.groupId order) with
    | Some i => (i, objects st)
    | None =>
        (length (objects st),
         objects st ++ [new_Group (defaultGroupName st)
                                  (entropy (length (objects st) - n)%nat)])
    end in
  let ps := matchedProjects projectMap (GroupOrder.projectIds order) in
  {| objects := alter (setProjects ps) group objects1;
     reorderedGroups := reorderedGroups st ++ [group] |}.

Definition reorderLoop (groups : list Group.t) (entropy : nat -> jsstring)
    (groupOrders : list GroupOrder.t) : reorderState :=
  fold_left (reorderStep (length groups) (buildProjectMap groups) entropy)
    groupOrders {| objects := groups; reorderedGroups := [] |}.

(** The groups a list of references stands for, as [saveGroups] reads them. *)
Definition deref (st : reorderState) : list Group.t :=
  omap (fun l => objects st !! l) (reorderedGroups st).

(** Two groups that differ at most in their projects. *)
Definition sameHeader (g g0 : Group.t) : Prop :=
  Group.id g = Group.id g0 /\
  Group.groupName g = Group.groupName g0 /\
  Group.collapsed g = Group.collapsed g0.

(** No order after position [i] names the group that [order] names. *)
Definition lastWithId (orders : list GroupOrder.t) (i : nat) (order : GroupOrder.t)
  : Prop :=
  forall j order', (i < j)%nat -> orders !! j = Some order' ->
    GroupOrder.groupId order' <> GroupOrder.groupId order.

(** What the loop has established for the order at position [i]: the
    reference pushed for it, and the object it refers to. *)
Definition entryDone (groups : list Group.t) (entropy : nat -> jsstring)
    (st : reorderState) (orders : list GroupOrder.t) (i : nat) (order : GroupOrder.t)
  : Prop :=
  exists loc g,
    reorderedGroups st !! i = Some loc /\
    objects st !! loc = Some g /\
    match findGroup groups (GroupOrder.groupId order) with
    | Some k =>
        loc = k /\
        (exists g0, groups !! k = Some g0 /\ sameHeader g g0) /\
        (lastWithId orders i order ->
         Group.projects g
         = Some (matchedProjects (buildProjectMap groups) (GroupOrder.projectIds order)))
    | None =>
        (length groups <= loc)%nat /\
        g = setProjects
              (matchedProjects (buildProjectMap groups) (GroupOrder.projectIds order))
              (new_Group (groupNameAt i) (entropy (loc - length groups)%nat))
    end.

(** The invariant of the loop, after the orders [orders]. *)
Definition loopInv (groups : list Group.t) (entropy : nat -> jsstring)
    (st : reorderState) (orders : list GroupOrder.t) : Prop :=
  length (reorderedGroups st) = length orders /\
  (length groups <= length (objects st))%nat /\
  (forall k g0, groups !! k = Some g0 ->
     exists g, objects st !! k = Some g /\ sameHeader g g0) /\
  (forall i order, orders !! i = Some order -> entryDone groups entropy st orders i order).

(** [reorderGroups(groupOrders)]; [groups] is what
    [projectService.getGroups()] returned, [None] is a [null] argument. *)
Definition reorderGroups (groups : list Group.t) (entropy : nat -> jsstring)
    (groupOrders : option (list GroupOrder.t)) : io (host_call Group.t) unit :=
  match groupOrders with
  | None =>
      call (ShowInformationMessage (lit "Invalid Argument passed to Reordering Projects."))
  | Some groupOrders =>
      call (SaveGroups (deref (reorderLoop groups entropy groupOrders)));;
      call ShowDashboard
  end.

(** *** Editing the projects by hand *)

(** The repair of a group that has a [name] and no [groupName]. *)
Definition legacyName (group : value) : result value :=
  n ← getProp group (lit "name");
  if truthy n then
    gn ← getProp group (lit "groupName");
    if negb (truthy gn) then
      group ← setProp group (lit "groupName") n;
      deleteProp group (lit "name")
    else Ok group
  else Ok group.

(** [group && group.groupName == null &&
     (group.projects == null || !group.projects.length)] *)
Definition isEmptyUnnamed (group : value) : result bool :=
  if truthy group then
    gn ← getProp group (lit "groupName");
    if nullish gn then
      ps ← getProp group (lit "projects");
      if nullish ps then Ok true
      else (len ← getProp ps (lit "length"); Ok (negb (truthy len)))
    else Ok false
  else Ok false.

(** [!group || !group.id || group.groupName == undefined ||
     !group.projects || !Array.isArray(group.projects)] *)
Definition isMalformedGroup (group : value) : result bool :=
  if negb (truthy group) then Ok true
  else
    i ← getProp group (lit "id");
    if negb (truthy i) then Ok true
    else
      gn ← getProp group (lit "groupName");
      if nullish gn then Ok true
      else
        ps ← getProp group (lit "projects");
        if negb (truthy ps) then Ok true
        else Ok (negb (isArray ps)).

(** [!project || !project.id || !project.name || !project.path] *)
Definition isMalformedProject (project : value) : result bool :=
  if negb (truthy project) then Ok true
  else
    i ← getProp project (lit "id");
    if negb (truthy i) then Ok true
    else
      n ← getProp project (lit "name");
      if negb (truthy n) then Ok true
      else (p ← getProp project (lit "path"); Ok (negb (truthy p))).

(** The loop over the projects of a group: whether it met a malformed
    project (and stopped there), and the projects as the loop left them. *)
Fixpoint checkProjects (ps : list value) : result (bool * list value) :=
  match ps with
  | [] => Ok (false, [])
  | project :: rest =>
      bad ← isMalformedProject project;
      if bad : bool then Ok (true, project :: rest)
      else
        project ← deleteProp project (lit "imageFileName");
        r ← checkProjects rest;
        Ok (fst r, project :: snd r)
  end.

(** How the body of the loop over the groups ends for one group: marked
    for removal; malformed, which sets [jsonIsInvalid] and leaves the
    loop; or checked, its projects having been gone through, with or
    without a malformed one among them. *)
Inductive groupVerdict : Type :=
| Removed
| Malformed
| Checked (badProject : bool).

(** The body of the loop over the groups: the verdict and the group as
    the body left it. *)
Definition checkGroup (group : value) : result (groupVerdict * value) :=
  group ← legacyName group;
  empty ← isEmptyUnnamed group;
  if empty : bool then
    group ← setProp group (lit "_delete") (VBool true);
    Ok (Removed, group)
  else
    malformed ← isMalformedGroup group;
    if malformed : bool then Ok (Malformed, group)
    else
      ps ← getProp group (lit "projects");
      match ps with
      | VArray elems extra =>
          c ← checkProjects elems;
          group ← setProp group (lit "projects") (VArray (snd c) extra);
          Ok (Checked (fst c), group)
      | _ => Throw TypeError
      end.

(** The loop over the groups: the final [jsonIsInvalid], and the groups
    as the loop left them. *)
Fixpoint checkGroups (jsonIsInvalid : bool) (gs : list value)
  : result (bool * list value) :=
  match gs with
  | [] => Ok (jsonIsInvalid, [])
  | group :: rest =>
      v ← checkGroup group;
      match fst v with
      | Removed =>
          r ← checkGroups jsonIsInvalid rest;
          Ok (fst r, snd v :: snd r)
      | Malformed => Ok (true, snd v :: rest)
      | Checked badProject =>
          r ← checkGroups (jsonIsInvalid || badProject) rest;
          Ok (fst r, snd v :: snd r)
      end
  end.

(** "Validate and Cleanup": [jsonIsInvalid] and the document afterwards. *)
Definition validate (updatedGroups : value) : result (bool * value) :=
  match updatedGroups with
  | VArray elems extra =>
      r ← checkGroups false elems;
      Ok (fst r, VArray (snd r) extra)
  | _ => Ok (true, updatedGroups)
  end.

(** [updatedGroups.filter((g) => !g._delete)] *)
Fixpoint filterDeleted (gs : list value) : result (list value) :=
  match gs with
  | [] => Ok []
  | g :: rest =>
      d ← getProp g (lit "_delete");
      rest ← filterDeleted rest;
      Ok (if truthy d then rest else g :: rest)
  end.

Definition parseErrorMessage : jsstring :=
  lit "Edited Projects File can not be parsed.".

Definition schemaErrorMessage : jsstring :=
  lit "Edited Projects File does not meet the Schema expected by Dashboard.".

(** The listener from the parsed document on: validation, then either
    the error message or the save and the closing of the editor;
    [showing] and [closing] tell whether showing the document and closing
    its editor raised. *)
Definition saveParsed (updatedGroups : value) (showing closing : result unit)
  : io (host_call value) unit :=
  checked ← lift (validate updatedGroups);
  if fst checked : bool then call (ShowErrorMessage schemaErrorMessage)
  else
    match snd checked with
    | VArray elems _ =>
        kept ← lift (filterDeleted elems);
        call (SaveGroups kept);;
        call DisposeSubscriptions;;
        io_try_catch
          (call ShowTextDocument;; lift showing;;
           call CloseActiveEditor;; lift closing)
          (fun _ =>
             call (ShowErrorMessage
                     (lit "Could not close the edited Projects File. Please close manually.")));;
        call ShowDashboard
    | _ => lift (Throw TypeError)
    end.

(** [e.document.getText() || '[]'] *)
Definition editedText (text : jsstring) : jsstring :=
  if truthy (VString text) then text else lit "[]".

Section WithRuntime.
Context {R : Runtime}.

(** The [onWillSaveTextDocument] listener of
    [editProjectsManuallyPerCommand]: [isEditDocument] is
    [e.document == editProjectsDocument], [text] is [e.document.getText()]. *)
Definition onWillSave (isEditDocument : bool) (text : jsstring)
    (showing closing : result unit) : io (host_call value) unit :=
  if isEditDocument then
    match JSON_parse (editedText text) with
    | Throw _ => call (ShowErrorMessage parseErrorMessage)
    | Ok updatedGroups => saveParsed updatedGroups showing closing
    end
  else mret tt.

End WithRuntime.

(** *** The schema of the edited document *)

(** [v.k], [undefined] where reading would raise. *)
Definition field (v : value) (k : jsstring) : value :=
  match getProp v k with
  | Ok x => x
  | Throw _ => VUndefined
  end.

(** A project with an id, a name and a path. *)
Definition wellFormedProject (p : value) : bool :=
  truthy (field p (lit "id")) && truthy (field p (lit "name"))
  && truthy (field p (lit "path")).

(** A group with an id, a group name and an array of well-formed
    projects. *)
Definition wellFormedGroup (g : value) : bool :=
  truthy (field g (lit "id")) && negb (nullish (field g (lit "groupName")))
  && match field g (lit "projects") with
     | VArray ps _ => forallb wellFormedProject ps
     | _ => false
     end.

(** A document that is an array of well-formed groups. *)
Definition wellFormedDocument (v : value) : bool :=
  match v with
  | VArray gs _ => forallb wellFormedGroup gs
  | _ => false
  end.

(** An unnamed group without projects: no group name, no legacy name
    either, and projects that are missing or empty. *)
Definition isEmptyUnnamedGroup (g : value) : bool :=
  truthy g
  && nullish (field g (lit "groupName"))
  && negb (truthy (field g (lit "name")))
  && (nullish (field g (lit "projects"))
      || negb (truthy (field (field g (lit "projects")) (lit "length")))).

(** The group after the repair of a legacy name. *)
Definition legacyFixed (g : value) : value :=
  match legacyName g with
  | Ok g' => g'
  | Throw _ => g
  end.

(** Having properties of one's own: objects and arrays. *)
Definition objectLike (g : value) : bool :=
  match g with
  | VObject _ | VArray _ _ => true
  | _ => false
  end.

(** An entry of the document on which the body of the loop raises:
    [null], or a primitive that is truthy. *)
Definition faults (g : value) : bool :=
  match g with
  | VUndefined | VNull => true
  | VBool _ | VNumber _ | VString _ => truthy g
  | VArray _ _ | VObject _ => false
  end.

(** A group as the loop leaves it: marked for removal, or with a group
    name and an id. *)
Definition markedDeleted (g : value) : bool := truthy (field g (lit "_delete")).

Definition namedWithId (g : value) : bool :=
  negb (nullish (field g (lit "groupName"))) && truthy (field g (lit "id")).

(** An entry that makes validation fail: not an empty unnamed group, and
    not well-formed once a legacy name is repaired. *)
Definition flagged (g : value) : bool :=
  negb (isEmptyUnnamedGroup g) && negb (wellFormedGroup (legacyFixed g)).

End Extension.

Import Extension.

(* ===================================================================== *)
(** ** A concrete setting *)
(* ===================================================================== *)

(** One choice of the imported constants and of the runtime, on which the
    definitions can be run. *)
Module Sample.

Definition isSlash (c : N) : bool := c =? 47.

Fixpoint beforeSlash (s : jsstring) : jsstring :=
  match s with
  | [] => []
  | c :: s' => if isSlash c then [] else c :: beforeSlash s'
  end.

Fixpoint fromSlash (s : jsstring) : jsstring :=
  match s with
  | [] => []
  | c :: s' => if isSlash c then s else fromSlash s'
  end.

(** A pattern anchored at the start of the string that matches one
    literal prefix. *)
Definition prefixRegex (pre : jsstring) : RegExp :=
  {| re_match := fun s =>
       if startsWith s pre
       then Some {| match_text := pre; match_groups := [] |}
       else None;
     re_replace := fun s repl =>
       if startsWith s pre then repl ++ drop (length pre) s else s |}.

(** A pattern [name] or [name/folder], the name being non-empty. *)
Definition targetRegex (nameGroup : jsstring) : RegExp :=
  {| re_match := fun s =>
       match beforeSlash s with
       | [] => None
       | target =>
           Some {| match_text := s;
                   match_groups :=
                     [(nameGroup, VString target);
                      (lit "folder",
                       match fromSlash s with
                       | [] => VUndefined
                       | folder => VString folder
                       end)] |}
       end;
     re_replace := fun s repl =>
       match beforeSlash s with
       | [] => s
       | _ => repl
       end |}.

Definition constants : Constants :=
  {| SSH_REMOTE_PREFIX := lit "vscode-remote://ssh-remote+";
     DEV_CONTAINER_PREFIX := lit "vscode-remote://attached-container+";
     WSL_DEFAULT_REGEX := prefixRegex (lit "//wsl$/");
     SSH_REGEX := targetRegex (lit "hostname");
     CONTAINER_REGEX := targetRegex (lit "containername") |}.

(** A runtime in which [JSON.parse] knows the documents of a table, the
    file system holds the files of a table, and paths are POSIX paths. *)
Definition runtime (documents : list (jsstring * value))
    (files : list (jsstring * jsstring)) : Runtime :=
  {| JSON_parse := fun text =>
       match List.find (fun d => eqb text (fst d)) documents with
       | Some d => Ok (snd d)
       | None => Throw SyntaxError
       end;
     readFileSync := fun file =>
       match List.find (fun f => eqb file (fst f)) files with
       | Some f => Ok (snd f)
       | None => Throw (HostError (lit "ENOENT"))
       end;
     lstatSync_isDirectory := fun file =>
       match List.find (fun f => eqb file (fst f)) files with
       | Some _ => Ok false
       | None => Throw (HostError (lit "ENOENT"))
       end;
     execSync := fun _ => Throw (HostError (lit "Command failed"));
     path_isAbsolute := fun p => startsWith p (lit "/");
     path_join := fun a b => a ++ lit "/" ++ b;
     path_dirname := fun p => p |}.

Definition closedWorkspace : Workspace :=
  {| workspaceFile := None;
     workspaceFolders := None;
     prependVscodeUrlToWslRemotes := false;
     awaited := fun _ => Ok tt |}.

Definition project (path : jsstring) : value :=
  VObject [(lit "id", VString (lit "p1"));
           (lit "name", VString (lit "Project"));
           (lit "path", VString path)].

(** Edited documents, as texts and as [JSON.parse] reads them. *)
Definition quoted (s : string) : jsstring := [34] ++ lit s ++ [34].

(** [[{}]] *)
Definition bareText : jsstring := lit "[{}]".
Definition bareDocument : value := VArray [VObject []] [].

(** [[{"projects":[]}]] *)
Definition emptyText : jsstring :=
  lit "[{" ++ quoted "projects" ++ lit ":[]}]".
Definition emptyDocument : value :=
  VArray [VObject [(lit "projects", VArray [] [])]] [].

(** [[{"name":"Old"}]] *)
Definition legacyGroup : value := VObject [(lit "name", VString (lit "Old"))].
Definition legacyText : jsstring :=
  lit "[{" ++ quoted "name" ++ lit ":" ++ quoted "Old" ++ lit "}]".

(** [[{"groupName":"Work","projects":[]}]] *)
Definition noIdGroup : value :=
  VObject [(lit "groupName", VString (lit "Work")); (lit "projects", VArray [] [])].

(** [[{"id":"g1","groupName":"Work","projects":[{"id":"p1","name":"Project","path":"/home/me/site"}]}]] *)
Definition goodGroup : value :=
  VObject [(lit "id", VString (lit "g1"));
           (lit "groupName", VString (lit "Work"));
           (lit "projects", VArray [project (lit "/home/me/site")] [])].

(** [[null]] *)
Definition nullText : jsstring := lit "[null]".
Definition nullDocument : value := VArray [VNull] [].

(** A stored list of one group with two projects, and two requests. *)
Definition site : Project.t :=
  {| Project.id := lit "p1"; Project.name := lit "Site";
     Project.path := lit "/home/me/site"; Project.color := None;
     Project.lastWorkspaceColor := None; Project.isGitRepo := true |}.

Definition notes : Project.t :=
  {| Project.id := lit "p2"; Project.name := lit "Notes";
     Project.path := lit "/home/me/notes"; Project.color := None;
     Project.lastWorkspaceColor := None; Project.isGitRepo := false |}.

Definition work : Group.t :=
  {| Group.id := lit "work"; Group.groupName := Some (lit "Work");
     Group.collapsed := Some false; Group.projects := Some [site; notes] |}.

Definition entropy (k : nat) : jsstring := lit "r" ++ toString10 (Z.of_nat k).

(** The group is named twice, with different projects. *)
Definition repeatedOrders : list GroupOrder.t :=
  [{| GroupOrder.groupId := lit "work"; GroupOrder.projectIds := [lit "p1"] |};
   {| GroupOrder.groupId := lit "work"; GroupOrder.projectIds := [lit "p2"] |}].

(** The group once, then a group that does not exist; one id is unknown. *)
Definition plainOrders : list GroupOrder.t :=
  [{| GroupOrder.groupId := lit "work";
      GroupOrder.projectIds := [lit "p2"; lit "gone"] |};
   {| GroupOrder.groupId := lit "play"; GroupOrder.projectIds := [lit "p1"] |}].

End Sample.

(* ===================================================================== *)
(** ** models.ts, the names and the ids *)
(* ===================================================================== *)

Module Names.

(** After a [<]: does [[^>]+>] match, that is, is the next character not
    a [>] and is there a [>] further on? *)
Definition tagOpens (rest : jsstring) : bool :=
  match rest with
  | d :: r => negb (d =? 62) && existsb (fun c => c =? 62) r
  | [] => false
  end.

(** [s.replace(/<[^>]+>/g, '')], read from left to right: outside a
    match a [<] that opens one is dropped with all that follows up to the
    first [>]; every other character is kept. *)
Fixpoint stripTags (inTag : bool) (s : jsstring) : jsstring :=
  match s with
  | [] => []
  | c :: s' =>
      if inTag then
        if c =? 62 then stripTags false s' else stripTags true s'
      else if (c =? 60) && tagOpens s' then stripTags true s'
      else c :: stripTags false s'
  end.

(** [sanitizeProjectName(name)] *)
Definition sanitizeProjectName (name : value) : result jsstring :=
  if negb (truthy name) then Ok []
  else
    match name with
    | VString s => Ok (trim (stripTags false s))
    | _ => Throw TypeError
    end.

(** Does the text hold a match of [<[^>]+>]? *)
Fixpoint hasTag (s : jsstring) : bool :=
  match s with
  | [] => false
  | c :: rest => ((c =? 60) && tagOpens rest) || hasTag rest
  end.

(** No white space at the start, none at the end. *)
Definition noLeadingSpace (s : jsstring) : Prop :=
  match s with
  | c :: _ => isWhiteSpace c = false
  | [] => True
  end.

Definition trimmed (s : jsstring) : Prop :=
  noLeadingSpace s /\ noLeadingSpace (rev s).


(** The characters of the name part of an id: digits, lower-case letters
    and the underscore. *)
Definition isIdChar (c : N) : bool :=
  ((48 <=? c) && (c <=? 57)) || (c =? 95) || ((97 <=? c) && (c <=? 122)).

(** [new Project(name, path)] *)
Definition new_Project (name path : jsstring) (entropy : jsstring) : Project.t :=
  {| Project.id := generateRandomId (Some name) entropy;
     Project.name := name;
     Project.path := path;
     Project.color := None;
     Project.lastWorkspaceColor := None;
     Project.isGitRepo := false |}.

End Names.

Import Names.

(* ===================================================================== *)
(** ** The extension entry point, the paths *)
(* ===================================================================== *)

(** More exports of [./constants]. *)
Class PathConstants : Type := {
  REMOTE_REGEX : RegExp;
  USER_CANCELED : jsstring;
}.

Module Paths.

(** [/] and [\]. *)
Definition isSeparator (c : N) : bool := (c =? 47) || (c =? 92).

(** [s.replace(/^[\\\/]|[\\\/]$/g, '')]: a separator at the very start
    goes, and so does one at the very end. *)
Definition stripOuterSeparators (s : jsstring) : jsstring :=
  let s1 :=
    match s with
    | c :: r => if isSeparator c then r else s
    | [] => []
    end in
  match rev s1 with
  | c :: r => if isSeparator c then rev r else s1
  | [] => []
  end.

(** What follows the last separator of the first line, when the first
    line has a separator: the dot of a pattern stops at a line end. *)
Fixpoint afterLastSeparator (s : jsstring) : option jsstring :=
  match s with
  | [] => None
  | c :: r =>
      if isLineTerminator c then None
      else
        match afterLastSeparator r with
        | Some t => Some t
        | None => if isSeparator c then Some r else None
        end
  end.

(** [s.replace(/^.*[\\\/]/, '')] *)
Definition dropDirectories (s : jsstring) : jsstring :=
  default s (afterLastSeparator s).

Fixpoint dropWordChars (s : jsstring) : jsstring :=
  match s with
  | c :: r => if isWordChar c then dropWordChars r else s
  | [] => []
  end.

(** [s.replace(/^\w+\@/, '')] *)
Definition dropUserName (s : jsstring) : jsstring :=
  match s with
  | c :: _ =>
      if isWordChar c then
        match dropWordChars s with
        | d :: rest => if d =? 64 then rest else s
        | [] => s
        end
      else s
  | [] => s
  end.

(** [getLastPartOfPath(path)] as it was before remote projects; [None]
    is a [null] path. *)
Definition getLastPartOfPath_local (path : option jsstring) : jsstring :=
  match path with
  | Some p =>
      if truthy (VString p) then dropDirectories (stripOuterSeparators p) else []
  | None => []
  end.

Section WithPathConstants.
Context {P : PathConstants}.

(** [getLastPartOfPath(path)] *)
Definition getLastPartOfPath (path : option jsstring) : jsstring :=
  match path with
  | Some p =>
      if truthy (VString p) then
        let p := re_replace REMOTE_REGEX p [] in
        let p := dropUserName p in
        dropDirectories (stripOuterSeparators p)
      else []
  | None => []
  end.

End WithPathConstants.

End Paths.

Import Paths.

(** Path constants for the examples: the remote prefix of an SSH host. *)
Module PathSample.

Definition pathConstants : PathConstants :=
  {| REMOTE_REGEX := Sample.prefixRegex (lit "vscode-remote://ssh-remote+");
     USER_CANCELED := lit "canceled" |}.

End PathSample.

(* ===================================================================== *)
(** ** The dialogs that ask for a path *)
(* ===================================================================== *)

Module InputBoxOptions.
Record t : Type := {
  placeHolder : jsstring;
  value : option jsstring;
  prompt : option jsstring;
  validateInput : option (jsstring -> jsstring);
}.
End InputBoxOptions.

Module QuickPickItem.
Record t : Type := {
  id : jsstring;
  label : jsstring;
}.
End QuickPickItem.

Module OpenDialogOptions.
Record t : Type := {
  defaultUri : option Extension.Uri;
  openLabel : jsstring;
  canSelectFolders : bool;
  canSelectFiles : bool;
  canSelectMany : bool;
}.
End OpenDialogOptions.

(** The window and the services the dialogs talk to: what the user
    answers to a dialog ([None] is [undefined]; an open dialog answers
    with the [fsPath] of every selected uri), [fileService.isFile], and
    the flags of [dashboardInfos.relevantExtensionsInstalls]. *)
Class Window : Type := {
  showQuickPick : list QuickPickItem.t -> jsstring -> option QuickPickItem.t;
  showInputBox : InputBoxOptions.t -> option jsstring;
  showOpenDialog : OpenDialogOptions.t -> option (list jsstring);
  isFile : jsstring -> bool;
  remoteSSH : bool;
  remoteCONTAINER : bool;
}.

Module Dialogs.

(** [throw new Error(message)] *)
Inductive thrown : Type := Error (message : jsstring).

Section WithWindow.
Context {K : Constants} {P : PathConstants} {R : Runtime} {W : Window}.

(** [getPathFromPicker(folderProject, defaultPath)] *)
Definition getPathFromPicker (folderProject : bool) (defaultPath : option jsstring)
  : thrown + jsstring :=
  let defaultUri :=
    match defaultPath with
    | Some p =>
        if truthy (VString p) then
          let p := if folderProject && isFile p then path_dirname p else p in
          Some (Extension.Uri_file p)
        else None
    | None => None
    end in
  let selectedProjectUris :=
    showOpenDialog
      {| OpenDialogOptions.defaultUri := defaultUri;
         OpenDialogOptions.openLabel :=
           lit "Select " ++ (if folderProject then lit "Folder" else lit "File")
           ++ lit " as Project";
         OpenDialogOptions.canSelectFolders := folderProject;
         OpenDialogOptions.canSelectFiles := negb folderProject;
         OpenDialogOptions.canSelectMany := false |} in
  match selectedProjectUris with
  | Some (fsPath :: _) => inr (trim fsPath)
  | _ => inl (Error USER_CANCELED)
  end.

(** [getManualPath(defaultPath)] *)
Definition getManualPath (defaultPath : option jsstring) : thrown + jsstring :=
  let manualPath :=
    showInputBox
      {| InputBoxOptions.placeHolder := lit "./";
         InputBoxOptions.value :=
           match defaultPath with
           | Some p => if truthy (VString p) then Some p else None
           | None => None
           end;
         InputBoxOptions.prompt :=
           Some (lit "Enter absolute or relative path to the project." ++ [10]
                 ++ lit "Projects with relative paths can only be opened if a workspace is already open.");
         InputBoxOptions.validateInput := None |} in
  match manualPath with
  | Some p => if truthy (VString p) then inr (trim p) else inl (Error USER_CANCELED)
  | None => inl (Error USER_CANCELED)
  end.

(** [remoteRegex.test(x)]: a [null] argument is tested as the text
    [null]. *)
Definition test (re : RegExp) (x : option jsstring) : bool :=
  bool_decide (is_Some (re_match re (default (lit "null") x))).

(** [getRemotePath(defaultPath, remoteType)] *)
Definition getRemotePath (defaultPath : option jsstring) (remoteType : jsstring)
  : thrown + jsstring :=
  let settings :=
    if eqb remoteType (lit "SSH") then
      Some (SSH_REGEX, SSH_REMOTE_PREFIX,
            lit "user@target.xyz/home/optional-folder or workspace")
    else if eqb remoteType (lit "DEV CONTAINER") then
      Some (CONTAINER_REGEX, DEV_CONTAINER_PREFIX,
            lit "container/home/optional-folder or workspace")
    else None in
  match settings with
  | None => inl (Error (lit "Argument Error"))
  | Some (remoteRegex, remotePrefix, remotePlaceHolder) =>
      let remotePath :=
        showInputBox
          {| InputBoxOptions.placeHolder := remotePlaceHolder;
             InputBoxOptions.value :=
               if test remoteRegex defaultPath then defaultPath else None;
             InputBoxOptions.prompt :=
               Some (remoteType ++ lit " remote, target folder is optional");
             InputBoxOptions.validateInput :=
               Some (fun val =>
                       if test remoteRegex (Some val) then []
                       else lit "A valid " ++ remoteType
                            ++ lit " Target must be proviced") |} in
      match remotePath with
      | Some p =>
          if truthy (VString p) then inr (trim (remotePrefix ++ p))
          else inl (Error USER_CANCELED)
      | None => inl (Error USER_CANCELED)
      end
  end.


Definition projectTypePicks : list QuickPickItem.t :=
  [ {| QuickPickItem.id := lit "dir"; QuickPickItem.label := lit "Folder Project" |};
    {| QuickPickItem.id := lit "file";
       QuickPickItem.label := lit "Workspace or File Project" |};
    {| QuickPickItem.id := lit "manual"; QuickPickItem.label := lit "Enter manually" |};
    {| QuickPickItem.id := lit "ssh";
       QuickPickItem.label :=
         lit "SSH Target "
         ++ (if negb remoteSSH
             then lit "(Remote Development (Remote SSH) extension is not installed)"
             else []) |};
    {| QuickPickItem.id := lit "container";
       QuickPickItem.label :=
         lit "Container Target "
         ++ (if negb remoteCONTAINER
             then lit "(Remote Development (Dev Container) extension is not installed)"
             else []) |} ].

(** [queryProjectPath(defaultPath)] *)
Definition queryProjectPath (defaultPath : option jsstring) : thrown + jsstring :=
  match showQuickPick projectTypePicks (lit "Project Type") with
  | None => inl (Error USER_CANCELED)
  | Some selectedProjectTypePick =>
      let defaultPath := (fun p => re_replace REMOTE_REGEX p []) <$> defaultPath in
      let id := QuickPickItem.id selectedProjectTypePick in
      if eqb id (lit "dir") then getPathFromPicker true defaultPath
      else if eqb id (lit "file") then getPathFromPicker false defaultPath
      else if eqb id (lit "manual") then getManualPath defaultPath
      else if eqb id (lit "ssh") then getRemotePath defaultPath (lit "SSH")
      else if eqb id (lit "container") then getRemotePath defaultPath (lit "DEV CONTAINER")
      else inl (Error USER_CANCELED)
  end.

End WithWindow.

End Dialogs.

Import Dialogs.

(** A window whose user picks the entry [pick] of a list, types [typed]
    into an input box and selects the files [selected]. *)
Module WindowSample.

Definition window (pick : jsstring) (typed : option jsstring)
    (selected : option (list jsstring)) : Window :=
  {| showQuickPick := fun items _ =>
       List.find (fun item => eqb (QuickPickItem.id item) pick) items;
     showInputBox := fun _ => typed;
     showOpenDialog := fun _ => selected;
     isFile := fun _ => false;
     remoteSSH := true;
     remoteCONTAINER := false |}.

End WindowSample.

(* ===================================================================== *)
(** ** Ways of opening, character ranges, orders *)
(* ===================================================================== *)


(** The character codes that [toString(16)] writes with two digits. *)
Definition twoHexDigits (c : N) : bool := (16 <=? c) && (c <? 256).

(** The digits of base 16, in lower case. *)
Definition isHexDigit (c : N) : bool :=
  ((48 <=? c) && (c <=? 57)) || ((97 <=? c) && (c <=? 102)).

(** The order that asks for a group as it is: its id, and the ids of its
    projects in their order. *)
Definition orderOf (g : Group.t) : GroupOrder.t :=
  {| GroupOrder.groupId := Group.id g;
     GroupOrder.projectIds := List.map Project.id (default [] (Group.projects g)) |}.

(** A request that moves one project of the sample group to a group that
    does not exist yet. *)
Module ReorderSample.

Definition movedOrders : list GroupOrder.t :=
  [{| GroupOrder.groupId := lit "work"; GroupOrder.projectIds := [lit "p2"] |};
   {| GroupOrder.groupId := lit "play"; GroupOrder.projectIds := [lit "p1"] |}].

End ReorderSample.

(* ===================================================================== *)
(** ** The dialog that asks for a group *)
(* ===================================================================== *)

(** The project service, as the dialog uses it: the groups it holds and
    the group that [addGroup] makes for a name. *)
Class ProjectService : Type := {
  getGroups : list Group.t;
  addGroup : jsstring -> Group.t;
}.

Module GroupDialog.

(** [groups.findIndex((g) => g.id === groupId)]: -1 when there is none. *)
Definition findIndex (groups : list Group.t) (groupId : jsstring) : Z :=
  match Extension.findGroup groups groupId with
  | Some i => Z.of_nat i
  | None => (-1)%Z
  end.

(** [a.splice(start, 1)]: the elements taken out, and the array that is
    left.  A negative [start] counts from the end. *)
Definition splice1 {A} (a : list A) (start : Z) : list A * list A :=
  let len := Z.of_nat (length a) in
  let k :=
    Z.to_nat (if (start <? 0)%Z then Z.max (len + start) 0 else Z.min start len) in
  (take 1 (drop k a), take k a ++ drop (S k) a).

(** "Reorder array to set given group to front": [idx != null] holds for
    every number, also for -1. *)
Definition orderedGroups (groups : list Group.t) (groupId : option jsstring)
  : list Group.t :=
  match groupId with
  | Some groupId =>
      let idx := findIndex groups groupId in
      let '(group, orderedGroups) := splice1 groups idx in
      group ++ orderedGroups
  | None => groups
  end.

(** The picks made from the groups; [defaultGroupSet] is the variable of
    that name. *)
Fixpoint groupPicks (defaultGroupSet : bool) (groups : list Group.t)
  : list QuickPickItem.t :=
  match groups with
  | [] => []
  | group :: rest =>
      match Group.groupName group with
      | Some label =>
          if truthy (VString label) then
            {| QuickPickItem.id := Group.id group; QuickPickItem.label := label |}
            :: groupPicks defaultGroupSet rest
          else
            {| QuickPickItem.id := Group.id group;
               QuickPickItem.label :=
                 if defaultGroupSet then lit "Unnamed Group" else lit "Default Group" |}
            :: groupPicks true rest
      | None =>
          {| QuickPickItem.id := Group.id group;
             QuickPickItem.label :=
               if defaultGroupSet then lit "Unnamed Group" else lit "Default Group" |}
          :: groupPicks true rest
      end
  end.

Definition addPick : QuickPickItem.t :=
  {| QuickPickItem.id := lit "Add"; QuickPickItem.label := lit "Add new Group" |}.

(** The picks shown for a group id and [optionForAdding]. *)
Definition shownPicks (groups : list Group.t) (groupId : option jsstring)
    (optionForAdding : bool) : list QuickPickItem.t :=
  groupPicks false (orderedGroups groups groupId)
  ++ (if optionForAdding then [addPick] else []).

Section WithServices.
Context {P : PathConstants} {W : Window} {S : ProjectService}.

(** [queryGroup(groupId, optionForAdding)] *)
Definition queryGroup (groupId : option jsstring) (optionForAdding : bool)
  : Dialogs.thrown + (jsstring * bool) :=
  let groups := getGroups in
  let picked : Dialogs.thrown + jsstring :=
    if optionForAdding && Nat.eqb (length groups) 0 then inr (lit "Add")
    else
      match showQuickPick (shownPicks groups groupId optionForAdding) (lit "Group") with
      | None => inl (Dialogs.Error USER_CANCELED)
      | Some selectedGroupPick => inr (QuickPickItem.id selectedGroupPick)
      end in
  match picked with
  | inl e => inl e
  | inr groupId =>
      if eqb groupId (lit "Add") then
        let newGroupName :=
          showInputBox
            {| InputBoxOptions.placeHolder := lit "New Group Name";
               InputBoxOptions.value := None;
               InputBoxOptions.prompt := None;
               InputBoxOptions.validateInput :=
                 Some (fun val =>
                         if truthy (VString val) then []
                         else lit "A Group Name must be provided.") |} in
        match newGroupName with
        | None => inl (Dialogs.Error USER_CANCELED)
        | Some newGroupName => inr (Group.id (addGroup newGroupName), true)
        end
      else inr (groupId, false)
  end.

End WithServices.

End GroupDialog.

Import GroupDialog.

Module GroupDialogSample.

Definition play : Group.t :=
  {| Group.id := lit "play"; Group.groupName := None;
     Group.collapsed := None; Group.projects := Some [] |}.

Definition service : ProjectService :=
  {| getGroups := [Sample.work; play];
     addGroup := fun name => new_Group name (lit "r0") |}.

End GroupDialogSample.

(* ===================================================================== *)
(** ** Adding a project to the workspace *)
(* ===================================================================== *)

Module ProjectPathType.
Inductive t : Type := Folder | WorkspaceFile | File.
End ProjectPathType.

Module ReopenDashboardReason.
Inductive t : Type := None | EditorReopenedAsWorkspace.
End ReopenDashboardReason.

Module Workspaces.

(** A folder handed to [updateWorkspaceFolders]: [{ uri, name? }]. *)
Record folder : Type := {
  uri : Extension.Uri;
  name : option jsstring;
}.

(** What [addToWorkspace] reads: the file service, [path.normalize], the
    [fsPath] of a uri, the uris of [vscode.workspace.workspaceFolders]
    ([None] when it is [undefined]), whether there is a workspace file,
    whether the dashboard panel [instance] is there, whether
    [updateWorkspaceFolders] succeeds, and the key [REOPEN_KEY] of
    [./constants]. *)
Class Host : Type := {
  getProjectPathType : jsstring -> ProjectPathType.t;
  getFoldersFromWorkspaceFile : jsstring -> result (list jsstring);
  path_normalize : jsstring -> jsstring;
  fsPath : Extension.Uri -> jsstring;
  workspaceFolders : option (list Extension.Uri);
  workspaceFile : option Extension.Uri;
  instance : bool;
  updateWorkspaceFolders : nat -> list folder -> bool;
  REOPEN_KEY : jsstring;
}.

(** The calls [addToWorkspace] makes. *)
Inductive call : Type :=
| ConsoleError (e : exn)
| ShowErrorMessage (message : jsstring)
| ShowInformationMessage (message : jsstring)
| UpdateWorkspaceFolders (start : nat) (folders : list folder)
| GlobalStateUpdate (key : jsstring) (reason : ReopenDashboardReason.t)
| Dispose.

Section WithHost.
Context {H : Host}.

(** The normalized paths of the folders of the workspace, as a set. *)
Definition openFolders : gset jsstring :=
  list_to_set
    (List.map (fun w => path_normalize (fsPath w)) (default [] workspaceFolders)).

(** The folders to add for a project, or [None] where the function
    returns before looking at the workspace. *)
Definition foldersOf (project : value) (uri : Extension.Uri)
  : io call (option (list folder)) :=
  match getProjectPathType (fsPath uri) with
  | ProjectPathType.Folder =>
      name ← lift (n ← getProp project (lit "name"); sanitizeProjectName n);
      mret (Some [{| uri := uri; name := Some name |}])
  | ProjectPathType.WorkspaceFile =>
      io_try_catch
        (folderPaths ← lift (getFoldersFromWorkspaceFile (fsPath uri));
         mret (Some (List.map
                       (fun f => {| uri := Extension.Uri_file f; name := None |})
                       folderPaths)))
        (fun e =>
           Eff.call (ConsoleError e);;
           Eff.call (ShowErrorMessage (lit "Could not read the project's workspace file."));;
           mret None)
  | ProjectPathType.File =>
      Eff.call (ShowInformationMessage
                  (lit "A file project cannot be added to the workspace."));;
      mret None
  end.

(** [addToWorkspace(project, uri)] *)
Definition addToWorkspace (project : value) (uri : Extension.Uri) : io call unit :=
  wsToAdd ← foldersOf project uri;
  match wsToAdd with
  | None => mret tt
  | Some wsToAdd =>
      let wsToAdd :=
        filter (fun ws => path_normalize (fsPath (Workspaces.uri ws)) ∉ openFolders)
          wsToAdd in
      if Nat.eqb (length wsToAdd) 0 then mret tt
      else
        let isNewWorkSpace := negb (bool_decide (is_Some workspaceFile)) in
        Eff.call (UpdateWorkspaceFolders (size openFolders) wsToAdd);;
        if negb (updateWorkspaceFolders (size openFolders) wsToAdd) then
          Eff.call (ShowErrorMessage (lit "Could not add project to workspace."))
        else if isNewWorkSpace then
          Eff.call (GlobalStateUpdate REOPEN_KEY
                      ReopenDashboardReason.EditorReopenedAsWorkspace);;
          if instance then Eff.call Dispose else lift (Throw TypeError)
        else mret tt
  end.

End WithHost.

(** A host on a POSIX system: paths are normal as they are, the workspace
    has the folder [/home/me/site] and no workspace file, and the
    workspace file of a project lists [/home/me/site] and
    [/home/me/notes]. *)
Definition sampleHost : Host :=
  {| getProjectPathType := fun p =>
       if startsWith p (lit "/home/me/all") then ProjectPathType.WorkspaceFile
       else ProjectPathType.Folder;
     getFoldersFromWorkspaceFile := fun _ =>
       Ok [lit "/home/me/site"; lit "/home/me/notes"];
     path_normalize := fun p => p;
     fsPath := fun u =>
       match u with
       | Extension.Uri_file p => p
       | Extension.Uri_parse p => p
       end;
     workspaceFolders := Some [Extension.Uri_file (lit "/home/me/site")];
     workspaceFile := None;
     instance := true;
     updateWorkspaceFolders := fun _ _ => true;
     REOPEN_KEY := lit "dashboard.reopen" |}.

End Workspaces.

(* ===================================================================== *)
(** ** Editing by hand: the groups that are saved *)
(* ===================================================================== *)

(** A project as the clean-up leaves it: with id, name and path, and
    without the obsolete property. *)
Definition cleanedProject (p : value) : Prop :=
  Extension.wellFormedProject p = true /\
  Extension.field p (lit "imageFileName") = VUndefined.

(** A group with an id, a group name and an array of cleaned projects. *)
Definition cleanedGroup (g : value) : Prop :=
  truthy (Extension.field g (lit "id")) = true /\
  nullish (Extension.field g (lit "groupName")) = false /\
  exists ps extra,
    Extension.field g (lit "projects") = VArray ps extra /\ Forall cleanedProject ps.

(** An edited document whose one project still has an image file name,
    and an empty unnamed group after it,
    [[{"id":"g1","groupName":"Work","projects":[{"id":"p1","name":"Project","path":"/home/me/site","imageFileName":"site.png"}]},{}]],
    in a runtime whose [JSON.parse] reads it from the text [old]. *)
Module EditSample.

Definition oldProject : value :=
  VObject [(lit "id", VString (lit "p1"));
           (lit "name", VString (lit "Project"));
           (lit "path", VString (lit "/home/me/site"));
           (lit "imageFileName", VString (lit "site.png"))].

Definition oldDocument : value :=
  VArray [VObject [(lit "id", VString (lit "g1"));
                   (lit "groupName", VString (lit "Work"));
                   (lit "projects", VArray [oldProject] [])];
          VObject []] [].

Definition oldText : jsstring := lit "old".

Definition runtime : Runtime := Sample.runtime [(oldText, oldDocument)] [].

End EditSample.

(** A project whose name holds markup. *)
Module FolderSample.

Definition notes : value :=
  VObject [(lit "id", VString (lit "p2"));
           (lit "name", VString (lit " <b>Notes</b>"));
           (lit "path", VString (lit "/home/me/notes"))].

Definition folder : Workspaces.folder :=
  {| Workspaces.uri := Extension.Uri_file (lit "/home/me/notes");
     Workspaces.name := Some (lit "Notes") |}.

End FolderSample.

(* ===================================================================== *)
(** ** The custom color of a project *)
(* ===================================================================== *)

(** The color that [queryProjectColor] makes of the answer to the
    custom color box: the answer, or the empty text when there is none,
    with every semicolon (59) and every double quote (34) replaced by
    nothing, then trimmed. *)
Definition customColorOf (customColor : option jsstring) : jsstring :=
  trim (List.filter (fun c => negb ((c =? 59) || (c =? 34))) (default [] customColor)).

(* ===================================================================== *)
(** * Properties *)
(* ===================================================================== *)

(** ** The definitions at work *)

Example classify_ssh :
  getRemoteType (K := Sample.constants)
    (Sample.project (lit "vscode-remote://ssh-remote+me@host/srv"))
  = Ok ProjectRemoteType.SSH.
Proof. reflexivity. Qed.

Example classify_wsl :
  getRemoteType (K := Sample.constants) (Sample.project (lit "//wsl$/Ubuntu/home/me"))
  = Ok ProjectRemoteType.WSL.
Proof. reflexivity. Qed.

Example classify_container :
  getRemoteType (K := Sample.constants)
    (Sample.project (lit "vscode-remote://attached-container+web/srv"))
  = Ok ProjectRemoteType.CONTAINER.
Proof. reflexivity. Qed.

Example classify_local :
  getRemoteType (K := Sample.constants) (Sample.project (lit "/home/me/site"))
  = Ok ProjectRemoteType.None.
Proof. reflexivity. Qed.

Example classify_number_raises :
  getRemoteType (K := Sample.constants) (VObject [(lit "path", VNumber 7)])
  = Throw TypeError.
Proof. reflexivity. Qed.

Example hex_of_web :
  getContainerHex (VString (lit "web")) VUndefined
  = VString
      (lit "7b22636f6e7461696e65724e616d65223a222f776562222c2273657474696e6773223a7b22636f6e74657874223a226465736b746f702d6c696e7578227d7d").
Proof. vm_compute. reflexivity. Qed.

Example hex_of_quote :
  getContainerHex (VString [34]) (VString (lit "c"))
  = VString
      (lit "7b22636f6e7461696e65724e616d65223a222f5c22222c2273657474696e6773223a7b22636f6e74657874223a2263227d7d").
Proof. vm_compute. reflexivity. Qed.

Example hex_of_wide_char :
  toString16 8364 = lit "20ac".
Proof. reflexivity. Qed.

Example reorder_plain :
  List.map (fun g => (Group.id g, List.map Project.id (default [] (Group.projects g))))
    (deref (reorderLoop [Sample.work] Sample.entropy Sample.plainOrders))
  = [(lit "work", [lit "p2"]); (lit "group2r0", [lit "p1"])].
Proof. vm_compute. reflexivity. Qed.

Example reorder_repeated :
  List.map (fun g => (Group.id g, List.map Project.id (default [] (Group.projects g))))
    (deref (reorderLoop [Sample.work] Sample.entropy Sample.repeatedOrders))
  = [(lit "work", [lit "p2"]); (lit "work", [lit "p2"])].
Proof. vm_compute. reflexivity. Qed.

Example save_null_entry :
  onWillSave (R := Sample.runtime [(Sample.nullText, Sample.nullDocument)] [])
    true Sample.nullText (Ok tt) (Ok tt)
  = ([], Throw TypeError).
Proof. reflexivity. Qed.

Example save_unparsable :
  onWillSave (R := Sample.runtime [] []) true (lit "[{") (Ok tt) (Ok tt)
  = ([ShowErrorMessage parseErrorMessage], Ok tt).
Proof. reflexivity. Qed.

Example save_good_document :
  onWillSave (R := Sample.runtime [(lit "doc", VArray [Sample.goodGroup; VObject []] [])] [])
    true (lit "doc") (Ok tt) (Ok tt)
  = ([SaveGroups [Sample.goodGroup]; DisposeSubscriptions; ShowTextDocument;
      CloseActiveEditor; ShowDashboard],
     Ok tt).
Proof. reflexivity. Qed.

(** ** Strings *)

Lemma eqb_eq (a b : jsstring) : eqb a b = true <-> a = b.
Proof.
  revert b; induction a as [|c a IH]; intros [|d b]; simpl; try (split; congruence).
  rewrite andb_true_iff, N.eqb_eq, IH. split.
  - intros [-> ->]; reflexivity.
  - intros [= -> ->]; auto.
Qed.

Lemma eqb_refl (a : jsstring) : eqb a a = true.
Proof. apply eqb_eq; reflexivity. Qed.

Lemma eqb_neq (a b : jsstring) : eqb a b = false <-> a <> b.
Proof.
  rewrite <- eqb_eq. destruct (eqb a b); split; intros; congruence.
Qed.

Lemma startsWith_nil (s : jsstring) : startsWith s [] = true.
Proof. destruct s; reflexivity. Qed.

Lemma startsWith_empty (pre : jsstring) : pre <> [] -> startsWith [] pre = false.
Proof. destruct pre; [congruence | reflexivity]. Qed.

Lemma startsWith_app (pre rest : jsstring) : startsWith (pre ++ rest) pre = true.
Proof.
  induction pre as [|c pre IH]; simpl; [apply startsWith_nil|].
  rewrite N.eqb_refl; exact IH.
Qed.

Lemma truthy_string (s : jsstring) : truthy (VString s) = true <-> s <> [].
Proof.
  simpl. rewrite negb_true_iff. apply eqb_neq.
Qed.

(** ** The classifier *)

Section Classifier.
Context {K : Constants}.

(** The classifier on a project whose path is a non-empty string. *)
Lemma getRemoteType_string (project : value) (p : jsstring) :
  getProp project (lit "path") = Ok (VString p) ->
  p <> [] ->
  getRemoteType project =
    Ok (if matchesSsh p then ProjectRemoteType.SSH
        else if matchesWsl p then ProjectRemoteType.WSL
        else if matchesContainer p then ProjectRemoteType.CONTAINER
        else ProjectRemoteType.None).
Proof.
  intros Hp Hne. apply truthy_string in Hne.
  unfold getRemoteType, Project_getRemoteType, matchesSsh, matchesWsl, matchesContainer.
  rewrite Hp. unfold mbind, result_bind, bind, and_then. rewrite Hne.
  unfold call_startsWith, call_match.
  destruct (startsWith p SSH_REMOTE_PREFIX); [reflexivity|].
  destruct (bool_decide (is_Some (re_match WSL_DEFAULT_REGEX p))); simpl; [reflexivity|].
  destruct (startsWith p (lit "vscode-remote://wsl+")); [reflexivity|].
  destruct (startsWith p DEV_CONTAINER_PREFIX); reflexivity.
Qed.

(** The classifier on a project whose path is falsy: the empty string,
    [null], [undefined]. *)
Lemma getRemoteType_falsy (project path : value) :
  getProp project (lit "path") = Ok path ->
  truthy path = false ->
  getRemoteType project = Ok ProjectRemoteType.None.
Proof.
  intros Hp Hf.
  unfold getRemoteType, Project_getRemoteType.
  rewrite Hp. unfold mbind, result_bind, bind, and_then. rewrite Hf. reflexivity.
Qed.

End Classifier.

Section ClassifierClaims.
Context {K : Constants}.

(** C1. [getRemoteType] puts every path string into exactly one of None,
    SSH, WSL and CONTAINER, testing in a fixed order: a path with the SSH
    prefix is SSH; otherwise a path matching the WSL pattern is WSL;
    otherwise a path with the container prefix is CONTAINER; every other
    string is None. It holds for every non-empty path whatever the
    constants are, and for the empty path as soon as no pattern accepts the
    empty string. *)
Theorem getRemoteType_classifies (project : value) (p : jsstring) :
  getProp project (lit "path") = Ok (VString p) ->
  p <> [] \/ patternsNonEmpty ->
  exists r,
    getRemoteType project = Ok r /\
    (forall r', getRemoteType project = Ok r' -> r' = r) /\
    (matchesSsh p = true -> r = ProjectRemoteType.SSH) /\
    (matchesSsh p = false -> matchesWsl p = true -> r = ProjectRemoteType.WSL) /\
    (matchesSsh p = false -> matchesWsl p = false -> matchesContainer p = true ->
     r = ProjectRemoteType.CONTAINER) /\
    (matchesSsh p = false -> matchesWsl p = false -> matchesContainer p = false ->
     r = ProjectRemoteType.None).
Proof.
  intros Hp Hdom.
  destruct (decide (p = [])) as [-> | Hne].
  - destruct Hdom as [? | (Hssh & Hdev & Hwsl)]; [congruence|].
    exists ProjectRemoteType.None.
    assert (Hs : matchesSsh [] = false) by (apply startsWith_empty; exact Hssh).
    assert (Hc : matchesContainer [] = false) by (apply startsWith_empty; exact Hdev).
    assert (Hw : matchesWsl [] = false).
    { unfold matchesWsl. rewrite Hwsl. reflexivity. }
    rewrite (getRemoteType_falsy project (VString []) Hp eq_refl).
    repeat split; try congruence.
  - pose proof (getRemoteType_string project p Hp Hne) as E.
    eexists; split; [exact E|]. split; [intros r'; rewrite E; congruence|].
    destruct (matchesSsh p), (matchesWsl p), (matchesContainer p);
      repeat split; congruence.
Qed.

(** C2. [getRemoteType] is total on projects whose path is a string,
    [null] or [undefined]: it returns a type and never raises; the empty
    string, [null] and [undefined] give None, and so does every string
    that no pattern accepts. Its result depends on the path alone. *)
Theorem getRemoteType_total (project path : value) :
  getProp project (lit "path") = Ok path ->
  path = VUndefined \/ path = VNull \/ (exists s, path = VString s) ->
  (exists r, getRemoteType project = Ok r) /\
  (truthy path = false -> getRemoteType project = Ok ProjectRemoteType.None) /\
  (forall s, path = VString s ->
     matchesSsh s = false -> matchesWsl s = false -> matchesContainer s = false ->
     getRemoteType project = Ok ProjectRemoteType.None) /\
  (forall project', getProp project' (lit "path") = Ok path ->
     getRemoteType project' = getRemoteType project).
Proof.
  intros Hp Hdom.
  assert (Hfalsy : truthy path = false ->
                   getRemoteType project = Ok ProjectRemoteType.None)
    by (apply getRemoteType_falsy; exact Hp).
  assert (Hnone : forall s, path = VString s ->
            matchesSsh s = false -> matchesWsl s = false ->
            matchesContainer s = false ->
            getRemoteType project = Ok ProjectRemoteType.None).
  { intros s -> Hs Hw Hc.
    destruct (decide (s = [])) as [-> | Hne]; [apply Hfalsy; reflexivity|].
    rewrite (getRemoteType_string project s Hp Hne), Hs, Hw, Hc. reflexivity. }
  split; [|split; [exact Hfalsy | split; [exact Hnone|]]].
  - destruct Hdom as [-> | [-> | [s ->]]];
      try (eexists; apply Hfalsy; reflexivity).
    destruct (decide (s = [])) as [-> | Hne];
      [eexists; apply Hfalsy; reflexivity|].
    eexists; apply (getRemoteType_string project s Hp Hne).
  - intros project' Hp'.
    unfold getRemoteType, Project_getRemoteType. rewrite Hp, Hp'. reflexivity.
Qed.

End ClassifierClaims.

Lemma getRemoteType_classifies_witness :
  patternsNonEmpty (K := Sample.constants) /\
  exists r,
    getRemoteType (K := Sample.constants)
      (Sample.project (lit "vscode-remote://wsl+Ubuntu/home")) = Ok r /\
    r = ProjectRemoteType.WSL.
Proof.
  assert (H : patternsNonEmpty (K := Sample.constants))
    by (repeat split; discriminate).
  split; [exact H|].
  destruct (getRemoteType_classifies (K := Sample.constants)
              (Sample.project (lit "vscode-remote://wsl+Ubuntu/home"))
              (lit "vscode-remote://wsl+Ubuntu/home") eq_refl (or_intror H))
    as (r & Hr & _ & _ & Hwsl & _).
  exists r. split; [exact Hr|]. apply Hwsl; reflexivity.
Defined.

Lemma getRemoteType_total_witness :
  getRemoteType (K := Sample.constants) (VObject [(lit "path", VNull)])
  = Ok ProjectRemoteType.None.
Proof.
  apply (getRemoteType_total (K := Sample.constants)
           (VObject [(lit "path", VNull)]) VNull eq_refl
           (or_intror (or_introl eq_refl))).
  reflexivity.
Defined.

(** ** Host-calling code *)

Lemma io_bind_lift_ok {E A B} (a : A) (k : A -> io E B) :
  mbind k (lift (Ok a)) = k a.
Proof.
  unfold mbind, io_mbind, io_bind, lift. destruct (k a); reflexivity.
Qed.

Lemma io_bind_lift_throw {E A B} (e : exn) (k : A -> io E B) :
  mbind k (lift (Throw e)) = ([], Throw e).
Proof. reflexivity. Qed.

Lemma io_bind_ret {E A B} (a : A) (k : A -> io E B) :
  mbind k (mret a) = k a.
Proof.
  unfold mbind, io_mbind, io_bind, mret, io_mret, io_ret. destruct (k a); reflexivity.
Qed.

Lemma io_bind_call {E B} (c : E) (k : unit -> io E B) :
  mbind k (call c) = (c :: fst (k tt), snd (k tt)).
Proof.
  unfold mbind, io_mbind, io_bind, call. destruct (k tt); reflexivity.
Qed.

(** ** The container descriptor *)

Lemma fold_left_hex (text acc : jsstring) :
  fold_left (fun acc c => acc ++ toString16 c) text acc = acc ++ hexOfChars text.
Proof.
  revert acc; induction text as [|c text IH]; intros acc; simpl.
  - unfold hexOfChars; simpl. rewrite app_nil_r; reflexivity.
  - rewrite IH. unfold hexOfChars; simpl. rewrite <- app_assoc; reflexivity.
Qed.

Lemma quoteChars_plain (s : jsstring) :
  forallb isPlainChar s = true -> quoteChars s = s.
Proof.
  induction s as [|c s IH]; [reflexivity|].
  simpl. rewrite andb_true_iff. intros [Hc Hs].
  rewrite (IH Hs). unfold isPlainChar in Hc.
  repeat rewrite andb_true_iff in Hc. repeat rewrite negb_true_iff in Hc.
  destruct Hc as ((((H32 & H34) & H92) & Hhi) & Hlo).
  rewrite H34, H92, Hhi, Hlo.
  apply N.leb_le in H32.
  assert (E8 : (c =? 8) = false) by (apply N.eqb_neq; lia).
  assert (E9 : (c =? 9) = false) by (apply N.eqb_neq; lia).
  assert (E10 : (c =? 10) = false) by (apply N.eqb_neq; lia).
  assert (E12 : (c =? 12) = false) by (apply N.eqb_neq; lia).
  assert (E13 : (c =? 13) = false) by (apply N.eqb_neq; lia).
  assert (Elt : (c <? 32) = false) by (apply N.ltb_ge; lia).
  rewrite E8, E9, E10, E12, E13, Elt. reflexivity.
Qed.

Lemma quoteChars_slash (s : jsstring) :
  quoteChars (lit "/" ++ s) = lit "/" ++ quoteChars s.
Proof. reflexivity. Qed.

Lemma stringify_descriptor (name context : jsstring) :
  stringify
    (VObject [(lit "containerName", VString (lit "/" ++ name));
              (lit "settings", VObject [(lit "context", VString context)])])
  = Some (descriptorText (quoteChars name) (quoteChars context)).
Proof.
  cbn [stringify omap list_omap join fst snd]. unfold quoteJSONString.
  rewrite quoteChars_slash.
  rewrite (quoteChars_plain (lit "containerName")) by (vm_compute; reflexivity).
  rewrite (quoteChars_plain (lit "settings")) by (vm_compute; reflexivity).
  rewrite (quoteChars_plain (lit "context")) by (vm_compute; reflexivity).
  unfold descriptorText. rewrite <- !app_assoc. reflexivity.
Qed.

Lemma hex_digits_no_dollar (u : Hexadecimal.uint) :
  Forall (fun c => c <> 36) (hex_digits u).
Proof.
  induction u; simpl; constructor; auto; discriminate.
Qed.

Lemma hexOfChars_no_dollar (text : jsstring) :
  Forall (fun c => c <> 36) (hexOfChars text).
Proof.
  unfold hexOfChars. induction text as [|c text IH]; simpl; [constructor|].
  apply Forall_app; split; [apply hex_digits_no_dollar | exact IH].
Qed.

Lemma getSubstitution_no_dollar (matched before after repl : jsstring) :
  Forall (fun c => c <> 36) repl ->
  getSubstitution matched before after repl = repl.
Proof.
  induction 1 as [|c repl Hc _ IH]; simpl; [reflexivity|].
  apply N.eqb_neq in Hc. rewrite Hc, IH. reflexivity.
Qed.

Lemma indexOf_startsWith (s pat : jsstring) :
  startsWith s pat = true -> indexOf s pat = Some 0%nat.
Proof. intros H. destruct s; cbn [indexOf]; rewrite H; reflexivity. Qed.

Lemma indexOf_prefix (pat rest : jsstring) : indexOf (pat ++ rest) pat = Some 0%nat.
Proof. apply indexOf_startsWith, startsWith_app. Qed.

Lemma replaceString_prefix (pat rest repl : jsstring) :
  Forall (fun c => c <> 36) repl ->
  replaceString (pat ++ rest) pat repl = repl ++ rest.
Proof.
  intros H. unfold replaceString. rewrite indexOf_prefix. simpl.
  rewrite getSubstitution_no_dollar by exact H.
  rewrite drop_app_length. reflexivity.
Qed.

Lemma getContainerHex_null (contextName : value) :
  getContainerHex VNull contextName = VNull.
Proof. reflexivity. Qed.

Lemma getContainerHex_string (name context : jsstring) :
  getContainerHex (VString name) (VString context)
  = VString (hexOfChars (descriptorText (quoteChars name) (quoteChars context))).
Proof.
  unfold getContainerHex. cbn [toString].
  rewrite stringify_descriptor. cbn [default].
  rewrite fold_left_hex. reflexivity.
Qed.

Lemma getContainerHex_default (name : jsstring) :
  getContainerHex (VString name) VUndefined
  = getContainerHex (VString name) (VString (lit "desktop-linux")).
Proof. reflexivity. Qed.

(** The descriptor of a container name, in the default context. *)
Lemma getContainerHex_default_plain (name : jsstring) :
  getContainerHex (VString name) VUndefined
  = VString (hexOfChars (descriptorText (quoteChars name) (lit "desktop-linux"))).
Proof.
  rewrite getContainerHex_default, getContainerHex_string.
  rewrite (quoteChars_plain (lit "desktop-linux")) by (vm_compute; reflexivity).
  reflexivity.
Qed.

Lemma hasFolder_some (m : RegExpMatch) :
  hasFolder (Some m)
  = Ok (negb (nullish (default VUndefined (assoc (lit "folder") (match_groups m))))).
Proof. reflexivity. Qed.

Section OpenContainer.
Context {K : Constants} {R : Runtime}.

Lemma trimmedPath_string (project : value) (path : jsstring) :
  getProp project (lit "path") = Ok (VString path) ->
  trimmedPath project = Ok (trim path).
Proof.
  intros Hp. unfold trimmedPath. rewrite Hp.
  unfold mbind, result_bind, bind, or_else.
  destruct (truthy (VString path)) eqn:E; [reflexivity|].
  simpl in E. apply negb_false_iff, eqb_eq in E. subst; reflexivity.
Qed.

(** What [openProject] sends to the editor for a container project whose
    path is not relative and is matched by the container pattern. *)
Lemma openProject_container (ws : Workspace) (project : value)
    (openType : ProjectOpenType.t) (path name : jsstring) (m : RegExpMatch) :
  getProp project (lit "path") = Ok (VString path) ->
  getRemoteType project = Ok ProjectRemoteType.CONTAINER ->
  path_isAbsolute (trim path) || includes (trim path) (lit "://") = true ->
  re_match CONTAINER_REGEX (replaceString (trim path) DEV_CONTAINER_PREFIX []) = Some m ->
  assoc (lit "containername") (match_groups m) = Some (VString name) ->
  let hex := hexOfChars (descriptorText (quoteChars name) (lit "desktop-linux")) in
  let dispatched :=
    replaceString (trim path) (DEV_CONTAINER_PREFIX ++ name) (DEV_CONTAINER_PREFIX ++ hex) in
  let newWindow :=
    match openType with ProjectOpenType.NewWindow => true | _ => false end in
  openProject ws project openType =
    ([if nullish (default VUndefined (assoc (lit "folder") (match_groups m)))
      then NewWindow (replaceString dispatched (lit "vscode-remote://") []) (negb newWindow)
      else OpenFolder (Uri_parse dispatched) newWindow],
     Ok tt).
Proof.
  intros Hp Hrt Habs Hm Hname hex dispatched newWindow.
  unfold openProject.
  rewrite Hrt, io_bind_lift_ok.
  rewrite (trimmedPath_string project path Hp), io_bind_lift_ok.
  assert (Hrel : negb (path_isAbsolute (trim path))
                 && negb (includes (trim path) (lit "://")) = false).
  { rewrite <- negb_orb, Habs. reflexivity. }
  rewrite Hrel, io_bind_ret.
  rewrite Hm. unfold matchGroup at 1. cbn [getProp]. rewrite Hname.
  cbn [default from_option id].
  rewrite io_bind_lift_ok.
  rewrite getContainerHex_default_plain.
  rewrite hasFolder_some, io_bind_lift_ok.
  cbn [toString]. fold hex. fold dispatched. fold newWindow.
  destruct (nullish (default VUndefined (assoc (lit "folder") (match_groups m))));
    reflexivity.
Qed.

End OpenContainer.

Lemma noDollar_Forall (s : jsstring) :
  noDollar s = true -> Forall (fun c => c <> 36) s.
Proof.
  induction s as [|c s IH]; simpl; [constructor|].
  rewrite andb_true_iff, negb_true_iff, N.eqb_neq. intros [Hc Hs].
  constructor; auto.
Qed.

Section ContainerClaim.
Context {K : Constants} {R : Runtime}.

(** C3. [getContainerHex] is a function of its arguments: [null] gives
    [null]; a container name and a context name give the concatenation,
    character by character, of the base-16 char codes of the JSON text
    [{"containerName":"/NAME","settings":{"context":"CONTEXT"}}], names
    being written as JSON writes strings, that is, as they are when they
    hold only plain characters; the context defaults to [desktop-linux].
    For a container project, [openProject] sends the editor the path in
    which this descriptor stands where the container name stood. *)
Theorem getContainerHex_descriptor :
  (forall context, getContainerHex VNull context = VNull) /\
  (forall name context,
     getContainerHex (VString name) (VString context)
     = VString (hexOfChars (descriptorText (quoteChars name) (quoteChars context)))) /\
  (forall name context,
     forallb isPlainChar name = true -> forallb isPlainChar context = true ->
     getContainerHex (VString name) (VString context)
     = VString (hexOfChars (descriptorText name context))) /\
  (forall name,
     getContainerHex (VString name) VUndefined
     = getContainerHex (VString name) (VString (lit "desktop-linux"))) /\
  (forall ws project openType path name rest m hex,
     getProp project (lit "path") = Ok (VString path) ->
     getRemoteType project = Ok ProjectRemoteType.CONTAINER ->
     trim path = DEV_CONTAINER_PREFIX ++ name ++ rest ->
     noDollar DEV_CONTAINER_PREFIX = true ->
     path_isAbsolute (trim path) || includes (trim path) (lit "://") = true ->
     re_match CONTAINER_REGEX (name ++ rest) = Some m ->
     assoc (lit "containername") (match_groups m) = Some (VString name) ->
     getContainerHex (VString name) VUndefined = VString hex ->
     let newWindow :=
       match openType with ProjectOpenType.NewWindow => true | _ => false end in
     let dispatched := DEV_CONTAINER_PREFIX ++ hex ++ rest in
     openProject ws project openType =
       ([if nullish (default VUndefined (assoc (lit "folder") (match_groups m)))
         then NewWindow (replaceString dispatched (lit "vscode-remote://") [])
                        (negb newWindow)
         else OpenFolder (Uri_parse dispatched) newWindow],
        Ok tt)).
Proof.
  split; [exact getContainerHex_null|].
  split; [exact getContainerHex_string|].
  split.
  { intros name context Hn Hc.
    rewrite getContainerHex_string, (quoteChars_plain name Hn),
      (quoteChars_plain context Hc). reflexivity. }
  split; [exact getContainerHex_default|].
  intros ws project openType path name rest m hex Hp Hrt Hpath Hdollar Habs Hm Hname Hhex.
  rewrite getContainerHex_default_plain in Hhex. injection Hhex as <-.
  assert (Hstrip : replaceString (trim path) DEV_CONTAINER_PREFIX [] = name ++ rest).
  { rewrite Hpath. apply (replaceString_prefix _ _ []). constructor. }
  rewrite <- Hstrip in Hm.
  rewrite (openProject_container ws project openType path name m Hp Hrt Habs Hm Hname).
  assert (Hsub :
    replaceString (trim path) (DEV_CONTAINER_PREFIX ++ name)
      (DEV_CONTAINER_PREFIX
       ++ hexOfChars (descriptorText (quoteChars name) (lit "desktop-linux")))
    = DEV_CONTAINER_PREFIX
      ++ hexOfChars (descriptorText (quoteChars name) (lit "desktop-linux")) ++ rest).
  { rewrite Hpath, app_assoc, replaceString_prefix.
    - rewrite <- app_assoc. reflexivity.
    - apply Forall_app; split;
        [apply noDollar_Forall, Hdollar | apply hexOfChars_no_dollar]. }
  rewrite Hsub. reflexivity.
Qed.

End ContainerClaim.

Lemma getContainerHex_descriptor_witness :
  openProject (K := Sample.constants) (R := Sample.runtime [] [])
    Sample.closedWorkspace
    (Sample.project (lit "vscode-remote://attached-container+web/srv"))
    ProjectOpenType.NewWindow
  = ([OpenFolder
        (Uri_parse
           (lit "vscode-remote://attached-container+"
            ++ hexOfChars (descriptorText (lit "web") (lit "desktop-linux"))
            ++ lit "/srv"))
        true],
     Ok tt).
Proof.
  destruct (getContainerHex_descriptor
              (K := Sample.constants) (R := Sample.runtime [] []))
    as (_ & _ & _ & _ & Hopen).
  exact (Hopen Sample.closedWorkspace
           (Sample.project (lit "vscode-remote://attached-container+web/srv"))
           ProjectOpenType.NewWindow
           (lit "vscode-remote://attached-container+web/srv")
           (lit "web") (lit "/srv")
           {| match_text := lit "web/srv";
              match_groups := [(lit "containername", VString (lit "web"));
                               (lit "folder", VString (lit "/srv"))] |}
           (hexOfChars (descriptorText (lit "web") (lit "desktop-linux")))
           eq_refl eq_refl eq_refl eq_refl eq_refl eq_refl eq_refl eq_refl).
Defined.

(** ** Relative paths *)

Section RelativePaths.
Context {K : Constants} {R : Runtime}.

Lemma getRemoteType_string_ok (project : value) (path : jsstring) :
  getProp project (lit "path") = Ok (VString path) ->
  exists r, getRemoteType project = Ok r.
Proof.
  intros Hp. destruct (decide (path = [])) as [-> | Hne].
  - eexists. apply (getRemoteType_falsy project (VString []) Hp). reflexivity.
  - eexists. apply (getRemoteType_string project path Hp Hne).
Qed.

(** With a workspace root at hand a relative path of a local project is
    joined to it, and the result is what gets opened. *)
Lemma openProject_relative_resolved (ws : Workspace) (project : value)
    (path root : jsstring) :
  getProp project (lit "path") = Ok (VString path) ->
  getRemoteType project = Ok ProjectRemoteType.None ->
  path_isAbsolute (trim path) = false ->
  includes (trim path) (lit "://") = false ->
  rootPath ws = Ok (VString root) ->
  root <> [] ->
  openProject ws project ProjectOpenType.Default
  = ([OpenFolder (Uri_file (path_join root (trim path))) false],
     awaited ws (OpenFolder (Uri_file (path_join root (trim path))) false)).
Proof.
  intros Hp Hrt Habs Hincl Hroot Hne.
  unfold openProject.
  rewrite Hrt, io_bind_lift_ok.
  rewrite (trimmedPath_string project path Hp), io_bind_lift_ok.
  rewrite Habs, Hincl. cbn [negb andb].
  rewrite Hroot, io_bind_lift_ok.
  apply truthy_string in Hne. rewrite Hne, io_bind_ret. reflexivity.
Qed.

(** With an empty list of workspace folders and no workspace file the
    user is warned and nothing is opened. *)
Lemma openProject_relative_no_folder (ws : Workspace) (project : value)
    (openType : ProjectOpenType.t) (path : jsstring) :
  getProp project (lit "path") = Ok (VString path) ->
  path_isAbsolute (trim path) = false ->
  includes (trim path) (lit "://") = false ->
  workspaceFile ws = None ->
  workspaceFolders ws = Some [] ->
  openProject ws project openType
  = ([ShowWarningMessage
        (lit "Tried to open a project with a relative path, but no workspace is open.")],
     Ok tt).
Proof.
  intros Hp Habs Hincl Hfile Hfolders.
  destruct (getRemoteType_string_ok project path Hp) as [r Hrt].
  unfold openProject.
  rewrite Hrt, io_bind_lift_ok.
  rewrite (trimmedPath_string project path Hp), io_bind_lift_ok.
  rewrite Habs, Hincl. cbn [negb andb].
  unfold rootPath. rewrite Hfile, Hfolders. cbn [truthy].
  rewrite io_bind_lift_ok. reflexivity.
Qed.

(** C4, at the input where the code departs from it. A project with a
    relative path, opened while no workspace is open ([workspaceFile] and
    [workspaceFolders] both [undefined]): [openProject] raises a TypeError
    on reading [workspaceFolders[0]]; no message is shown to the user and
    the exception leaves [openProject]. *)
Theorem openProject_relative_without_workspace (ws : Workspace) (project : value)
    (openType : ProjectOpenType.t) (path : jsstring) :
  getProp project (lit "path") = Ok (VString path) ->
  path_isAbsolute (trim path) = false ->
  includes (trim path) (lit "://") = false ->
  workspaceFile ws = None ->
  workspaceFolders ws = None ->
  openProject ws project openType = ([], Throw TypeError).
Proof.
  intros Hp Habs Hincl Hfile Hfolders.
  destruct (getRemoteType_string_ok project path Hp) as [r Hrt].
  unfold openProject.
  rewrite Hrt, io_bind_lift_ok.
  rewrite (trimmedPath_string project path Hp), io_bind_lift_ok.
  rewrite Habs, Hincl. cbn [negb andb].
  unfold rootPath. rewrite Hfile, Hfolders. cbn [truthy].
  reflexivity.
Qed.

End RelativePaths.

Lemma openProject_relative_without_workspace_witness :
  openProject (K := Sample.constants) (R := Sample.runtime [] [])
    Sample.closedWorkspace (Sample.project (lit "projects/site"))
    ProjectOpenType.Default
  = ([], Throw TypeError).
Proof.
  exact (openProject_relative_without_workspace
           (K := Sample.constants) (R := Sample.runtime [] [])
           Sample.closedWorkspace (Sample.project (lit "projects/site"))
           ProjectOpenType.Default (lit "projects/site")
           eq_refl eq_refl eq_refl eq_refl eq_refl).
Defined.

(** ** Failing closed *)

Section FailClosed.
Context {R : Runtime}.

Lemma isFolderGitRepo_returns (fPath : jsstring) :
  exists b, isFolderGitRepo fPath = Ok b.
Proof.
  unfold isFolderGitRepo, try_catch, mbind, result_bind, bind.
  destruct (lstatSync_isDirectory fPath) as [d | e]; [|eauto].
  destruct (execSync _) as [test | e]; eauto.
Qed.

Lemma getWorkspaceColor_returns (project : value) :
  exists v, snd (getWorkspaceColor project) = Ok v.
Proof.
  unfold getWorkspaceColor.
  match goal with |- context [lift ?body] => destruct body as [v | e] end;
    simpl; eauto.
Qed.

(** C8. Git detection and the workspace colour fail closed. Whatever the
    file system and the shell answer, [isFolderGitRepo] returns a boolean
    and [getWorkspaceColor] returns a value: neither raises. When [lstat]
    or the git command raises, [isFolderGitRepo] is [false]; when the
    settings file cannot be read, does not parse, or holds no colour
    customizations, [getWorkspaceColor] is [null]. *)
Theorem lookups_fail_closed (fPath : jsstring) (project : value) :
  (exists b, isFolderGitRepo fPath = Ok b) /\
  (forall e, lstatSync_isDirectory fPath = Throw e ->
     isFolderGitRepo fPath = Ok false) /\
  (forall d e,
     lstatSync_isDirectory fPath = Ok d ->
     execSync (gitCommand (if d then fPath else path_dirname fPath)) = Throw e ->
     isFolderGitRepo fPath = Ok false) /\
  (exists v, snd (getWorkspaceColor project) = Ok v) /\
  (forall e, getProp project (lit "path") = Throw e ->
     snd (getWorkspaceColor project) = Ok VNull) /\
  (forall p e,
     getProp project (lit "path") = Ok p ->
     readFileSync (settingsFile p) = Throw e ->
     snd (getWorkspaceColor project) = Ok VNull) /\
  (forall p raw e,
     getProp project (lit "path") = Ok p ->
     readFileSync (settingsFile p) = Ok raw ->
     JSON_parse (trim (stripComments false raw)) = Throw e ->
     snd (getWorkspaceColor project) = Ok VNull) /\
  (forall p raw settings customizations,
     getProp project (lit "path") = Ok p ->
     readFileSync (settingsFile p) = Ok raw ->
     JSON_parse (trim (stripComments false raw)) = Ok settings ->
     getProp settings (lit "workbench.colorCustomizations") = Ok customizations ->
     nullish customizations = true ->
     snd (getWorkspaceColor project) = Ok VNull).
Proof.
  split; [apply isFolderGitRepo_returns|].
  split.
  { intros e H. unfold isFolderGitRepo. rewrite H. reflexivity. }
  split.
  { intros d e Hd He. unfold isFolderGitRepo. rewrite Hd.
    unfold mbind, result_bind, bind, try_catch.
    rewrite He. reflexivity. }
  split; [apply getWorkspaceColor_returns|].
  unfold getWorkspaceColor.
  split.
  { intros e H. rewrite H. reflexivity. }
  split.
  { intros p e Hp H. rewrite Hp. unfold mbind at 1, result_bind, bind.
    rewrite H. reflexivity. }
  split.
  { intros p raw e Hp Hraw H. rewrite Hp. unfold mbind at 1, result_bind, bind.
    rewrite Hraw. unfold mbind at 1. rewrite H. reflexivity. }
  intros p raw settings cc Hp Hraw Hparse Hcc Hnull.
  rewrite Hp. unfold mbind at 1, result_bind, bind.
  rewrite Hraw. unfold mbind at 1. rewrite Hparse. unfold mbind at 1. rewrite Hcc.
  destruct cc; try discriminate; reflexivity.
Qed.

End FailClosed.

Lemma lookups_fail_closed_witness :
  isFolderGitRepo (R := Sample.runtime [] []) (lit "/home/me/site") = Ok false /\
  snd (getWorkspaceColor (R := Sample.runtime [] [])
         (Sample.project (lit "/home/me/site"))) = Ok VNull.
Proof.
  destruct (lookups_fail_closed (R := Sample.runtime [] [])
              (lit "/home/me/site") (Sample.project (lit "/home/me/site")))
    as (_ & Hgit & _ & _ & _ & Hread & _).
  split.
  - exact (Hgit (HostError (lit "ENOENT")) eq_refl).
  - exact (Hread (VString (lit "/home/me/site")) (HostError (lit "ENOENT"))
             eq_refl eq_refl).
Defined.

(** ** Reordering *)

Section ProjectMap.

Lemma addProjects_fold (m : gmap jsstring Project.t) (g : Group.t) :
  addProjects m g = fold_left insertProject (default [] (Group.projects g)) m.
Proof. unfold addProjects. destruct (Group.projects g); reflexivity. Qed.

Lemma buildProjectMap_fold (groups : list Group.t) :
  buildProjectMap groups = fold_left insertProject (allProjects groups) ∅.
Proof.
  unfold buildProjectMap, allProjects. generalize (∅ : gmap jsstring Project.t).
  induction groups as [|g groups IH]; intros m; simpl; [reflexivity|].
  rewrite fold_left_app, <- addProjects_fold. apply IH.
Qed.

Lemma insertAll_keys (ps : list Project.t) (m : gmap jsstring Project.t) :
  (forall k p, m !! k = Some p -> Project.id p = k) ->
  forall k p, fold_left insertProject ps m !! k = Some p -> Project.id p = k.
Proof.
  revert m; induction ps as [|q ps IH]; intros m Hm; simpl; [exact Hm|].
  apply IH. intros k p. unfold insertProject.
  destruct (decide (Project.id q = k)) as [<- | Hne].
  - rewrite lookup_insert_eq. intros [= <-]; reflexivity.
  - rewrite lookup_insert_ne by exact Hne. apply Hm.
Qed.

Lemma insertAll_elem (ps : list Project.t) (m : gmap jsstring Project.t) k p :
  fold_left insertProject ps m !! k = Some p -> m !! k = Some p \/ p ∈ ps.
Proof.
  revert m; induction ps as [|q ps IH]; intros m; simpl; [auto|].
  intros H. apply IH in H as [H | H]; [|right; right; exact H].
  unfold insertProject in H.
  destruct (decide (Project.id q = k)) as [<- | Hne].
  - rewrite lookup_insert_eq in H. injection H as <-. right; left.
  - rewrite lookup_insert_ne in H by exact Hne. left; exact H.
Qed.

Lemma insertAll_dom (ps : list Project.t) (m : gmap jsstring Project.t) k :
  is_Some (fold_left insertProject ps m !! k)
  <-> is_Some (m !! k) \/ k ∈ List.map Project.id ps.
Proof.
  revert m; induction ps as [|q ps IH]; intros m; simpl.
  - split; [auto | intros [H | H]; [exact H | inversion H]].
  - rewrite IH. unfold insertProject.
    destruct (decide (Project.id q = k)) as [<- | Hne].
    + rewrite lookup_insert_eq. split; intros _.
      * right; left.
      * left; eauto.
    + rewrite lookup_insert_ne by exact Hne. split.
      * intros [H | H]; [left; exact H | right; right; exact H].
      * intros [H | H]; [left; exact H|].
        apply elem_of_cons in H as [H | H]; [congruence | right; exact H].
Qed.

Lemma buildProjectMap_key (groups : list Group.t) k p :
  buildProjectMap groups !! k = Some p -> Project.id p = k.
Proof.
  rewrite buildProjectMap_fold. apply insertAll_keys.
  intros k' p'. rewrite lookup_empty. discriminate.
Qed.

Lemma buildProjectMap_elem (groups : list Group.t) k p :
  buildProjectMap groups !! k = Some p -> p ∈ allProjects groups.
Proof.
  rewrite buildProjectMap_fold. intros H.
  apply insertAll_elem in H as [H | H]; [|exact H].
  rewrite lookup_empty in H. discriminate.
Qed.

Lemma buildProjectMap_dom (groups : list Group.t) k :
  is_Some (buildProjectMap groups !! k) <-> k ∈ allProjectIds groups.
Proof.
  rewrite buildProjectMap_fold, insertAll_dom. unfold allProjectIds.
  split; [|auto]. intros [H | H]; [|exact H].
  rewrite lookup_empty in H. destruct H; discriminate.
Qed.

(** The matched projects carry the requested ids, in the requested order,
    without the ids that no original project has. *)
Lemma matchedProjects_ids (groups : list Group.t) (pids : list jsstring) :
  List.map Project.id (matchedProjects (buildProjectMap groups) pids)
  = filter (fun pid => pid ∈ allProjectIds groups) pids.
Proof.
  unfold matchedProjects.
  induction pids as [|pid pids IH]; [reflexivity|].
  cbn [omap list_omap]. rewrite filter_cons.
  destruct (buildProjectMap groups !! pid) as [p|] eqn:E.
  - rewrite decide_True by (apply buildProjectMap_dom; rewrite E; eauto).
    cbn [List.map]. rewrite (buildProjectMap_key _ _ _ E). f_equal. exact IH.
  - rewrite decide_False; [exact IH|].
    intros H. apply buildProjectMap_dom in H. rewrite E in H.
    destruct H; discriminate.
Qed.

Lemma matchedProjects_elem (groups : list Group.t) (pids : list jsstring) p :
  p ∈ matchedProjects (buildProjectMap groups) pids -> p ∈ allProjects groups.
Proof.
  unfold matchedProjects. rewrite list_elem_of_omap.
  intros (pid & _ & H). exact (buildProjectMap_elem _ _ _ H).
Qed.

End ProjectMap.

Section ReorderLoop.
Variable groups : list Group.t.
Variable entropy : nat -> jsstring.

Lemma findGroup_Some (gs : list Group.t) (gid : jsstring) (k : nat) :
  findGroup gs gid = Some k ->
  exists g0, gs !! k = Some g0 /\ Group.id g0 = gid.
Proof.
  revert k; induction gs as [|g gs IH]; intros k; simpl; [discriminate|].
  destruct (eqb (Group.id g) gid) eqn:E.
  - intros [= <-]. exists g. split; [reflexivity | apply eqb_eq, E].
  - destruct (findGroup gs gid) as [k'|]; [|discriminate].
    intros [= <-]. apply (IH k' eq_refl).
Qed.

(** [find] sees only the ids, which the loop never changes. *)
Lemma findGroup_take (gs objs : list Group.t) (gid : jsstring) :
  (forall k g0, gs !! k = Some g0 ->
     exists g, objs !! k = Some g /\ sameHeader g g0) ->
  findGroup (take (length gs) objs) gid = findGroup gs gid.
Proof.
  revert objs; induction gs as [|g0 gs IH]; intros objs H; [reflexivity|].
  destruct (H 0%nat g0 eq_refl) as (g & Hg & Hid & _).
  destruct objs as [|g' objs]; [discriminate|]. injection Hg as ->.
  simpl. rewrite Hid. rewrite IH; [reflexivity|].
  intros k g1 Hk. exact (H (S k) g1 Hk).
Qed.

Lemma alter_end {A} (f : A -> A) (l : list A) (x : A) :
  alter f (length l) (l ++ [x]) = l ++ [f x].
Proof. induction l as [|y l IH]; simpl; [reflexivity | f_equal; exact IH]. Qed.

Lemma sameHeader_refl (g : Group.t) : sameHeader g g.
Proof. repeat split. Qed.

Lemma sameHeader_setProjects (ps : list Project.t) (g g0 : Group.t) :
  sameHeader g g0 -> sameHeader (setProjects ps g) g0.
Proof. intros H; exact H. Qed.

Lemma lastWithId_snoc (orders : list GroupOrder.t) (o order : GroupOrder.t) (i : nat) :
  lastWithId (orders ++ [o]) i order -> lastWithId orders i order.
Proof.
  intros H j order' Hij Hj. apply (H j order' Hij).
  rewrite lookup_app_l; [exact Hj | eapply lookup_lt_Some, Hj].
Qed.

Lemma loopInv_init :
  loopInv groups entropy {| objects := groups; reorderedGroups := [] |} [].
Proof.
  split; [reflexivity|]. split; [simpl; lia|]. split.
  - intros k g0 Hk. exists g0. split; [exact Hk | apply sameHeader_refl].
  - intros i order Hi. rewrite lookup_nil in Hi. discriminate.
Qed.

Lemma loopInv_step (st : reorderState) (orders : list GroupOrder.t) (o : GroupOrder.t) :
  loopInv groups entropy st orders ->
  loopInv groups entropy
    (reorderStep (length groups) (buildProjectMap groups) entropy st o)
    (orders ++ [o]).
Proof.
  intros (Hlen & Hsize & Hcells & Hentries).
  unfold reorderStep. rewrite (findGroup_take groups (objects st) _ Hcells).
  set (ps := matchedProjects (buildProjectMap groups) (GroupOrder.projectIds o)).
  destruct (findGroup groups (GroupOrder.groupId o)) as [k|] eqn:Hfind.
  - (* the order names an existing group, the object in cell [k] *)
    destruct (findGroup_Some _ _ _ Hfind) as (g0 & Hk & Hid).
    destruct (Hcells k g0 Hk) as (g & Hg & Hhead).
    split; [cbn; rewrite !length_app, Hlen; reflexivity|].
    split; [cbn; rewrite length_alter; exact Hsize|].
    split.
    + intros k' g1 Hk'. cbn.
      destruct (Hcells k' g1 Hk') as (g' & Hg' & Hhead').
      destruct (decide (k = k')) as [<- | Hne].
      * rewrite list_lookup_alter_eq, Hg'. eexists; split; [reflexivity|].
        apply sameHeader_setProjects, Hhead'.
      * rewrite list_lookup_alter_ne by exact Hne. eauto.
    + intros i order Hi.
      destruct (decide (i < length orders)%nat) as [Hlt | Hge].
      * rewrite lookup_app_l in Hi by exact Hlt.
        destruct (Hentries i order Hi) as (loc & g' & Hloc & Hg' & Hcase).
        unfold entryDone. cbn.
        rewrite lookup_app_l by (rewrite Hlen; exact Hlt).
        destruct (decide (k = loc)) as [<- | Hne].
        -- exists k, (setProjects ps g'). split; [exact Hloc|].
           split; [rewrite list_lookup_alter_eq, Hg'; reflexivity|].
           destruct (findGroup groups (GroupOrder.groupId order)) as [k'|] eqn:Hf.
           ++ destruct Hcase as (-> & (g1 & Hk1 & Hhead1) & _).
              split; [reflexivity|]. split; [eauto using sameHeader_setProjects|].
              intros Hlast. exfalso.
              destruct (findGroup_Some _ _ _ Hf) as (g2 & Hk2 & Hid2).
              rewrite Hk in Hk2. injection Hk2 as <-.
              apply (Hlast (length orders) o Hlt).
              ** rewrite list_lookup_middle; reflexivity.
              ** congruence.
           ++ destruct Hcase as (Hle & _). exfalso.
              apply lookup_lt_Some in Hk. lia.
        -- exists loc, g'. split; [exact Hloc|].
           split; [rewrite list_lookup_alter_ne by exact Hne; exact Hg'|].
           destruct (findGroup groups (GroupOrder.groupId order)) as [k'|].
           ++ destruct Hcase as (-> & Hex & Hproj). split; [reflexivity|].
              split; [exact Hex|]. intros Hlast.
              apply Hproj, (lastWithId_snoc _ _ _ _ Hlast).
           ++ exact Hcase.
      * assert (i = length orders) as ->.
        { apply lookup_lt_Some in Hi. rewrite length_app in Hi. simpl in Hi. lia. }
        rewrite list_lookup_middle in Hi by reflexivity. injection Hi as <-.
        exists k, (setProjects ps g). cbn.
        split; [rewrite <- Hlen; apply list_lookup_middle; reflexivity|].
        split; [rewrite list_lookup_alter_eq, Hg; reflexivity|].
        rewrite Hfind. split; [reflexivity|].
        split; [eauto using sameHeader_setProjects|]. reflexivity.
  - (* the order names no existing group: a new object, in a new cell *)
    cbn. rewrite alter_end.
    split; [cbn; rewrite !length_app, Hlen; reflexivity|].
    split; [cbn; rewrite length_app; lia|].
    split.
    + intros k' g1 Hk'. cbn.
      destruct (Hcells k' g1 Hk') as (g' & Hg' & Hhead').
      exists g'. split; [|exact Hhead'].
      rewrite lookup_app_l; [exact Hg' | eapply lookup_lt_Some, Hg'].
    + intros i order Hi.
      destruct (decide (i < length orders)%nat) as [Hlt | Hge].
      * rewrite lookup_app_l in Hi by exact Hlt.
        destruct (Hentries i order Hi) as (loc & g' & Hloc & Hg' & Hcase).
        exists loc, g'. cbn.
        split; [rewrite lookup_app_l by (rewrite Hlen; exact Hlt); exact Hloc|].
        split; [rewrite lookup_app_l; [exact Hg' | eapply lookup_lt_Some, Hg']|].
        destruct (findGroup groups (GroupOrder.groupId order)) as [k'|].
        -- destruct Hcase as (-> & Hex & Hproj). split; [reflexivity|].
           split; [exact Hex|]. intros Hlast.
           apply Hproj, (lastWithId_snoc _ _ _ _ Hlast).
        -- exact Hcase.
      * assert (i = length orders) as ->.
        { apply lookup_lt_Some in Hi. rewrite length_app in Hi. simpl in Hi. lia. }
        rewrite list_lookup_middle in Hi by reflexivity. injection Hi as <-.
        eexists (length (objects st)), _. cbn.
        split; [rewrite <- Hlen; apply list_lookup_middle; reflexivity|].
        split; [apply list_lookup_middle; reflexivity|].
        rewrite Hfind. split; [exact Hsize|].
        unfold defaultGroupName. rewrite Hlen. reflexivity.
Qed.

Lemma reorderLoop_snoc (orders : list GroupOrder.t) (o : GroupOrder.t) :
  reorderLoop groups entropy (orders ++ [o])
  = reorderStep (length groups) (buildProjectMap groups) entropy
      (reorderLoop groups entropy orders) o.
Proof. unfold reorderLoop. rewrite fold_left_app. reflexivity. Qed.

Lemma reorderLoop_inv (orders : list GroupOrder.t) :
  loopInv groups entropy (reorderLoop groups entropy orders) orders.
Proof.
  induction orders as [|o orders IH] using rev_ind.
  - apply loopInv_init.
  - rewrite reorderLoop_snoc. apply loopInv_step, IH.
Qed.

End ReorderLoop.

Lemma omap_lookup_total {A B} (f : A -> option B) (l : list A) :
  (forall i x, l !! i = Some x -> is_Some (f x)) ->
  length (omap f l) = length l /\
  forall i x, l !! i = Some x -> omap f l !! i = f x.
Proof.
  induction l as [|a l IH]; intros H.
  - split; [reflexivity|]. intros i x Hi. rewrite lookup_nil in Hi. discriminate.
  - destruct (H 0%nat a eq_refl) as [b Hb].
    destruct IH as [IHlen IHget]; [intros i x Hi; exact (H (S i) x Hi)|].
    cbn [omap list_omap]. rewrite Hb. split; [simpl; f_equal; exact IHlen|].
    intros [|i] x Hi.
    + injection Hi as <-. simpl. symmetry; exact Hb.
    + simpl. apply IHget. exact Hi.
Qed.

Section ReorderClaims.
Variable groups : list Group.t.
Variable entropy : nat -> jsstring.

Lemma reorderGroups_saves (orders : list GroupOrder.t) :
  reorderGroups groups entropy (Some orders)
  = ([SaveGroups (deref (reorderLoop groups entropy orders)); ShowDashboard], Ok tt).
Proof. reflexivity. Qed.

(** Every reference pushed by the loop refers to an object, so the saved
    list has one group for each order, at the position of the order. *)
Lemma deref_entry (orders : list GroupOrder.t) :
  let st := reorderLoop groups entropy orders in
  length (deref st) = length orders /\
  forall i loc, reorderedGroups st !! i = Some loc ->
    deref st !! i = objects st !! loc /\ is_Some (objects st !! loc).
Proof.
  intros st.
  destruct (reorderLoop_inv groups entropy orders) as (Hlen & _ & _ & Hentries).
  fold st in Hlen, Hentries.
  assert (Hvalid : forall i loc, reorderedGroups st !! i = Some loc ->
                     is_Some (objects st !! loc)).
  { intros i loc Hloc.
    destruct (lookup_lt_is_Some_2 orders i) as [order Hi].
    { rewrite <- Hlen. eapply lookup_lt_Some, Hloc. }
    destruct (Hentries i order Hi) as (loc' & g & Hloc' & Hg & _).
    rewrite Hloc in Hloc'. injection Hloc' as <-. eauto. }
  destruct (omap_lookup_total (fun l => objects st !! l) (reorderedGroups st) Hvalid)
    as [Hl Hget].
  unfold deref. split; [rewrite Hl; exact Hlen|].
  intros i loc Hloc. split; [apply Hget, Hloc | eapply Hvalid, Hloc].
Qed.

(** C5, amended. The group saved for an order holds exactly the
    requested projects that exist, in the requested order, ids that no
    original project has being dropped, provided the order names no
    existing group or is the last one of the request to name its group:
    an existing group named more than once is one object, which keeps the
    projects of the last order naming it. *)
Theorem reorderGroups_project_order (orders : list GroupOrder.t) (i : nat)
    (order : GroupOrder.t) :
  orders !! i = Some order ->
  findGroup groups (GroupOrder.groupId order) = None \/ lastWithId orders i order ->
  exists saved g ps,
    reorderGroups groups entropy (Some orders)
    = ([SaveGroups saved; ShowDashboard], Ok tt) /\
    saved !! i = Some g /\
    Group.projects g = Some ps /\
    List.map Project.id ps
    = filter (fun pid => pid ∈ allProjectIds groups) (GroupOrder.projectIds order) /\
    (forall p, p ∈ ps -> p ∈ allProjects groups).
Proof.
  intros Hi Hlast.
  destruct (reorderLoop_inv groups entropy orders) as (_ & _ & _ & Hentries).
  destruct (Hentries i order Hi) as (loc & g & Hloc & Hg & Hcase).
  destruct (deref_entry orders) as [_ Hderef].
  destruct (Hderef i loc Hloc) as [Hsaved _].
  exists (deref (reorderLoop groups entropy orders)), g,
    (matchedProjects (buildProjectMap groups) (GroupOrder.projectIds order)).
  split; [apply reorderGroups_saves|].
  split; [rewrite Hsaved; exact Hg|].
  split.
  - destruct (findGroup groups (GroupOrder.groupId order)) as [k|].
    + destruct Hcase as (_ & _ & Hproj). destruct Hlast as [? | Hlast]; [discriminate|].
      apply Hproj, Hlast.
    + destruct Hcase as (_ & ->). reflexivity.
  - split; [apply matchedProjects_ids|].
    intros p. apply matchedProjects_elem.
Qed.

(** What [find] finds is the first group with the id. *)
Lemma findGroup_first (gs : list Group.t) (gid : jsstring) (k : nat) :
  findGroup gs gid = Some k ->
  forall j g, (j < k)%nat -> gs !! j = Some g -> Group.id g <> gid.
Proof.
  revert k; induction gs as [|a gs IH]; intros k; simpl; [discriminate|].
  destruct (eqb (Group.id a) gid) eqn:E.
  - intros [= <-] j g Hj. lia.
  - destruct (findGroup gs gid) as [k'|]; [|discriminate].
    intros [= <-] j g Hj Hg. destruct j as [|j].
    + injection Hg as <-. apply eqb_neq, E.
    + apply (IH k' eq_refl j g); [lia | exact Hg].
Qed.

Lemma findGroup_not_found (gs : list Group.t) (gid : jsstring) :
  findGroup gs gid = None -> forall g, g ∈ gs -> Group.id g <> gid.
Proof.
  induction gs as [|a gs IH]; simpl; intros H g Hg; [inversion Hg|].
  destruct (eqb (Group.id a) gid) eqn:E; [discriminate|].
  destruct (findGroup gs gid) as [k'|] eqn:Hrest; [discriminate|].
  apply elem_of_cons in Hg as [-> | Hg]; [apply eqb_neq, E | exact (IH eq_refl g Hg)].
Qed.

(** [find] finds the first group with the id, where there is one. *)
Lemma findGroup_finds_first (gs : list Group.t) (gid : jsstring) (k : nat)
    (g0 : Group.t) :
  gs !! k = Some g0 -> Group.id g0 = gid ->
  (forall j g, (j < k)%nat -> gs !! j = Some g -> Group.id g <> gid) ->
  findGroup gs gid = Some k.
Proof.
  intros Hk Hid Hfirst.
  destruct (findGroup gs gid) as [k'|] eqn:Hfind.
  - destruct (findGroup_Some _ _ _ Hfind) as (g1 & Hk' & Hid').
    destruct (lt_eq_lt_dec k k') as [[Hlt | ->] | Hgt]; [|reflexivity|].
    + exfalso. exact (findGroup_first _ _ _ Hfind k g0 Hlt Hk Hid).
    + exfalso. exact (Hfirst k' g1 Hgt Hk' Hid').
  - exfalso. apply (findGroup_not_found _ _ Hfind g0); [|exact Hid].
    eapply list_elem_of_lookup_2, Hk.
Qed.

(** C9. [reorderGroups] saves one group for each order of the request,
    in the order of the request.  Where a stored group has the id that
    the order names, the saved group is the first stored group with that
    id, the very object, with its id, its name and its collapsed state.
    Where no stored group has the id, the saved group is a new group
    named [Group #] and the position of the order, counted from one,
    which holds the requested projects that exist, in the requested
    order.  A stored group whose id no order names is referred to nowhere
    in the saved list. *)
Theorem reorderGroups_persists (orders : list GroupOrder.t) :
  exists saved,
    reorderGroups groups entropy (Some orders)
    = ([SaveGroups saved; ShowDashboard], Ok tt) /\
    length saved = length orders /\
    (forall i order, orders !! i = Some order ->
       exists g, saved !! i = Some g /\
         (forall k g0,
            groups !! k = Some g0 ->
            Group.id g0 = GroupOrder.groupId order ->
            (forall j g1, (j < k)%nat -> groups !! j = Some g1 ->
               Group.id g1 <> GroupOrder.groupId order) ->
            Group.id g = Group.id g0 /\
            Group.groupName g = Group.groupName g0 /\
            Group.collapsed g = Group.collapsed g0 /\
            reorderedGroups (reorderLoop groups entropy orders) !! i = Some k) /\
         ((forall g0, g0 ∈ groups -> Group.id g0 <> GroupOrder.groupId order) ->
          Group.groupName g = Some (lit "Group #" ++ toString10 (Z.of_nat (i + 1))) /\
          Group.collapsed g = None /\
          (exists ps,
             Group.projects g = Some ps /\
             List.map Project.id ps
             = filter (fun pid => pid ∈ allProjectIds groups)
                 (GroupOrder.projectIds order) /\
             forall p, p ∈ ps -> p ∈ allProjects groups) /\
          exists n,
            Group.id g
            = generateRandomId
                (Some (lit "Group #" ++ toString10 (Z.of_nat (i + 1)))) (entropy n))) /\
    (forall k g0, groups !! k = Some g0 ->
       Group.id g0 ∉ List.map GroupOrder.groupId orders ->
       k ∉ reorderedGroups (reorderLoop groups entropy orders)).
Proof.
  destruct (reorderLoop_inv groups entropy orders) as (Hlen & _ & _ & Hentries).
  destruct (deref_entry orders) as [Hdlen Hderef].
  exists (deref (reorderLoop groups entropy orders)).
  split; [apply reorderGroups_saves|]. split; [exact Hdlen|]. split.
  - intros i order Hi.
    destruct (Hentries i order Hi) as (loc & g & Hloc & Hg & Hcase).
    destruct (Hderef i loc Hloc) as [Hsaved _].
    exists g. split; [rewrite Hsaved; exact Hg|]. split.
    + intros k g0 Hk Hid Hfirst.
      rewrite (findGroup_finds_first groups _ k g0 Hk Hid Hfirst) in Hcase.
      destruct Hcase as (-> & (g0' & Hk' & Hhead) & _).
      rewrite Hk in Hk'. injection Hk' as <-.
      destruct Hhead as (H1 & H2 & H3). auto.
    + intros Hnone.
      destruct (findGroup groups (GroupOrder.groupId order)) as [k|] eqn:Hfind.
      { exfalso. destruct (findGroup_Some _ _ _ Hfind) as (g1 & Hk1 & Hid).
        apply (Hnone g1); [eapply list_elem_of_lookup_2, Hk1 | exact Hid]. }
      destruct Hcase as (_ & ->). cbn.
      split; [reflexivity|]. split; [reflexivity|]. split; [|eauto].
      eexists. split; [reflexivity|].
      split; [apply matchedProjects_ids | intros p; apply matchedProjects_elem].
  - intros k g0 Hk Hnot Hin.
    apply list_elem_of_lookup in Hin as [i Hloc].
    destruct (lookup_lt_is_Some_2 orders i) as [order Hi].
    { rewrite <- Hlen. eapply lookup_lt_Some, Hloc. }
    destruct (Hentries i order Hi) as (loc & g & Hloc' & _ & Hcase).
    rewrite Hloc in Hloc'. injection Hloc' as <-.
    destruct (findGroup groups (GroupOrder.groupId order)) as [k'|] eqn:Hfind.
    + destruct Hcase as (-> & _).
      destruct (findGroup_Some _ _ _ Hfind) as (g1 & Hk1 & Hid).
      rewrite Hk in Hk1. injection Hk1 as <-.
      apply Hnot. rewrite Hid. apply list_elem_of_fmap_2.
      eapply list_elem_of_lookup_2, Hi.
    + destruct Hcase as (Hle & _). apply lookup_lt_Some in Hk. lia.
Qed.

End ReorderClaims.

(** C5 as stated fails when a request names an existing group twice:
    both saved entries are the one object, with the projects of the second
    order, so the first entry does not follow its own order. *)
Lemma reorderGroups_repeated_group :
  ~ (forall groups entropy orders i order,
       orders !! i = Some order ->
       exists saved g ps,
         reorderGroups groups entropy (Some orders)
         = ([SaveGroups saved; ShowDashboard], Ok tt) /\
         saved !! i = Some g /\
         Group.projects g = Some ps /\
         List.map Project.id ps
         = filter (fun pid => pid ∈ allProjectIds groups) (GroupOrder.projectIds order)).
Proof.
  intros H.
  destruct (H [Sample.work] Sample.entropy Sample.repeatedOrders 0%nat _ eq_refl)
    as (saved & g & ps & Hrun & Hg & Hps & Hids).
  rewrite reorderGroups_saves in Hrun. injection Hrun as <-.
  vm_compute in Hg. injection Hg as <-.
  vm_compute in Hps. injection Hps as <-.
  vm_compute in Hids. discriminate.
Qed.

Lemma reorderGroups_project_order_witness :
  exists saved g ps,
    reorderGroups [Sample.work] Sample.entropy (Some Sample.plainOrders)
    = ([SaveGroups saved; ShowDashboard], Ok tt) /\
    saved !! 1%nat = Some g /\
    Group.projects g = Some ps /\
    List.map Project.id ps = [lit "p1"].
Proof.
  destruct (reorderGroups_project_order [Sample.work] Sample.entropy
              Sample.plainOrders 1%nat _ eq_refl (or_introl eq_refl))
    as (saved & g & ps & Hrun & Hg & Hps & Hids & _).
  exists saved, g, ps.
  split; [exact Hrun|]. split; [exact Hg|]. split; [exact Hps|]. exact Hids.
Defined.

Lemma reorderGroups_persists_witness :
  exists saved g1 g2,
    reorderGroups [Sample.work] Sample.entropy (Some Sample.plainOrders)
    = ([SaveGroups saved; ShowDashboard], Ok tt) /\
    length saved = 2%nat /\
    saved !! 0%nat = Some g1 /\
    Group.id g1 = lit "work" /\
    Group.groupName g1 = Some (lit "Work") /\
    saved !! 1%nat = Some g2 /\
    Group.groupName g2 = Some (lit "Group #2") /\
    exists ps, Group.projects g2 = Some ps /\ List.map Project.id ps = [lit "p1"].
Proof.
  destruct (reorderGroups_persists [Sample.work] Sample.entropy Sample.plainOrders)
    as (saved & Hrun & Hlen & Hsaved & _).
  destruct (Hsaved 0%nat _ eq_refl) as (g1 & Hg1 & Hold & _).
  destruct (Hold 0%nat Sample.work eq_refl eq_refl) as (Hid & Hname & _).
  { intros j g Hj. lia. }
  destruct (Hsaved 1%nat _ eq_refl) as (g2 & Hg2 & _ & Hnew).
  destruct Hnew as (Hname2 & _ & (ps & Hps & Hids & _) & _).
  { intros g0 Hin. apply list_elem_of_singleton in Hin. subst g0. discriminate. }
  exists saved, g1, g2.
  split; [exact Hrun|]. split; [exact Hlen|]. split; [exact Hg1|].
  split; [exact Hid|]. split; [exact Hname|]. split; [exact Hg2|].
  split; [exact Hname2|]. exists ps. split; [exact Hps | exact Hids].
Defined.

(** ** Editing by hand: properties of objects *)

Lemma eqb_sym (a b : jsstring) : eqb a b = eqb b a.
Proof.
  destruct (eqb a b) eqn:E; symmetry.
  - apply eqb_eq in E. subst. apply eqb_refl.
  - apply eqb_neq. apply eqb_neq in E. congruence.
Qed.

Lemma assoc_set_eq (k : jsstring) (x : value) (ps : list (jsstring * value)) :
  assoc k (assoc_set k x ps) = Some x.
Proof.
  induction ps as [|[k' v] ps IH]; simpl.
  - rewrite eqb_refl; reflexivity.
  - destruct (eqb k k') eqn:E; simpl; rewrite E; [reflexivity | exact IH].
Qed.

Lemma assoc_set_ne (k k' : jsstring) (x : value) (ps : list (jsstring * value)) :
  eqb k k' = false -> assoc k (assoc_set k' x ps) = assoc k ps.
Proof.
  intros Hne. induction ps as [|[k1 v] ps IH]; simpl.
  - rewrite Hne; reflexivity.
  - destruct (eqb k' k1) eqn:E; simpl.
    + apply eqb_eq in E. subst k1. rewrite Hne. reflexivity.
    + destruct (eqb k k1); [reflexivity | exact IH].
Qed.

Lemma assoc_remove_ne (k k' : jsstring) (ps : list (jsstring * value)) :
  eqb k k' = false -> assoc k (assoc_remove k' ps) = assoc k ps.
Proof.
  intros Hne. unfold assoc_remove.
  induction ps as [|[k1 v] ps IH]; simpl; [reflexivity|].
  destruct (eqb k' k1) eqn:E; simpl.
  - apply eqb_eq in E. subst k1. rewrite Hne. exact IH.
  - destruct (eqb k k1); [reflexivity | exact IH].
Qed.

Lemma getProp_field (g : value) (k : jsstring) :
  nullish g = false -> getProp g k = Ok (field g k).
Proof.
  intros H. unfold field. destruct g; try discriminate; simpl;
    try reflexivity; destruct (eqb k (lit "length")); reflexivity.
Qed.

Lemma field_primitive (g : value) (k : jsstring) :
  objectLike g = false -> eqb k (lit "length") = false -> field g k = VUndefined.
Proof.
  intros H Hk. unfold field. destruct g; try discriminate; simpl;
    try reflexivity. rewrite Hk. reflexivity.
Qed.

Lemma setProp_objectLike (g : value) (k : jsstring) (x : value) :
  objectLike g = true -> exists g', setProp g k x = Ok g' /\ objectLike g' = true.
Proof. destruct g; try discriminate; intros _; simpl; eauto. Qed.

Lemma field_setProp_eq (g g' : value) (k : jsstring) (x : value) :
  setProp g k x = Ok g' -> eqb k (lit "length") = false -> field g' k = x.
Proof.
  intros H Hk. destruct g; try discriminate; injection H as <-;
    unfold field; simpl; rewrite ?Hk, assoc_set_eq; reflexivity.
Qed.

Lemma field_setProp_ne (g g' : value) (k k' : jsstring) (x : value) :
  setProp g k' x = Ok g' -> eqb k k' = false -> field g' k = field g k.
Proof.
  intros H Hk. destruct g; try discriminate; injection H as <-;
    unfold field; simpl; rewrite assoc_set_ne by exact Hk; reflexivity.
Qed.

Lemma field_deleteProp_ne (g g' : value) (k k' : jsstring) :
  deleteProp g k' = Ok g' -> eqb k k' = false -> field g' k = field g k.
Proof.
  intros H Hk. destruct g; try discriminate; injection H as <-;
    unfold field; simpl; rewrite ?assoc_remove_ne by exact Hk; reflexivity.
Qed.

Lemma setProp_kind (g g' : value) (k : jsstring) (x : value) :
  setProp g k x = Ok g' -> objectLike g = true /\ objectLike g' = true.
Proof. destruct g; try discriminate; intros [= <-]; auto. Qed.

Lemma deleteProp_kind (g g' : value) (k : jsstring) :
  deleteProp g k = Ok g' ->
  objectLike g' = objectLike g /\ truthy g' = truthy g /\ nullish g' = false.
Proof. destruct g; try discriminate; intros [= <-]; auto. Qed.

Lemma objectLike_truthy (g : value) : objectLike g = true -> truthy g = true.
Proof. destruct g; try discriminate; reflexivity. Qed.

Lemma objectLike_not_nullish (g : value) : objectLike g = true -> nullish g = false.
Proof. destruct g; try discriminate; reflexivity. Qed.

Lemma faults_cases (g : value) :
  faults g = false -> objectLike g = true \/ (objectLike g = false /\ truthy g = false /\ nullish g = false).
Proof. destruct g; simpl; intros H; try discriminate; auto. Qed.

Lemma truthy_field_objectLike (g : value) (k : jsstring) :
  eqb k (lit "length") = false -> truthy (field g k) = true -> objectLike g = true.
Proof.
  intros Hk H. destruct (objectLike g) eqn:E; [reflexivity|].
  rewrite (field_primitive g k E Hk) in H. discriminate.
Qed.

Lemma truthy_not_nullish (v : value) : truthy v = true -> nullish v = false.
Proof. destruct v; simpl; congruence. Qed.

Lemma faults_not_nullish (g : value) : faults g = false -> nullish g = false.
Proof. destruct g; simpl; congruence. Qed.

Lemma objectLike_not_faults (g : value) : objectLike g = true -> faults g = false.
Proof. destruct g; simpl; congruence. Qed.

(** ** Editing by hand: the steps of the validation *)

(** Runs the binds whose first computation is known. *)
Ltac run_bind := unfold mbind, result_bind, bind; cbv beta iota.

(** The repair of a legacy name, on an entry on which it does not raise. *)
Lemma legacyName_spec (g : value) :
  faults g = false ->
  exists g1,
    legacyName g = Ok g1 /\
    faults g1 = false /\
    objectLike g1 = objectLike g /\
    truthy g1 = truthy g /\
    field g1 (lit "id") = field g (lit "id") /\
    field g1 (lit "projects") = field g (lit "projects") /\
    nullish (field g1 (lit "groupName"))
    = nullish (field g (lit "groupName")) && negb (truthy (field g (lit "name"))).
Proof.
  intros Hf. pose proof (faults_not_nullish g Hf) as Hn.
  unfold legacyName. rewrite ?(getProp_field g) by exact Hn.
  run_bind.
  destruct (truthy (field g (lit "name"))) eqn:Hname.
  - rewrite ?(getProp_field g) by exact Hn.
    destruct (truthy (field g (lit "groupName"))) eqn:Hgn; cbn [negb].
    + exists g. split; [reflexivity|]. split; [exact Hf|].
      do 4 (split; [reflexivity|]).
      rewrite (truthy_not_nullish _ Hgn). reflexivity.
    + pose proof (truthy_field_objectLike g (lit "name") eq_refl Hname) as Hobj.
      destruct (setProp_objectLike g (lit "groupName") (field g (lit "name")) Hobj)
        as (g2 & Hset & Hobj2).
      rewrite Hset.
      assert (Hdel : exists g3, deleteProp g2 (lit "name") = Ok g3).
      { destruct g2; try discriminate; simpl; eauto. }
      destruct Hdel as (g3 & Hdel). rewrite Hdel.
      destruct (deleteProp_kind _ _ _ Hdel) as (Hk3 & Ht3 & _).
      exists g3. split; [reflexivity|].
      split; [apply objectLike_not_faults; congruence|].
      split; [congruence|].
      split; [rewrite Ht3, (objectLike_truthy g Hobj), (objectLike_truthy g2 Hobj2);
              reflexivity|].
      split.
      { rewrite (field_deleteProp_ne _ _ (lit "id") _ Hdel eq_refl).
        apply (field_setProp_ne _ _ (lit "id") _ _ Hset eq_refl). }
      split.
      { rewrite (field_deleteProp_ne _ _ (lit "projects") _ Hdel eq_refl).
        apply (field_setProp_ne _ _ (lit "projects") _ _ Hset eq_refl). }
      rewrite (field_deleteProp_ne _ _ (lit "groupName") _ Hdel eq_refl).
      rewrite (field_setProp_eq _ _ _ _ Hset eq_refl).
      rewrite (truthy_not_nullish _ Hname), andb_false_r. reflexivity.
  - exists g. split; [reflexivity|]. split; [exact Hf|].
    do 4 (split; [reflexivity|]).
    cbn [negb]. rewrite andb_true_r. reflexivity.
Qed.

Lemma legacyFixed_spec (g g1 : value) : legacyName g = Ok g1 -> legacyFixed g = g1.
Proof. unfold legacyFixed. intros ->. reflexivity. Qed.

Lemma isEmptyUnnamed_spec (g : value) :
  faults g = false ->
  isEmptyUnnamed g
  = Ok (truthy g
        && nullish (field g (lit "groupName"))
        && (nullish (field g (lit "projects"))
            || negb (truthy (field (field g (lit "projects")) (lit "length"))))).
Proof.
  intros Hf. pose proof (faults_not_nullish g Hf) as Hn.
  unfold isEmptyUnnamed. destruct (truthy g); [|reflexivity].
  rewrite ?(getProp_field g) by exact Hn. run_bind.
  destruct (nullish (field g (lit "groupName"))); [|reflexivity].
  rewrite ?(getProp_field g) by exact Hn.
  destruct (nullish (field g (lit "projects"))) eqn:Hps; [reflexivity|].
  rewrite (getProp_field _ _ Hps). reflexivity.
Qed.

Lemma isMalformedGroup_spec (g : value) :
  faults g = false ->
  isMalformedGroup g
  = Ok (negb (truthy g
              && truthy (field g (lit "id"))
              && negb (nullish (field g (lit "groupName")))
              && truthy (field g (lit "projects"))
              && isArray (field g (lit "projects")))).
Proof.
  intros Hf. pose proof (faults_not_nullish g Hf) as Hn.
  unfold isMalformedGroup. destruct (truthy g); [|reflexivity]. cbn [negb andb].
  rewrite ?(getProp_field g) by exact Hn. run_bind.
  destruct (truthy (field g (lit "id"))); [|reflexivity]. cbn [negb andb].
  rewrite ?(getProp_field g) by exact Hn.
  destruct (nullish (field g (lit "groupName"))); [reflexivity|]. cbn [negb andb].
  rewrite ?(getProp_field g) by exact Hn.
  destruct (truthy (field g (lit "projects"))); reflexivity.
Qed.

Lemma isMalformedProject_spec (p : value) :
  isMalformedProject p = Ok (negb (wellFormedProject p)).
Proof.
  unfold isMalformedProject, wellFormedProject.
  destruct (truthy p) eqn:Ht; cbn [negb].
  - pose proof (truthy_not_nullish p Ht) as Hn.
    rewrite ?(getProp_field p) by exact Hn. run_bind.
    destruct (truthy (field p (lit "id"))); [|reflexivity]. cbn [negb andb].
    rewrite ?(getProp_field p) by exact Hn.
    destruct (truthy (field p (lit "name"))); [|reflexivity]. cbn [negb andb].
    rewrite ?(getProp_field p) by exact Hn. reflexivity.
  - assert (Hobj : objectLike p = false)
      by (destruct p; try discriminate; reflexivity).
    assert (Hid : field p (lit "id") = VUndefined).
    { destruct p; try discriminate; reflexivity. }
    rewrite Hid. reflexivity.
Qed.

Lemma checkProjects_spec (elems : list value) :
  exists elems',
    checkProjects elems = Ok (negb (forallb wellFormedProject elems), elems').
Proof.
  induction elems as [|p rest (rest' & IH)]; [exists []; reflexivity|].
  cbn [checkProjects forallb]. rewrite isMalformedProject_spec.
  run_bind.
  destruct (wellFormedProject p) eqn:Hwf; cbn [negb andb]; [|eauto].
  assert (Hobj : objectLike p = true).
  { unfold wellFormedProject in Hwf.
    apply andb_true_iff in Hwf as [Hwf _]. apply andb_true_iff in Hwf as [Hid _].
    exact (truthy_field_objectLike p (lit "id") eq_refl Hid). }
  assert (Hdel : exists p', deleteProp p (lit "imageFileName") = Ok p')
    by (destruct p; try discriminate; simpl; eauto).
  destruct Hdel as (p' & ->). rewrite IH. cbn [fst snd]. eauto.
Qed.

(** The body of the loop, on an entry on which it does not raise. *)
Lemma checkGroup_spec (g : value) :
  faults g = false ->
  exists v g',
    checkGroup g = Ok (v, g') /\ nullish g' = false /\
    ((v = Removed /\ isEmptyUnnamedGroup g = true /\ markedDeleted g' = true) \/
     (v = Malformed /\ flagged g = true) \/
     (v = Checked (flagged g) /\ isEmptyUnnamedGroup g = false /\
      namedWithId g' = true)).
Proof.
  intros Hf.
  destruct (legacyName_spec g Hf)
    as (g1 & Hlegacy & Hf1 & Hobj1 & Ht1 & Hid1 & Hps1 & Hgn1).
  pose proof (legacyFixed_spec g g1 Hlegacy) as Hfixed.
  assert (Hempty :
    truthy g1 && nullish (field g1 (lit "groupName"))
    && (nullish (field g1 (lit "projects"))
        || negb (truthy (field (field g1 (lit "projects")) (lit "length"))))
    = isEmptyUnnamedGroup g).
  { unfold isEmptyUnnamedGroup. rewrite Ht1, Hgn1, Hps1, !andb_assoc. reflexivity. }
  unfold checkGroup. rewrite Hlegacy. run_bind.
  rewrite (isEmptyUnnamed_spec g1 Hf1), Hempty.
  unfold flagged. rewrite Hfixed.
  destruct (isEmptyUnnamedGroup g) eqn:He.
  - (* marked for removal *)
    assert (Hobj : objectLike g1 = true).
    { destruct (faults_cases g1 Hf1) as [H | (_ & H & _)]; [exact H|].
      unfold isEmptyUnnamedGroup in He. rewrite <- Ht1, H in He. discriminate. }
    destruct (setProp_objectLike g1 (lit "_delete") (VBool true) Hobj)
      as (g' & Hset & Hobj').
    rewrite Hset. exists Removed, g'.
    split; [reflexivity|]. split; [apply objectLike_not_nullish, Hobj'|].
    left. split; [reflexivity|]. split; [reflexivity|].
    unfold markedDeleted. rewrite (field_setProp_eq _ _ _ _ Hset eq_refl). reflexivity.
  - rewrite (isMalformedGroup_spec g1 Hf1). cbn [negb andb].
    destruct (truthy g1 && truthy (field g1 (lit "id"))
              && negb (nullish (field g1 (lit "groupName")))
              && truthy (field g1 (lit "projects"))
              && isArray (field g1 (lit "projects"))) eqn:Hhead; cbn [negb].
    + (* the header is in order: the projects are gone through *)
      repeat rewrite andb_true_iff in Hhead.
      destruct Hhead as ((((_ & Hid) & Hgn) & _) & Harr).
      pose proof (truthy_field_objectLike g1 (lit "id") eq_refl Hid) as Hobj.
      rewrite (getProp_field g1 _ (objectLike_not_nullish g1 Hobj)).
      destruct (field g1 (lit "projects")) as [| | | | |elems extra|] eqn:Hps;
        try discriminate.
      destruct (checkProjects_spec elems) as (elems' & Hcheck).
      rewrite Hcheck. cbn [fst snd].
      destruct (setProp_objectLike g1 (lit "projects") (VArray elems' extra) Hobj)
        as (g' & Hset & Hobj').
      rewrite Hset. exists (Checked (negb (forallb wellFormedProject elems))), g'.
      split; [reflexivity|]. split; [apply objectLike_not_nullish, Hobj'|].
      right; right.
      assert (Hwf : wellFormedGroup g1 = forallb wellFormedProject elems).
      { unfold wellFormedGroup. rewrite Hid, Hgn, Hps. reflexivity. }
      rewrite Hwf. split; [reflexivity|]. split; [reflexivity|].
      unfold namedWithId.
      rewrite (field_setProp_ne _ _ (lit "groupName") _ _ Hset eq_refl).
      rewrite (field_setProp_ne _ _ (lit "id") _ _ Hset eq_refl).
      rewrite Hgn, Hid. reflexivity.
    + (* the header is malformed *)
      exists Malformed, g1.
      split; [reflexivity|]. split; [apply faults_not_nullish, Hf1|].
      right; left. split; [reflexivity|].
      destruct (wellFormedGroup g1) eqn:Hwf; [|reflexivity]. exfalso.
      unfold wellFormedGroup in Hwf. repeat rewrite andb_true_iff in Hwf.
      destruct Hwf as ((Hid & Hgn) & Hps).
      pose proof (truthy_field_objectLike g1 (lit "id") eq_refl Hid) as Hobj.
      rewrite (objectLike_truthy g1 Hobj), Hid, Hgn in Hhead.
      destruct (field g1 (lit "projects")); try discriminate.
Qed.

(** On [null], and on a primitive that is truthy, the body raises. *)
Lemma checkGroup_faults (g : value) :
  faults g = true -> checkGroup g = Throw TypeError.
Proof.
  destruct g as [| |b|z|s|elems extra|props]; simpl; try discriminate;
    try reflexivity.
  - intros ->. reflexivity.
  - destruct z; [discriminate | reflexivity | reflexivity].
  - destruct s; [discriminate | reflexivity].
Qed.

(** ** Editing by hand: the loop and the listener *)

(** The loop over entries on which the body does not raise:
    [jsonIsInvalid] ends up set exactly when it was set or some entry is
    flagged. *)
Lemma checkGroups_spec (gs : list value) :
  Forall (fun g => faults g = false) gs ->
  forall inv, exists gs',
    checkGroups inv gs = Ok (inv || existsb flagged gs, gs') /\
    Forall (fun g' => nullish g' = false) gs'.
Proof.
  induction 1 as [|g rest Hg Hrest IH]; intros inv.
  - exists []. cbn. rewrite orb_false_r. split; [reflexivity | constructor].
  - destruct (checkGroup_spec g Hg) as (v & g' & Hstep & Hn & Hcase).
    cbn [checkGroups existsb]. rewrite Hstep. run_bind. cbn [fst snd].
    destruct Hcase as [(-> & He & _) | [(-> & Hflag) | (-> & He & _)]].
    + destruct (IH inv) as (rest' & Hloop & Hnn). rewrite Hloop. cbn [fst snd].
      assert (Hflag : flagged g = false) by (unfold flagged; rewrite He; reflexivity).
      exists (g' :: rest'). split; [|constructor; assumption].
      rewrite Hflag. reflexivity.
    + exists (g' :: rest). rewrite Hflag, orb_true_r.
      split; [reflexivity|]. constructor; [exact Hn|].
      eapply Forall_impl; [exact Hrest|]. intros x. apply faults_not_nullish.
    + destruct (IH (inv || flagged g)) as (rest' & Hloop & Hnn).
      rewrite Hloop. cbn [fst snd].
      exists (g' :: rest'). split; [|constructor; assumption].
      rewrite orb_assoc. reflexivity.
Qed.

(** Whatever the entries, the groups of a document that passed are
    marked for removal or have a name and an id. *)
Lemma checkGroups_passed (gs : list value) :
  forall inv gs',
    checkGroups inv gs = Ok (false, gs') ->
    Forall (fun g' => nullish g' = false /\
                      (markedDeleted g' = true \/ namedWithId g' = true)) gs'.
Proof.
  induction gs as [|g rest IH]; intros inv gs'.
  - cbn. intros [= _ <-]. constructor.
  - cbn [checkGroups]. destruct (faults g) eqn:Hf.
    { rewrite (checkGroup_faults g Hf). discriminate. }
    destruct (checkGroup_spec g Hf) as (v & g' & Hstep & Hn & Hcase).
    rewrite Hstep. run_bind. cbn [fst snd].
    destruct Hcase as [(-> & _ & Hdel) | [(-> & _) | (-> & _ & Hnamed)]].
    + destruct (checkGroups inv rest) as [[b rest']|e] eqn:Hloop; [|discriminate].
      cbn [fst snd]. intros [= -> <-]. constructor; [auto|]. exact (IH _ _ Hloop).
    + discriminate.
    + destruct (checkGroups (inv || flagged g) rest) as [[b rest']|e] eqn:Hloop;
        [|discriminate].
      cbn [fst snd]. intros [= -> <-]. constructor; [auto|]. exact (IH _ _ Hloop).
Qed.

Lemma filterDeleted_spec (gs : list value) :
  Forall (fun g => nullish g = false) gs ->
  exists kept,
    filterDeleted gs = Ok kept /\
    forall h, h ∈ kept -> h ∈ gs /\ markedDeleted h = false.
Proof.
  induction 1 as [|g rest Hg _ (kept & IH & Hkept)].
  - exists []. split; [reflexivity|]. intros h Hh. inversion Hh.
  - cbn [filterDeleted]. rewrite (getProp_field g _ Hg), IH. run_bind.
    destruct (truthy (field g (lit "_delete"))) eqn:Hd.
    + exists kept. split; [reflexivity|].
      intros h Hh. destruct (Hkept h Hh). split; [right|]; assumption.
    + exists (g :: kept). split; [reflexivity|].
      intros h Hh. apply elem_of_cons in Hh as [-> | Hh].
      * split; [left | exact Hd].
      * destruct (Hkept h Hh). split; [right|]; assumption.
Qed.

(** What follows the save: the calls made, whatever showing and closing
    the editor do. *)
Lemma closing_returns (showing closing : result unit) :
  exists tr,
    (call DisposeSubscriptions;;
     io_try_catch
       (call ShowTextDocument;; lift showing;;
        call CloseActiveEditor;; lift closing)
       (fun _ =>
          call (ShowErrorMessage
                  (lit "Could not close the edited Projects File. Please close manually.")));;
     call ShowDashboard : io (host_call value) unit)
    = (DisposeSubscriptions :: tr, Ok tt) /\
    existsb isSaveGroups tr = false.
Proof.
  destruct showing as [[]|e1]; [destruct closing as [[]|e2]|];
    eexists; split; reflexivity.
Qed.

Lemma validate_spec (gs : list value) (extra : list (jsstring * value)) :
  Forall (fun g => faults g = false) gs ->
  exists gs',
    validate (VArray gs extra) = Ok (existsb flagged gs, VArray gs' extra) /\
    checkGroups false gs = Ok (existsb flagged gs, gs') /\
    Forall (fun g' => nullish g' = false) gs'.
Proof.
  intros Hgs. destruct (checkGroups_spec gs Hgs false) as (gs' & Hloop & Hnn).
  cbn [orb] in Hloop. exists gs'. split; [|split; assumption].
  unfold validate. rewrite Hloop. reflexivity.
Qed.

(** A flagged document: the error message, and nothing else. *)
Lemma saveParsed_rejects (gs : list value) (extra : list (jsstring * value))
    (showing closing : result unit) :
  Forall (fun g => faults g = false) gs ->
  existsb flagged gs = true ->
  saveParsed (VArray gs extra) showing closing
  = ([ShowErrorMessage schemaErrorMessage], Ok tt).
Proof.
  intros Hgs Hflag.
  destruct (validate_spec gs extra Hgs) as (gs' & Hvalidate & _).
  unfold saveParsed. rewrite Hvalidate, io_bind_lift_ok. cbn [fst snd].
  rewrite Hflag. reflexivity.
Qed.

(** A document without flagged entry: the groups not marked for removal
    are saved, and no schema error is shown. *)
Lemma saveParsed_accepts (gs : list value) (extra : list (jsstring * value))
    (showing closing : result unit) :
  Forall (fun g => faults g = false) gs ->
  existsb flagged gs = false ->
  exists kept tr,
    saveParsed (VArray gs extra) showing closing
    = (SaveGroups kept :: DisposeSubscriptions :: tr, Ok tt) /\
    Forall (fun h => namedWithId h = true) kept.
Proof.
  intros Hgs Hflag.
  destruct (validate_spec gs extra Hgs) as (gs' & Hvalidate & Hloop & Hnn).
  pose proof Hloop as Hpassed. rewrite Hflag in Hpassed.
  apply checkGroups_passed in Hpassed.
  destruct (filterDeleted_spec gs' Hnn) as (kept & Hfilter & Hkept).
  destruct (closing_returns showing closing) as (tr & Htail & _).
  exists kept, tr. split.
  - unfold saveParsed. rewrite Hvalidate, io_bind_lift_ok. cbn [fst snd].
    rewrite Hflag, Hfilter, io_bind_lift_ok, io_bind_call.
    cbv beta. rewrite Htail. reflexivity.
  - apply Forall_forall. intros h Hh. destruct (Hkept h Hh) as [Hin Hdel].
    rewrite Forall_forall in Hpassed. destruct (Hpassed h Hin) as [_ [H | H]];
      [congruence | exact H].
Qed.

(** ** Editing by hand: which entries are flagged *)

Lemma flagged_missing_id (g : value) :
  faults g = false ->
  truthy (field g (lit "id")) = false ->
  isEmptyUnnamedGroup g = false ->
  flagged g = true.
Proof.
  intros Hf Hid He.
  destruct (legacyName_spec g Hf) as (g1 & Hlegacy & _ & _ & _ & Hid1 & _).
  unfold flagged. rewrite He, (legacyFixed_spec g g1 Hlegacy).
  unfold wellFormedGroup. rewrite Hid1, Hid. reflexivity.
Qed.

Lemma forallb_elem_false {A} (f : A -> bool) (l : list A) (x : A) :
  x ∈ l -> f x = false -> forallb f l = false.
Proof.
  intros Hin Hx. destruct (forallb f l) eqn:E; [|reflexivity].
  rewrite forallb_forall in E. apply list_elem_of_In in Hin.
  rewrite (E x Hin) in Hx. discriminate.
Qed.

Lemma existsb_elem_true {A} (f : A -> bool) (l : list A) (x : A) :
  x ∈ l -> f x = true -> existsb f l = true.
Proof.
  intros Hin Hx. apply existsb_exists. exists x.
  split; [apply list_elem_of_In, Hin | exact Hx].
Qed.

Lemma flagged_bad_project (g p : value) (ps : list value)
    (extra : list (jsstring * value)) :
  faults g = false ->
  field g (lit "projects") = VArray ps extra ->
  p ∈ ps ->
  wellFormedProject p = false ->
  flagged g = true.
Proof.
  intros Hf Hps Hin Hp.
  destruct (legacyName_spec g Hf) as (g1 & Hlegacy & _ & _ & _ & _ & Hps1 & _).
  unfold flagged. rewrite (legacyFixed_spec g g1 Hlegacy).
  assert (He : isEmptyUnnamedGroup g = false).
  { unfold isEmptyUnnamedGroup. rewrite Hps. cbn [nullish orb].
    assert (Hlen : truthy (field (VArray ps extra) (lit "length")) = true).
    { destruct ps; [inversion Hin | reflexivity]. }
    rewrite Hlen. cbn [negb]. apply andb_false_r. }
  rewrite He. unfold wellFormedGroup. rewrite Hps1, Hps.
  rewrite (forallb_elem_false _ _ _ Hin Hp), andb_false_r. reflexivity.
Qed.

Lemma wellFormed_not_flagged (g : value) :
  wellFormedGroup g = true -> faults g = false /\ flagged g = false.
Proof.
  intros Hwf. pose proof Hwf as Hwf'.
  unfold wellFormedGroup in Hwf'. repeat rewrite andb_true_iff in Hwf'.
  destruct Hwf' as ((Hid & Hgn) & Hps).
  pose proof (truthy_field_objectLike g (lit "id") eq_refl Hid) as Hobj.
  pose proof (objectLike_not_faults g Hobj) as Hf.
  split; [exact Hf|].
  destruct (legacyName_spec g Hf) as (g1 & Hlegacy & _ & _ & _ & Hid1 & Hps1 & Hgn1).
  unfold flagged. rewrite (legacyFixed_spec g g1 Hlegacy).
  assert (Hwf1 : wellFormedGroup g1 = true).
  { unfold wellFormedGroup. rewrite Hid1, Hid, Hgn1, Hps1.
    apply negb_true_iff in Hgn. rewrite Hgn. exact Hps. }
  rewrite Hwf1. apply andb_false_r.
Qed.

Lemma wellFormed_document (gs : list value) :
  forallb wellFormedGroup gs = true ->
  Forall (fun g => faults g = false) gs /\ existsb flagged gs = false.
Proof.
  induction gs as [|g gs IH]; cbn [forallb existsb]; [split; [constructor | reflexivity]|].
  rewrite andb_true_iff. intros [Hg Hgs].
  destruct (wellFormed_not_flagged g Hg) as [Hf Hflag]. destruct (IH Hgs) as [Hfs Hflags].
  split; [constructor; assumption|]. rewrite Hflag, Hflags. reflexivity.
Qed.

(** C6, amended. On a document whose entries are objects (or arrays, or
    falsy primitives), validation rejects, with the schema message and
    without saving: a group without id, unless it is an unnamed group
    without projects, which is removed instead; and a group with a project
    that lacks its id, its name or its path. It accepts an array of groups
    that each have an id, a group name and an array of projects with id,
    name and path: the groups are saved. *)
Theorem manual_edit_validation (gs : list value) (extra : list (jsstring * value))
    (showing closing : result unit) :
  Forall (fun g => faults g = false) gs ->
  (forall g, g ∈ gs ->
     truthy (field g (lit "id")) = false ->
     isEmptyUnnamedGroup g = false ->
     saveParsed (VArray gs extra) showing closing
     = ([ShowErrorMessage schemaErrorMessage], Ok tt)) /\
  (forall g ps ex p, g ∈ gs ->
     field g (lit "projects") = VArray ps ex ->
     p ∈ ps ->
     wellFormedProject p = false ->
     saveParsed (VArray gs extra) showing closing
     = ([ShowErrorMessage schemaErrorMessage], Ok tt)) /\
  (forallb wellFormedGroup gs = true ->
   exists kept tr,
     saveParsed (VArray gs extra) showing closing
     = (SaveGroups kept :: DisposeSubscriptions :: tr, Ok tt)).
Proof.
  intros Hgs. split; [|split].
  - intros g Hin Hid He. apply (saveParsed_rejects gs extra showing closing Hgs).
    apply (existsb_elem_true _ _ g Hin).
    rewrite Forall_forall in Hgs. apply flagged_missing_id; auto.
  - intros g ps ex p Hin Hps Hp Hbad.
    apply (saveParsed_rejects gs extra showing closing Hgs).
    apply (existsb_elem_true _ _ g Hin).
    rewrite Forall_forall in Hgs. eapply flagged_bad_project; eauto.
  - intros Hwf. destruct (wellFormed_document gs Hwf) as [_ Hflag].
    destruct (saveParsed_accepts gs extra showing closing Hgs Hflag)
      as (kept & tr & Hrun & _).
    eauto.
Qed.

(** C6 as stated fails on a document with an unnamed group without
    projects: the group has no id, and the document is saved. *)
Lemma manual_edit_accepts_group_without_id :
  ~ (forall gs extra showing closing g,
       g ∈ gs ->
       truthy (field g (lit "id")) = false ->
       existsb isSaveGroups (fst (saveParsed (VArray gs extra) showing closing))
       = false).
Proof.
  intros H.
  specialize (H [VObject [(lit "projects", VArray [] [])]] [] (Ok tt) (Ok tt)
                (VObject [(lit "projects", VArray [] [])])
                (list_elem_of_here _ _) eq_refl).
  discriminate H.
Qed.

Lemma manual_edit_validation_witness :
  saveParsed (VArray [Sample.goodGroup; Sample.noIdGroup] []) (Ok tt) (Ok tt)
  = ([ShowErrorMessage schemaErrorMessage], Ok tt).
Proof.
  assert (Hgs : Forall (fun g => faults g = false)
                  [Sample.goodGroup; Sample.noIdGroup])
    by (repeat constructor).
  destruct (manual_edit_validation [Sample.goodGroup; Sample.noIdGroup] []
              (Ok tt) (Ok tt) Hgs) as (Hid & _ & _).
  apply (Hid Sample.noIdGroup); [right; left | reflexivity | reflexivity].
Defined.

(** ** Editing by hand: when the store is written *)

Lemma validate_unfold (gs : list value) (extra : list (jsstring * value)) :
  validate (VArray gs extra)
  = match checkGroups false gs with
    | Ok r => Ok (fst r, VArray (snd r) extra)
    | Throw e => Throw e
    end.
Proof. reflexivity. Qed.

(** Unless validation passed, nothing is saved. *)
Lemma saveParsed_not_passed (doc : value) (showing closing : result unit) :
  (forall after, validate doc <> Ok (false, after)) ->
  existsb isSaveGroups (fst (saveParsed doc showing closing)) = false.
Proof.
  intros H. unfold saveParsed.
  destruct (validate doc) as [[[|] after]|e] eqn:Hv.
  - rewrite io_bind_lift_ok. reflexivity.
  - exfalso. apply (H after). reflexivity.
  - reflexivity.
Qed.

(** The groups that are saved have a group name and an id. *)
Lemma saveParsed_saved_named (doc : value) (showing closing : result unit)
    (kept : list value) :
  SaveGroups kept ∈ fst (saveParsed doc showing closing) ->
  Forall (fun h => namedWithId h = true) kept.
Proof.
  unfold saveParsed.
  destruct (validate doc) as [[[|] after]|e] eqn:Hv.
  - rewrite io_bind_lift_ok. cbn. intros H.
    apply list_elem_of_singleton in H. discriminate.
  - rewrite io_bind_lift_ok. cbn [fst snd].
    destruct doc as [| | | | |gs extra|]; try discriminate.
    rewrite validate_unfold in Hv.
    destruct (checkGroups false gs) as [[b gs']|e] eqn:Hloop; [|discriminate].
    cbn [fst snd] in Hv. injection Hv as -> <-.
    pose proof (checkGroups_passed gs false gs' Hloop) as Hpassed.
    assert (Hnn : Forall (fun g => nullish g = false) gs').
    { eapply Forall_impl; [exact Hpassed|]. intros x [Hx _]. exact Hx. }
    destruct (filterDeleted_spec gs' Hnn) as (kept' & Hfilter & Hkept).
    destruct (closing_returns showing closing) as (tr & Htail & Hnosave).
    rewrite Hfilter, io_bind_lift_ok, io_bind_call. cbv beta. rewrite Htail.
    cbn [fst]. intros H.
    apply elem_of_cons in H as [[= ->] | H].
    + apply Forall_forall. intros h Hh. destruct (Hkept h Hh) as [Hin Hdel].
      rewrite Forall_forall in Hpassed. destruct (Hpassed h Hin) as [_ [Hm | Hm]];
        [congruence | exact Hm].
    + apply elem_of_cons in H as [H | H]; [discriminate|].
      exfalso. apply list_elem_of_In in H.
      assert (Hex : existsb isSaveGroups tr = true)
        by (apply existsb_exists; exists (SaveGroups kept); split; [exact H | reflexivity]).
      congruence.
  - cbn. intros H. inversion H.
Qed.

(** An entry that is [null], or a primitive that is truthy, at the head
    of the document: the listener raises, before any message and before
    any save. *)
Lemma saveParsed_faulting_entry (g : value) (rest : list value)
    (extra : list (jsstring * value)) (showing closing : result unit) :
  faults g = true ->
  saveParsed (VArray (g :: rest) extra) showing closing = ([], Throw TypeError).
Proof.
  intros Hf. unfold saveParsed. rewrite validate_unfold.
  cbn [checkGroups]. rewrite (checkGroup_faults g Hf). reflexivity.
Qed.

Section ManualEditClaims.
Context {R : Runtime}.

(** C7, amended. When the edited document is not empty and does not
    parse, the parse message is shown; when it parses to something that
    is not an array, or to an array that holds an entry that is flagged
    (not an unnamed group without projects, and not a group with id,
    group name and well-formed projects once a legacy name is taken as
    group name), the schema message is shown; in both cases the listener
    returns without calling [saveGroups], and whatever the document
    parses to, [saveGroups] is called only after validation has passed.
    An empty document is not parsed: the listener reads the text [[]]
    in its place, and where that text parses to the empty array, the
    empty list of groups is saved. *)
Theorem manual_edit_rejection (text : jsstring) (showing closing : result unit) :
  (text <> [] ->
   (forall e, JSON_parse text = Throw e ->
      onWillSave true text showing closing
      = ([ShowErrorMessage parseErrorMessage], Ok tt)) /\
   (forall doc, JSON_parse text = Ok doc ->
      isArray doc = false ->
      onWillSave true text showing closing
      = ([ShowErrorMessage schemaErrorMessage], Ok tt)) /\
   (forall gs extra, JSON_parse text = Ok (VArray gs extra) ->
      Forall (fun g => faults g = false) gs ->
      existsb flagged gs = true ->
      onWillSave true text showing closing
      = ([ShowErrorMessage schemaErrorMessage], Ok tt)) /\
   (forall doc, JSON_parse text = Ok doc ->
      (forall after, validate doc <> Ok (false, after)) ->
      existsb isSaveGroups (fst (onWillSave true text showing closing)) = false)) /\
  (text = [] ->
   onWillSave true text showing closing
   = onWillSave true (lit "[]") showing closing /\
   (JSON_parse (lit "[]") = Ok (VArray [] []) ->
    exists tr,
      onWillSave true text showing closing
      = (SaveGroups [] :: DisposeSubscriptions :: tr, Ok tt))).
Proof.
  split.
  - intros Hne. unfold onWillSave, editedText.
    apply truthy_string in Hne. rewrite Hne.
    split; [|split; [|split]].
    + intros e ->. reflexivity.
    + intros doc -> Harr. destruct doc; try discriminate; reflexivity.
    + intros gs extra -> Hgs Hflag. apply saveParsed_rejects; assumption.
    + intros doc -> H. apply saveParsed_not_passed, H.
  - intros ->. split; [reflexivity|].
    intros Hparse. unfold onWillSave, editedText. cbn [truthy JsString.eqb negb].
    rewrite Hparse.
    destruct (closing_returns showing closing) as (tr & Htail & _).
    exists tr. unfold saveParsed.
    change (validate (VArray [] [])) with (Ok (false, VArray [] [])).
    rewrite io_bind_lift_ok. cbn [fst snd].
    change (filterDeleted []) with (Ok (@nil value)).
    rewrite io_bind_lift_ok, io_bind_call. cbv beta. rewrite Htail. reflexivity.
Qed.

End ManualEditClaims.

(** C7 as stated fails on the document [[{}]]: its group has no id, no
    group name and no projects, so the document is not well-formed, and
    yet it is saved, without any message. *)
Lemma manual_edit_saves_ill_formed :
  ~ (forall (R : Runtime) text showing closing doc,
       JSON_parse (editedText text) = Ok doc ->
       wellFormedDocument doc = false ->
       existsb isSaveGroups (fst (onWillSave true text showing closing)) = false).
Proof.
  intros H.
  specialize (H (Sample.runtime [(Sample.bareText, Sample.bareDocument)] [])
                Sample.bareText (Ok tt) (Ok tt) Sample.bareDocument
                eq_refl eq_refl).
  discriminate H.
Qed.

Lemma manual_edit_rejection_witness :
  onWillSave (R := Sample.runtime [(Sample.legacyText, VArray [Sample.legacyGroup] [])] [])
    true Sample.legacyText (Ok tt) (Ok tt)
  = ([ShowErrorMessage schemaErrorMessage], Ok tt) /\
  exists tr,
    onWillSave (R := Sample.runtime [(lit "[]", VArray [] [])] []) true [] (Ok tt) (Ok tt)
    = (SaveGroups [] :: DisposeSubscriptions :: tr, Ok tt).
Proof.
  split.
  - destruct (manual_edit_rejection
                (R := Sample.runtime [(Sample.legacyText, VArray [Sample.legacyGroup] [])] [])
                Sample.legacyText (Ok tt) (Ok tt)) as [Hfull _].
    assert (Hne : Sample.legacyText <> []) by discriminate.
    destruct (Hfull Hne) as (_ & _ & Hflag & _).
    apply (Hflag [Sample.legacyGroup] []); [reflexivity | repeat constructor | reflexivity].
  - destruct (manual_edit_rejection
                (R := Sample.runtime [(lit "[]", VArray [] [])] [])
                [] (Ok tt) (Ok tt)) as [_ Hempty].
    destruct (Hempty eq_refl) as [_ Hsave]. exact (Hsave eq_refl).
Defined.

(** ** Editing by hand: unnamed groups without projects *)

Lemma checkGroup_removed (g : value) :
  objectLike g = true ->
  isEmptyUnnamedGroup g = true ->
  exists g', checkGroup g = Ok (Removed, g') /\
             nullish g' = false /\ markedDeleted g' = true.
Proof.
  intros Hobj He.
  destruct (checkGroup_spec g (objectLike_not_faults g Hobj))
    as (v & g' & Hstep & Hn & [(-> & _ & Hdel) | [(-> & Hflag) | (-> & He' & _)]]).
  - eauto.
  - unfold flagged in Hflag. rewrite He in Hflag. discriminate.
  - congruence.
Qed.

(** A group that the body marks for removal does not change how the loop
    ends: it only adds the marked group to the groups gone through. *)
Lemma checkGroups_insert (g g' : value) (gs1 gs2 : list value) :
  checkGroup g = Ok (Removed, g') ->
  forall inv,
    match checkGroups inv (gs1 ++ gs2) with
    | Throw e => checkGroups inv (gs1 ++ g :: gs2) = Throw e
    | Ok (true, _) => exists l, checkGroups inv (gs1 ++ g :: gs2) = Ok (true, l)
    | Ok (false, l) =>
        exists l1 l2, l = l1 ++ l2 /\
          checkGroups inv (gs1 ++ g :: gs2) = Ok (false, l1 ++ g' :: l2)
    end.
Proof.
  intros Hg. induction gs1 as [|h gs1 IH]; intros inv.
  - cbn [app]. cbn [checkGroups]. rewrite Hg. run_bind. cbn [fst snd].
    destruct (checkGroups inv gs2) as [[[|] l]|e]; cbn [fst snd].
    + eauto.
    + exists [], l. split; reflexivity.
    + reflexivity.
  - cbn [app checkGroups].
    destruct (checkGroup h) as [[v h']|e]; run_bind; cbn [fst snd]; [|reflexivity].
    destruct v as [| |b].
    + specialize (IH inv).
      destruct (checkGroups inv (gs1 ++ gs2)) as [[[|] l]|e]; cbn [fst snd].
      * destruct IH as (l' & ->). cbn [fst snd]. eauto.
      * destruct IH as (l1 & l2 & -> & ->). cbn [fst snd].
        exists (h' :: l1), l2. split; reflexivity.
      * rewrite IH. reflexivity.
    + eauto.
    + specialize (IH (inv || b)).
      destruct (checkGroups (inv || b) (gs1 ++ gs2)) as [[[|] l]|e]; cbn [fst snd].
      * destruct IH as (l' & ->). cbn [fst snd]. eauto.
      * destruct IH as (l1 & l2 & -> & ->). cbn [fst snd].
        exists (h' :: l1), l2. split; reflexivity.
      * rewrite IH. reflexivity.
Qed.

Lemma filterDeleted_insert (g' : value) (l1 l2 : list value) :
  nullish g' = false ->
  markedDeleted g' = true ->
  filterDeleted (l1 ++ g' :: l2) = filterDeleted (l1 ++ l2).
Proof.
  intros Hn Hdel. induction l1 as [|h l1 IH]; cbn [app filterDeleted].
  - rewrite (getProp_field g' _ Hn). run_bind.
    unfold markedDeleted in Hdel. rewrite Hdel.
    destruct (filterDeleted l2); reflexivity.
  - rewrite IH. reflexivity.
Qed.

(** C10, amended. A group that has no group name, no legacy name
    either, and whose projects are missing or empty, changes nothing to
    what the listener does: the document with the group and the document
    without it end alike, with the same message or the same groups saved,
    even when the group has no id. And no saved group is without a group
    name. *)
Theorem empty_unnamed_group_dropped (gs1 gs2 : list value) (g : value)
    (extra : list (jsstring * value)) (showing closing : result unit) :
  objectLike g = true ->
  isEmptyUnnamedGroup g = true ->
  saveParsed (VArray (gs1 ++ g :: gs2) extra) showing closing
  = saveParsed (VArray (gs1 ++ gs2) extra) showing closing /\
  forall kept,
    SaveGroups kept ∈ fst (saveParsed (VArray (gs1 ++ g :: gs2) extra) showing closing) ->
    Forall (fun h => nullish (field h (lit "groupName")) = false) kept.
Proof.
  intros Hobj He. split.
  - destruct (checkGroup_removed g Hobj He) as (g' & Hstep & Hn & Hdel).
    pose proof (checkGroups_insert g g' gs1 gs2 Hstep false) as Hins.
    unfold saveParsed. rewrite !validate_unfold.
    destruct (checkGroups false (gs1 ++ gs2)) as [[[|] l]|e].
    + destruct Hins as (l' & ->). cbn [fst snd].
      rewrite !io_bind_lift_ok. reflexivity.
    + destruct Hins as (l1 & l2 & -> & ->). cbn [fst snd].
      rewrite !io_bind_lift_ok. cbn [fst snd].
      rewrite (filterDeleted_insert g' l1 l2 Hn Hdel). reflexivity.
    + rewrite Hins. reflexivity.
  - intros kept Hkept.
    pose proof (saveParsed_saved_named _ _ _ _ Hkept) as Hnamed.
    eapply Forall_impl; [exact Hnamed|]. intros h Hh.
    unfold namedWithId in Hh. apply andb_true_iff in Hh as [Hh _].
    apply negb_true_iff, Hh.
Qed.

(** C10 as stated fails on a group that has a legacy [name]: it has no
    group name and no projects, but the repair names it, and the group,
    having no id, makes the document be rejected. *)
Lemma legacy_named_group_rejected :
  ~ (forall gs1 gs2 g extra showing closing,
       objectLike g = true ->
       nullish (field g (lit "groupName")) = true ->
       nullish (field g (lit "projects")) = true ->
       saveParsed (VArray (gs1 ++ g :: gs2) extra) showing closing
       = saveParsed (VArray (gs1 ++ gs2) extra) showing closing).
Proof.
  intros H.
  specialize (H [] [] Sample.legacyGroup [] (Ok tt) (Ok tt) eq_refl eq_refl eq_refl).
  discriminate H.
Qed.

Lemma empty_unnamed_group_dropped_witness :
  saveParsed (VArray ([Sample.goodGroup] ++ VObject [] :: []) []) (Ok tt) (Ok tt)
  = saveParsed (VArray ([Sample.goodGroup] ++ []) []) (Ok tt) (Ok tt).
Proof.
  apply (empty_unnamed_group_dropped [Sample.goodGroup] [] (VObject []) []
           (Ok tt) (Ok tt) eq_refl eq_refl).
Defined.

(* ===================================================================== *)
(** * Further properties *)
(* ===================================================================== *)

(** ** Trimming *)

Lemma trimStart_suffix (s : jsstring) : exists w, s = w ++ trimStart s.
Proof.
  induction s as [|c s (w & IH)]; [exists []; reflexivity|].
  simpl. destruct (isWhiteSpace c).
  - exists (c :: w). simpl. f_equal. exact IH.
  - exists []. reflexivity.
Qed.

Lemma trimStart_noLeadingSpace (s : jsstring) : noLeadingSpace (trimStart s).
Proof.
  induction s as [|c s IH]; simpl; [exact I|].
  destruct (isWhiteSpace c) eqn:E; [exact IH | exact E].
Qed.

Lemma trimStart_id (s : jsstring) : noLeadingSpace s -> trimStart s = s.
Proof. destruct s as [|c s]; simpl; [reflexivity|]. intros ->. reflexivity. Qed.


(** What [trim] returns is a piece of its argument. *)
Lemma trim_infix (s : jsstring) : exists w w', s = w ++ trim s ++ w'.
Proof.
  destruct (trimStart_suffix s) as (w & Hw).
  destruct (trimStart_suffix (rev (trimStart s))) as (v & Hv).
  exists w, (rev v). unfold trim.
  rewrite <- rev_app_distr, <- Hv, rev_involutive. exact Hw.
Qed.

Lemma trim_trimmed (s : jsstring) : trimmed (trim s).
Proof.
  split.
  - pose proof (trimStart_noLeadingSpace s) as Ht.
    destruct (trimStart_suffix (rev (trimStart s))) as (v & Hv).
    assert (Hpre : trimStart s = trim s ++ rev v).
    { unfold trim. rewrite <- rev_app_distr, <- Hv, rev_involutive. reflexivity. }
    destruct (trim s) as [|c u] eqn:E; [exact I|].
    rewrite Hpre in Ht. exact Ht.
  - unfold trim. rewrite rev_involutive. apply trimStart_noLeadingSpace.
Qed.

Lemma trim_id (s : jsstring) : trimmed s -> trim s = s.
Proof.
  intros [H1 H2]. unfold trim.
  rewrite (trimStart_id s H1), (trimStart_id (rev s) H2). apply rev_involutive.
Qed.

(** ** Project names *)

Lemma stripTags_keeps_no_gt (b : bool) (s : jsstring) :
  existsb (fun c => c =? 62) s = false ->
  existsb (fun c => c =? 62) (stripTags b s) = false.
Proof.
  revert b; induction s as [|c s IH]; intros b; simpl; [reflexivity|].
  rewrite orb_false_iff. intros [Hc Hs].
  destruct b.
  - rewrite Hc. apply IH, Hs.
  - destruct ((c =? 60) && tagOpens s); [apply IH, Hs|].
    simpl. rewrite Hc. apply IH, Hs.
Qed.

Lemma stripTags_no_tag (s : jsstring) :
  hasTag (stripTags false s) = false /\ hasTag (stripTags true s) = false.
Proof.
  induction s as [|c s [IHout IHin]]; [split; reflexivity|].
  split.
  - cbn [stripTags].
    destruct ((c =? 60) && tagOpens s) eqn:Hopen; [exact IHin|].
    cbn [hasTag]. rewrite IHout, orb_false_r.
    destruct (c =? 60) eqn:Hc; [|reflexivity]. cbn [andb] in *.
    destruct s as [|d r]; [reflexivity|].
    cbn [tagOpens] in Hopen.
    destruct (d =? 62) eqn:Hd; cbn [negb andb] in Hopen.
    + (* the next character is a [>], and it is kept *)
      cbn [stripTags].
      assert (Hd60 : (d =? 60) = false).
      { apply N.eqb_eq in Hd. subst d. reflexivity. }
      rewrite Hd60. cbn [andb tagOpens]. rewrite Hd. reflexivity.
    + (* there is no [>] further on, neither in what is kept *)
      assert (Hno : existsb (fun c => c =? 62) (d :: r) = false)
        by (simpl; rewrite Hd, Hopen; reflexivity).
      pose proof (stripTags_keeps_no_gt false (d :: r) Hno) as Hkept.
      destruct (stripTags false (d :: r)) as [|e out]; [reflexivity|].
      cbn [tagOpens]. simpl in Hkept. apply orb_false_iff in Hkept as [_ Hout].
      rewrite Hout. apply andb_false_r.
  - cbn [stripTags]. destruct (c =? 62); assumption.
Qed.

Lemma tagOpens_app (r w : jsstring) :
  tagOpens r = true -> tagOpens (r ++ w) = true.
Proof.
  destruct r as [|d r]; [discriminate|]. cbn [tagOpens app].
  rewrite !andb_true_iff. intros [Hd Hr]. split; [exact Hd|].
  rewrite existsb_app, Hr. reflexivity.
Qed.

Lemma hasTag_app_l (p w : jsstring) : hasTag p = true -> hasTag (p ++ w) = true.
Proof.
  induction p as [|c p IH]; [discriminate|]. cbn [hasTag app].
  rewrite !orb_true_iff, !andb_true_iff. intros [[Hc Ho] | H].
  - left. split; [exact Hc | apply tagOpens_app, Ho].
  - right. apply IH, H.
Qed.

Lemma hasTag_app_r (p w : jsstring) : hasTag w = true -> hasTag (p ++ w) = true.
Proof.
  intros H. induction p as [|c p IH]; [exact H|].
  cbn [hasTag app]. rewrite IH. apply orb_true_r.
Qed.

Lemma hasTag_infix (w s w' : jsstring) :
  hasTag (w ++ s ++ w') = false -> hasTag s = false.
Proof.
  intros H. destruct (hasTag s) eqn:E; [|reflexivity].
  rewrite (hasTag_app_r w (s ++ w') (hasTag_app_l s w' E)) in H. discriminate.
Qed.

Lemma stripTags_id (s : jsstring) : hasTag s = false -> stripTags false s = s.
Proof.
  induction s as [|c s IH]; [reflexivity|]. cbn [hasTag stripTags].
  rewrite orb_false_iff. intros [-> Hs]. rewrite (IH Hs). reflexivity.
Qed.

(** What a sanitized name is like. *)
Lemma sanitized_clean (name : value) (s : jsstring) :
  sanitizeProjectName name = Ok s ->
  hasTag s = false /\ trimmed s.
Proof.
  unfold sanitizeProjectName.
  destruct (truthy name); cbn [negb]; [|intros [= <-]; repeat split].
  destruct name as [| | | |t| |]; try discriminate. intros [= <-].
  split; [|apply trim_trimmed].
  destruct (trim_infix (stripTags false t)) as (w & w' & Hw).
  apply (hasTag_infix w _ w'). rewrite <- Hw. apply stripTags_no_tag.
Qed.

(** X1. After [sanitizeProjectName] no markup tag is left in a name: the
    result holds no [<] followed by one or more characters other than [>]
    and then a [>]; and it neither starts nor ends with white space. *)
Theorem sanitizeProjectName_no_tag (name : value) (s : jsstring) :
  sanitizeProjectName name = Ok s ->
  hasTag s = false /\ trimmed s.
Proof. apply sanitized_clean. Qed.

Lemma sanitizeProjectName_no_tag_witness :
  sanitizeProjectName (VString (lit " <b>Site</b> <script>x</script>"))
  = Ok (lit "Site x") /\
  hasTag (lit "Site x") = false.
Proof.
  split; [reflexivity|].
  apply (sanitizeProjectName_no_tag
           (VString (lit " <b>Site</b> <script>x</script>")) (lit "Site x") eq_refl).
Defined.

(** X2. [sanitizeProjectName] is idempotent: a sanitized name is left as
    it is by a second pass; in particular a name without tag and without
    white space around it is returned unchanged. *)
Theorem sanitizeProjectName_idempotent (name : value) (s : jsstring) :
  sanitizeProjectName name = Ok s ->
  sanitizeProjectName (VString s) = Ok s.
Proof.
  intros H. destruct (sanitized_clean name s H) as [Htag Htrim].
  unfold sanitizeProjectName.
  destruct (truthy (VString s)) eqn:Ht; cbn [negb].
  - rewrite (stripTags_id s Htag), (trim_id s Htrim). reflexivity.
  - simpl in Ht. apply negb_false_iff, eqb_eq in Ht. subst. reflexivity.
Qed.

Lemma sanitizeProjectName_idempotent_witness :
  sanitizeProjectName (VString (lit "Site x")) = Ok (lit "Site x").
Proof.
  apply (sanitizeProjectName_idempotent
           (VString (lit " <b>Site</b> <script>x</script>")) (lit "Site x") eq_refl).
Defined.

(** ** Ids *)

Lemma toLowerAscii_idChar (c : N) :
  isWordChar c = true -> isIdChar (toLowerAscii c) = true.
Proof.
  unfold isWordChar, toLowerAscii, isIdChar.
  destruct (N.leb_spec 48 c), (N.leb_spec c 57), (N.leb_spec 65 c),
    (N.leb_spec c 90), (N.eqb_spec c 95), (N.leb_spec 97 c), (N.leb_spec c 122);
    cbn [andb orb]; intros Hw; try discriminate;
    repeat match goal with
      | |- context [N.leb ?a ?b] => destruct (N.leb_spec a b); try lia
      | |- context [N.eqb ?a ?b] => destruct (N.eqb_spec a b); try lia
      end; reflexivity.
Qed.

Lemma forallb_take {A} (f : A -> bool) (n : nat) (l : list A) :
  forallb f l = true -> forallb f (take n l) = true.
Proof.
  revert n; induction l as [|x l IH]; intros [|n]; simpl; try reflexivity.
  rewrite !andb_true_iff. intros [Hx Hl]. split; [exact Hx | apply IH, Hl].
Qed.

(** X3. An id made by [generateRandomId] is the random part preceded by
    at most 24 characters, all of them digits, lower-case letters or
    underscores, whatever the name it is made from; and for one name,
    different random parts give different ids. *)
Theorem generateRandomId_shape (prepend : option jsstring) (entropy : jsstring) :
  (exists pre,
     generateRandomId prepend entropy = pre ++ entropy /\
     (length pre <= 24)%nat /\
     forallb isIdChar pre = true) /\
  (forall entropy',
     generateRandomId prepend entropy = generateRandomId prepend entropy' ->
     entropy = entropy').
Proof.
  unfold generateRandomId. split.
  - eexists. split; [reflexivity|].
    destruct prepend as [p|]; [|split; [simpl; lia | reflexivity]].
    destruct (truthy (VString p)); [|split; [simpl; lia | reflexivity]].
    split; [rewrite length_take; lia|].
    apply forallb_take.
    induction p as [|c p IH]; [reflexivity|]. simpl.
    destruct (isWordChar c) eqn:Hc; [|exact IH].
    simpl. rewrite (toLowerAscii_idChar c Hc), IH. reflexivity.
  - intros entropy' H. exact (app_inv_head _ _ _ H).
Qed.

Example generateRandomId_of_name :
  generateRandomId (Some (lit "My Web-Site #1")) (lit "k3x9") = lit "mywebsite1k3x9".
Proof. reflexivity. Qed.

(** ** The last part of a path *)

Lemma afterLastSeparator_none (s : jsstring) :
  existsb isSeparator s = false -> afterLastSeparator s = None.
Proof.
  induction s as [|c s IH]; [reflexivity|]. simpl.
  rewrite orb_false_iff. intros [Hc Hs].
  destruct (isLineTerminator c); [reflexivity|]. rewrite (IH Hs), Hc. reflexivity.
Qed.

Lemma afterLastSeparator_line (s : jsstring) :
  existsb isLineTerminator s = false ->
  match afterLastSeparator s with
  | Some t => existsb isSeparator t = false
  | None => existsb isSeparator s = false
  end.
Proof.
  induction s as [|c s IH]; [reflexivity|]. simpl.
  rewrite orb_false_iff. intros [Hc Hs]. rewrite Hc. specialize (IH Hs).
  destruct (afterLastSeparator s) as [t|]; [exact IH|].
  destruct (isSeparator c); [exact IH | exact IH].
Qed.

Lemma afterLastSeparator_last (dir name : jsstring) (sep : N) :
  existsb isLineTerminator dir = false ->
  isSeparator sep = true ->
  existsb isSeparator name = false ->
  afterLastSeparator (dir ++ sep :: name) = Some name.
Proof.
  intros Hdir Hsep Hname. induction dir as [|c dir IH]; simpl.
  - assert (Hlt : isLineTerminator sep = false).
    { unfold isSeparator in Hsep. unfold isLineTerminator.
      apply orb_true_iff in Hsep as [H | H]; apply N.eqb_eq in H; subst;
        reflexivity. }
    rewrite Hlt, (afterLastSeparator_none name Hname), Hsep. reflexivity.
  - simpl in Hdir. apply orb_false_iff in Hdir as [Hc Hd].
    rewrite Hc, (IH Hd). reflexivity.
Qed.

Lemma stripOuterSeparators_infix (s : jsstring) :
  exists w w', s = w ++ stripOuterSeparators s ++ w'.
Proof.
  unfold stripOuterSeparators.
  set (s1 := match s with
             | c :: r => if isSeparator c then r else s
             | [] => []
             end).
  assert (H1 : exists w, s = w ++ s1).
  { subst s1. destruct s as [|c r]; [exists []; reflexivity|].
    destruct (isSeparator c); [exists [c] | exists []]; reflexivity. }
  clearbody s1. destruct H1 as (w & ->).
  destruct (rev s1) as [|c r] eqn:E.
  - exists w, s1. reflexivity.
  - destruct (isSeparator c).
    + exists w, [c]. f_equal.
      rewrite <- (rev_involutive s1), E. simpl. reflexivity.
    + exists w, []. rewrite app_nil_r. reflexivity.
Qed.

Lemma existsb_infix {A} (f : A -> bool) (w s w' : list A) :
  existsb f (w ++ s ++ w') = false -> existsb f s = false.
Proof.
  rewrite !existsb_app, !orb_false_iff. intros (_ & H & _). exact H.
Qed.

(** The last part of a single line holds no separator. *)
Lemma lastPart_no_separator (s : jsstring) :
  existsb isLineTerminator s = false ->
  existsb isSeparator (dropDirectories (stripOuterSeparators s)) = false.
Proof.
  intros Hs.
  destruct (stripOuterSeparators_infix s) as (w & w' & Hw).
  assert (Hline : existsb isLineTerminator (stripOuterSeparators s) = false).
  { apply (existsb_infix _ w _ w'). rewrite <- Hw. exact Hs. }
  pose proof (afterLastSeparator_line _ Hline) as H.
  unfold dropDirectories.
  destruct (afterLastSeparator (stripOuterSeparators s)); exact H.
Qed.

Lemma rev_head_not_separator (name : jsstring) :
  existsb isSeparator name = false ->
  match rev name with
  | c :: _ => isSeparator c = false
  | [] => True
  end.
Proof.
  intros H. destruct (rev name) as [|c r] eqn:E; [exact I|].
  assert (Hin : In c name) by (apply in_rev; rewrite E; left; reflexivity).
  destruct (isSeparator c) eqn:Hc; [|reflexivity].
  assert (existsb isSeparator name = true)
    by (apply existsb_exists; exists c; split; assumption).
  congruence.
Qed.

(** The last part of [dir/name] and of [dir/name/] is [name]. *)
Lemma lastPart_of_file (dir name trail : jsstring) (sep : N) :
  existsb isLineTerminator dir = false ->
  isSeparator sep = true ->
  name <> [] ->
  existsb isSeparator name = false ->
  trail = [] \/ (exists c, trail = [c] /\ isSeparator c = true) ->
  dropDirectories (stripOuterSeparators (dir ++ sep :: name ++ trail)) = name.
Proof.
  intros Hdir Hsep Hne Hname Htrail.
  (* the separator at the start, if there is one *)
  assert (H1 : exists d,
    match dir ++ sep :: name ++ trail with
    | c :: r => if isSeparator c then r else dir ++ sep :: name ++ trail
    | [] => []
    end = d ++ name ++ trail /\
    (d = [] \/ exists d', d = d' ++ [sep] /\ existsb isLineTerminator d' = false)).
  { destruct dir as [|c dir'].
    - cbn [app]. rewrite Hsep. exists []. split; [reflexivity | left; reflexivity].
    - cbn [app]. simpl in Hdir. apply orb_false_iff in Hdir as [Hc Hd].
      destruct (isSeparator c).
      + exists (dir' ++ [sep]). split; [rewrite <- app_assoc; reflexivity|].
        right. exists dir'. split; [reflexivity | exact Hd].
      + exists ((c :: dir') ++ [sep]). split; [rewrite <- !app_assoc; reflexivity|].
        right. exists (c :: dir'). split; [reflexivity|]. simpl. rewrite Hc. exact Hd. }
  destruct H1 as (d & Hs1 & Hd).
  unfold stripOuterSeparators. rewrite Hs1.
  (* the separator at the end, if there is one *)
  assert (H2 :
    match rev (d ++ name ++ trail) with
    | c :: r => if isSeparator c then rev r else d ++ name ++ trail
    | [] => []
    end = d ++ name).
  { pose proof (rev_head_not_separator name Hname) as Hlast.
    destruct Htrail as [-> | (c & -> & Hc)].
    - rewrite app_nil_r, rev_app_distr.
      destruct (rev name) as [|e r] eqn:E.
      + exfalso. apply Hne. rewrite <- (rev_involutive name), E. reflexivity.
      + cbn [app]. rewrite Hlast. reflexivity.
    - rewrite !app_assoc, rev_app_distr. cbn [rev app]. rewrite Hc.
      apply rev_involutive. }
  rewrite H2. unfold dropDirectories.
  destruct Hd as [-> | (d' & -> & Hd')].
  - cbn [app]. rewrite (afterLastSeparator_none name Hname). reflexivity.
  - rewrite <- app_assoc. cbn [app].
    rewrite (afterLastSeparator_last d' name sep Hd' Hsep Hname). reflexivity.
Qed.

Section LastPartOfPath.
Context {P : PathConstants}.

(** X4. The default name of a project: for a path that, once the remote
    prefix and a user name are taken off, reads [dir/name] or [dir/name/]
    (either separator, [dir] on one line, [name] not empty and without
    separator), [getLastPartOfPath] is [name]. *)
Theorem getLastPartOfPath_name (path dir name trail : jsstring) (sep : N) :
  path <> [] ->
  dropUserName (re_replace REMOTE_REGEX path []) = dir ++ sep :: name ++ trail ->
  existsb isLineTerminator dir = false ->
  isSeparator sep = true ->
  name <> [] ->
  existsb isSeparator name = false ->
  trail = [] \/ (exists c, trail = [c] /\ isSeparator c = true) ->
  getLastPartOfPath (Some path) = name.
Proof.
  intros Hpath Hrest Hdir Hsep Hne Hname Htrail.
  unfold getLastPartOfPath. apply truthy_string in Hpath. rewrite Hpath, Hrest.
  apply lastPart_of_file; assumption.
Qed.

(** X5. [getLastPartOfPath] of a path that is on one line, once the
    remote prefix and a user name are taken off, holds no separator. *)
Theorem getLastPartOfPath_no_separator (path : jsstring) :
  existsb isLineTerminator (dropUserName (re_replace REMOTE_REGEX path [])) = false ->
  existsb isSeparator (getLastPartOfPath (Some path)) = false.
Proof.
  intros Hline. unfold getLastPartOfPath.
  destruct (truthy (VString path)); [|reflexivity].
  apply lastPart_no_separator, Hline.
Qed.

End LastPartOfPath.

Lemma getLastPartOfPath_name_witness :
  getLastPartOfPath (P := PathSample.pathConstants)
    (Some (lit "vscode-remote://ssh-remote+me@host/srv/www/site/")) = lit "site".
Proof.
  apply (getLastPartOfPath_name (P := PathSample.pathConstants)
           (lit "vscode-remote://ssh-remote+me@host/srv/www/site/")
           (lit "host/srv/www") (lit "site") (lit "/") 47).
  - discriminate.
  - reflexivity.
  - reflexivity.
  - reflexivity.
  - discriminate.
  - reflexivity.
  - right. exists 47. split; reflexivity.
Defined.

Lemma getLastPartOfPath_no_separator_witness :
  existsb isSeparator
    (getLastPartOfPath (P := PathSample.pathConstants)
       (Some (lit "C:\Users\me\site"))) = false.
Proof.
  apply (getLastPartOfPath_no_separator (P := PathSample.pathConstants)
           (lit "C:\Users\me\site")).
  reflexivity.
Defined.

(** ** The dialogs that ask for a path *)



Section Dialogs.
Context {K : Constants} {P : PathConstants} {R : Runtime} {W : Window}.

Lemma getPathFromPicker_spec (folderProject : bool) (defaultPath : option jsstring) :
  match getPathFromPicker folderProject defaultPath with
  | inr p => trimmed p
  | inl e => e = Error USER_CANCELED
  end.
Proof.
  unfold getPathFromPicker.
  destruct (showOpenDialog _) as [[|fsPath rest]|]; try reflexivity.
  apply trim_trimmed.
Qed.

Lemma getManualPath_spec (defaultPath : option jsstring) :
  match getManualPath defaultPath with
  | inr p => trimmed p
  | inl e => e = Error USER_CANCELED
  end.
Proof.
  unfold getManualPath.
  destruct (showInputBox _) as [p|]; [|reflexivity].
  destruct (truthy (VString p)); [apply trim_trimmed | reflexivity].
Qed.

Lemma getRemotePath_spec (defaultPath : option jsstring) (remoteType : jsstring) :
  eqb remoteType (lit "SSH") || eqb remoteType (lit "DEV CONTAINER") = true ->
  match getRemotePath defaultPath remoteType with
  | inr p => trimmed p
  | inl e => e = Error USER_CANCELED
  end.
Proof.
  unfold getRemotePath. intros Ht.
  destruct (eqb remoteType (lit "SSH")).
  - destruct (showInputBox _) as [p|]; [|reflexivity].
    destruct (truthy (VString p)); [apply trim_trimmed | reflexivity].
  - simpl in Ht. rewrite Ht.
    destruct (showInputBox _) as [p|]; [|reflexivity].
    destruct (truthy (VString p)); [apply trim_trimmed | reflexivity].
Qed.

(** X6. Whatever the user picks and answers, a path that
    [queryProjectPath] returns has no white space at its start or its
    end, and the only error it raises is the one of a cancelled dialog. *)
Theorem queryProjectPath_trimmed (defaultPath : option jsstring) :
  match queryProjectPath defaultPath with
  | inr p => trimmed p /\ trim p = p
  | inl e => e = Error USER_CANCELED
  end.
Proof.
  assert (H : match queryProjectPath defaultPath with
              | inr p => trimmed p
              | inl e => e = Error USER_CANCELED
              end).
  { unfold queryProjectPath.
    destruct (showQuickPick _ _) as [pick|]; [|reflexivity].
    repeat match goal with
      | |- context [if eqb ?a ?b then _ else _] => destruct (eqb a b)
      end;
      first [ apply getPathFromPicker_spec | apply getManualPath_spec
            | apply getRemotePath_spec; reflexivity | reflexivity ]. }
  destruct (queryProjectPath defaultPath) as [e|p]; [exact H|].
  split; [exact H | apply trim_id, H].
Qed.



End Dialogs.


(** ** Opening a project *)

Section OpenProject.
Context {K : Constants} {R : Runtime}.





(** X9. Adding to the workspace is for local projects only: a project
    that is classified as an SSH, WSL or container project is opened by
    [AddToWorkspace] exactly as by the default way of opening. *)
Theorem openProject_remote_not_added (ws : Workspace) (project : value)
    (remoteType : ProjectRemoteType.t) :
  getRemoteType project = Ok remoteType ->
  remoteType <> ProjectRemoteType.None ->
  openProject ws project ProjectOpenType.AddToWorkspace
  = openProject ws project ProjectOpenType.Default.
Proof.
  intros Hrt Hremote. unfold openProject. rewrite Hrt.
  destruct remoteType; [congruence| | |]; reflexivity.
Qed.

End OpenProject.

(** A project whose name is the number 5: [addToWorkspace] raises on
    sanitizing the name, and the exception leaves [openProject]. *)
Example openProject_rejected_call :
  let project :=
    VObject [(lit "id", VString (lit "p5")); (lit "name", VNumber 5);
             (lit "path", VString (lit "/home/me/notes"))] in
  let ws :=
    {| workspaceFile := None;
       workspaceFolders := None;
       prependVscodeUrlToWslRemotes := false;
       awaited := fun c =>
         match c with
         | AddToWorkspace p uri =>
             snd (Workspaces.addToWorkspace (H := Workspaces.sampleHost) p uri)
         | _ => Ok tt
         end |} in
  openProject (K := Sample.constants) (R := Sample.runtime [] []) ws project
    ProjectOpenType.AddToWorkspace
  = ([AddToWorkspace project (Uri_file (lit "/home/me/notes"))], Throw TypeError).
Proof. reflexivity. Qed.

Lemma openProject_remote_not_added_witness :
  openProject (K := Sample.constants) (R := Sample.runtime [] []) Sample.closedWorkspace
    (Sample.project (lit "vscode-remote://ssh-remote+me@host/srv"))
    ProjectOpenType.AddToWorkspace
  = openProject (K := Sample.constants) (R := Sample.runtime [] []) Sample.closedWorkspace
      (Sample.project (lit "vscode-remote://ssh-remote+me@host/srv"))
      ProjectOpenType.Default.
Proof.
  apply (openProject_remote_not_added (K := Sample.constants)
           (R := Sample.runtime [] []) Sample.closedWorkspace
           (Sample.project (lit "vscode-remote://ssh-remote+me@host/srv"))
           ProjectRemoteType.SSH).
  - reflexivity.
  - discriminate.
Defined.

(** ** The comments of a settings file *)

Lemma indexOf_cons_None (c : N) (s pat : jsstring) :
  startsWith (c :: s) pat = false -> indexOf s pat = None ->
  indexOf (c :: s) pat = None.
Proof. intros H1 H2. cbn [indexOf]. rewrite H1, H2. reflexivity. Qed.

Lemma indexOf_cons_inv (c : N) (s pat : jsstring) :
  indexOf (c :: s) pat = None ->
  startsWith (c :: s) pat = false /\ indexOf s pat = None.
Proof.
  cbn [indexOf]. destruct (startsWith (c :: s) pat); [discriminate|].
  destruct (indexOf s pat); [discriminate|]. auto.
Qed.

Lemma indexOf_nil_None (pat : jsstring) : pat <> [] -> indexOf [] pat = None.
Proof. destruct pat; [congruence | reflexivity]. Qed.

Lemma indexOf_app_r (w s pat : jsstring) :
  indexOf (w ++ s) pat = None -> indexOf s pat = None.
Proof.
  induction w as [|c w IH]; [auto|]. cbn [app]. intros H.
  apply indexOf_cons_inv in H as [_ H]. auto.
Qed.

Lemma startsWith_app_l (s w pat : jsstring) :
  startsWith s pat = true -> startsWith (s ++ w) pat = true.
Proof.
  revert s; induction pat as [|c pat IH]; intros s; [intros _; apply startsWith_nil|].
  destruct s as [|d s]; [discriminate|]. simpl.
  rewrite !andb_true_iff. intros [-> H]. split; [reflexivity | apply IH, H].
Qed.

Lemma indexOf_app_l (s w pat : jsstring) :
  pat <> [] -> indexOf (s ++ w) pat = None -> indexOf s pat = None.
Proof.
  intros Hpat. induction s as [|c s IH]; [intros _; apply indexOf_nil_None, Hpat|].
  cbn [app]. intros H. apply indexOf_cons_inv in H as [H1 H2].
  apply indexOf_cons_None; [|apply IH, H2].
  destruct (startsWith (c :: s) pat) eqn:E; [|reflexivity].
  apply (startsWith_app_l _ w) in E. cbn [app] in E. congruence.
Qed.

Lemma includes_false (s pat : jsstring) :
  includes s pat = false <-> indexOf s pat = None.
Proof.
  unfold includes. rewrite bool_decide_eq_false.
  destruct (indexOf s pat); split; intros H; try reflexivity; try discriminate.
  - exfalso. apply H. eauto.
  - intros [x Hx]. discriminate.
Qed.

Lemma startsWith_slashes (c : N) (s : jsstring) :
  startsWith (c :: s) (lit "//")
  = (47 =? c) && match s with d :: _ => 47 =? d | [] => false end.
Proof.
  change (lit "//") with [47; 47].
  destruct s as [|d r]; cbn [startsWith]; [reflexivity|].
  rewrite startsWith_nil, andb_true_r. reflexivity.
Qed.

(** Inside a comment the next character kept, if any, ends a line. *)
Lemma stripComments_comment_head (s : jsstring) :
  match stripComments true s with
  | c :: _ => isLineTerminator c = true
  | [] => True
  end.
Proof.
  induction s as [|c s IH]; [exact I|]. simpl.
  destruct (isLineTerminator c) eqn:E; [exact E | exact IH].
Qed.

(** Outside a comment a slash that is kept first was first. *)
Lemma stripComments_code_head (s r : jsstring) :
  stripComments false s = 47 :: r -> exists s', s = 47 :: s'.
Proof.
  destruct s as [|c [|d s'']]; simpl; [discriminate| |].
  - intros [= -> _]. eauto.
  - destruct ((c =? 47) && (d =? 47)) eqn:E.
    + apply andb_true_iff in E as [Hc _]. apply N.eqb_eq in Hc. subst c. eauto.
    + intros [= -> _]. eauto.
Qed.

Lemma stripComments_code (c d : N) (s : jsstring) :
  stripComments false (c :: d :: s)
  = if (c =? 47) && (d =? 47) then stripComments true s
    else c :: stripComments false (d :: s).
Proof. reflexivity. Qed.

Lemma stripComments_no_comment (s : jsstring) :
  indexOf (stripComments true s) (lit "//") = None /\
  indexOf (stripComments false s) (lit "//") = None.
Proof.
  induction s as [|c s [IHt IHf]]; [split; reflexivity|]. split.
  - cbn [stripComments]. destruct (isLineTerminator c) eqn:E; [|exact IHt].
    apply indexOf_cons_None; [|exact IHf].
    rewrite startsWith_slashes.
    destruct (N.eqb_spec 47 c) as [<-|]; [discriminate E | reflexivity].
  - destruct s as [|d s''].
    { cbn [stripComments]. apply indexOf_cons_None; [|reflexivity].
      rewrite startsWith_slashes. apply andb_false_r. }
    rewrite stripComments_code.
    destruct ((c =? 47) && (d =? 47)) eqn:E.
    + apply andb_true_iff in E as [_ Hd]. apply N.eqb_eq in Hd. subst d.
      cbn [stripComments] in IHt. simpl isLineTerminator in IHt. exact IHt.
    + apply indexOf_cons_None; [|exact IHf].
      rewrite startsWith_slashes.
      destruct (stripComments false (d :: s'')) as [|e r] eqn:Hout;
        [apply andb_false_r|].
      destruct (N.eqb_spec 47 c) as [<-|]; [|reflexivity].
      destruct (N.eqb_spec 47 e) as [<-|]; [|reflexivity].
      apply stripComments_code_head in Hout as (s' & [= -> _]).
      discriminate E.
Qed.

Lemma stripComments_id (s : jsstring) :
  indexOf s (lit "//") = None -> stripComments false s = s.
Proof.
  induction s as [|c s IH]; [reflexivity|]. intros H.
  apply indexOf_cons_inv in H as [H1 H2].
  destruct s as [|d s'']; [reflexivity|].
  rewrite stripComments_code.
  assert (E : (c =? 47) && (d =? 47) = false).
  { rewrite startsWith_slashes, (N.eqb_sym 47 c), (N.eqb_sym 47 d) in H1.
    exact H1. }
  rewrite E, (IH H2). reflexivity.
Qed.

(** X10. The text that [getWorkspaceColor] hands to [JSON.parse], the
    settings file without its comments and trimmed, holds no pair of
    slashes; and a file without a pair of slashes is handed over as it
    is, trimmed. *)
Theorem stripComments_no_slashes (raw : jsstring) :
  includes (trim (stripComments false raw)) (lit "//") = false /\
  (includes raw (lit "//") = false ->
   trim (stripComments false raw) = trim raw).
Proof.
  split.
  - apply includes_false.
    destruct (trim_infix (stripComments false raw)) as (w & w' & Hw).
    destruct (stripComments_no_comment raw) as [_ H]. rewrite Hw in H.
    apply indexOf_app_r in H. apply indexOf_app_l in H; [exact H | discriminate].
  - intros H. apply includes_false in H. rewrite (stripComments_id raw H). reflexivity.
Qed.

(** ** The hexadecimal name of a container *)

Lemma hex_digits_inj (u v : Hexadecimal.uint) :
  hex_digits u = hex_digits v -> u = v.
Proof.
  revert v; induction u; intros v; destruct v; simpl; try discriminate;
    try reflexivity; intros [= H]; f_equal; auto.
Qed.

Lemma toString16_inj (a b : N) : toString16 a = toString16 b -> a = b.
Proof.
  unfold toString16. intros H. apply hex_digits_inj in H.
  rewrite <- (HexadecimalN.Unsigned.of_to a), <- (HexadecimalN.Unsigned.of_to b), H.
  reflexivity.
Qed.

(** A character code from 16 to 255 is written with two digits. *)
Lemma toString16_two_digits (c : N) :
  16 <= c -> c < 256 -> length (toString16 c) = 2%nat.
Proof.
  intros Hlo Hhi.
  assert (Hall : forallb (fun n => Nat.eqb (length (toString16 (N.of_nat n))) 2)
                   (seq 16 240) = true) by (vm_compute; reflexivity).
  rewrite forallb_forall in Hall.
  specialize (Hall (N.to_nat c)). rewrite N2Nat.id in Hall.
  apply Nat.eqb_eq, Hall, in_seq. lia.
Qed.

Lemma hexOfChars_cons (c : N) (t : jsstring) :
  hexOfChars (c :: t) = toString16 c ++ hexOfChars t.
Proof. reflexivity. Qed.

Lemma hexOfChars_two_digits_inj (t1 t2 : jsstring) :
  forallb twoHexDigits t1 = true ->
  forallb twoHexDigits t2 = true ->
  hexOfChars t1 = hexOfChars t2 -> t1 = t2.
Proof.
  assert (Hlen : forall c, twoHexDigits c = true -> length (toString16 c) = 2%nat).
  { intros c Hc. apply andb_true_iff in Hc as [Hlo Hhi].
    apply toString16_two_digits; [apply N.leb_le, Hlo | apply N.ltb_lt, Hhi]. }
  revert t2; induction t1 as [|c1 t1 IH]; intros [|c2 t2]; simpl forallb;
    rewrite ?andb_true_iff; intros H1 H2 H.
  - reflexivity.
  - destruct H2 as [H2 _]. apply Hlen in H2. rewrite hexOfChars_cons in H.
    destruct (toString16 c2) as [|? [|? [|]]]; discriminate.
  - destruct H1 as [H1 _]. apply Hlen in H1. rewrite hexOfChars_cons in H.
    destruct (toString16 c1) as [|? [|? [|]]]; discriminate.
  - destruct H1 as [L1 H1], H2 as [L2 H2]. apply Hlen in L1, L2.
    rewrite !hexOfChars_cons in H.
    destruct (toString16 c1) as [|a1 [|b1 [|]]] eqn:E1; try discriminate.
    destruct (toString16 c2) as [|a2 [|b2 [|]]] eqn:E2; try discriminate.
    injection H as -> -> H.
    rewrite <- E2 in E1. apply toString16_inj in E1. subst c2.
    f_equal. apply IH; assumption.
Qed.

Lemma descriptorText_two_digits (name context : jsstring) :
  forallb twoHexDigits name = true ->
  forallb twoHexDigits context = true ->
  forallb twoHexDigits (descriptorText name context) = true.
Proof.
  intros Hn Hc. unfold descriptorText.
  rewrite !forallb_app, Hn, Hc. reflexivity.
Qed.

(** X11. Container names are told apart by their hexadecimal names: for
    names and a context made of characters from 16 to 255 that JSON
    writes as they are, [getContainerHex] gives two names the same text only if
    they are the same name. *)
Theorem getContainerHex_injective (name1 name2 context : jsstring) :
  forallb isPlainChar name1 = true -> forallb twoHexDigits name1 = true ->
  forallb isPlainChar name2 = true -> forallb twoHexDigits name2 = true ->
  forallb isPlainChar context = true -> forallb twoHexDigits context = true ->
  getContainerHex (VString name1) (VString context)
  = getContainerHex (VString name2) (VString context) ->
  name1 = name2.
Proof.
  intros P1 B1 P2 B2 Pc Bc H.
  rewrite !getContainerHex_string in H.
  rewrite (quoteChars_plain name1 P1), (quoteChars_plain name2 P2),
    (quoteChars_plain context Pc) in H.
  injection H as H.
  apply hexOfChars_two_digits_inj in H;
    try (apply descriptorText_two_digits; assumption).
  unfold descriptorText in H.
  repeat (apply app_inv_head in H).
  exact (app_inv_tail _ _ _ H).
Qed.

Lemma getContainerHex_injective_witness : lit "web" = lit "web".
Proof.
  apply (getContainerHex_injective (lit "web") (lit "web") (lit "desktop-linux"));
    reflexivity.
Defined.

(** Beyond 255 the digits of two characters can read as those of other
    characters: U+2020 and two spaces. *)
Example getContainerHex_wide_characters :
  getContainerHex (VString [8224]) VUndefined
  = getContainerHex (VString (lit "  ")) VUndefined.
Proof. vm_compute. reflexivity. Qed.

(** ** Reordering: the projects as a whole *)

Lemma map_fmap {A B} (f : A -> B) (l : list A) : List.map f l = f <$> l.
Proof. induction l as [|x l IH]; [reflexivity|]. simpl. rewrite IH. reflexivity. Qed.

Lemma lookup_map {A B} (f : A -> B) (l : list A) (i : nat) :
  List.map f l !! i = f <$> (l !! i).
Proof. rewrite map_fmap. apply list_lookup_fmap. Qed.

Lemma NoDup_map_inj {A B} (f : A -> B) (l : list A) (x y : A) :
  NoDup (List.map f l) -> x ∈ l -> y ∈ l -> f x = f y -> x = y.
Proof.
  induction l as [|a l IH]; simpl; intros Hnd Hx Hy Hf; [inversion Hx|].
  apply NoDup_cons in Hnd as [Ha Hnd].
  apply elem_of_cons in Hx as [-> | Hx]; apply elem_of_cons in Hy as [-> | Hy].
  - reflexivity.
  - exfalso. apply Ha. rewrite Hf, map_fmap. apply list_elem_of_fmap_2, Hy.
  - exfalso. apply Ha. rewrite <- Hf, map_fmap. apply list_elem_of_fmap_2, Hx.
  - auto.
Qed.

(** With ids that are all different, the map built from the groups finds
    each project under its id. *)
Lemma buildProjectMap_lookup (groups : list Group.t) (p : Project.t) :
  NoDup (allProjectIds groups) -> p ∈ allProjects groups ->
  buildProjectMap groups !! Project.id p = Some p.
Proof.
  intros Hnd Hp.
  assert (Hdom : is_Some (buildProjectMap groups !! Project.id p)).
  { apply buildProjectMap_dom. unfold allProjectIds.
    rewrite map_fmap. apply list_elem_of_fmap_2, Hp. }
  destruct Hdom as (p' & Hp'). rewrite Hp'. f_equal.
  apply (NoDup_map_inj Project.id (allProjects groups)); [exact Hnd| |exact Hp|].
  - exact (buildProjectMap_elem _ _ _ Hp').
  - exact (buildProjectMap_key _ _ _ Hp').
Qed.

Lemma matchedProjects_of_ids (groups : list Group.t) (ps : list Project.t) :
  NoDup (allProjectIds groups) ->
  (forall p, p ∈ ps -> p ∈ allProjects groups) ->
  matchedProjects (buildProjectMap groups) (List.map Project.id ps) = ps.
Proof.
  intros Hnd. unfold matchedProjects.
  induction ps as [|p ps IH]; intros Hin; [reflexivity|].
  cbn [List.map omap list_omap].
  rewrite (buildProjectMap_lookup groups p Hnd) by (apply Hin; left).
  f_equal. apply IH. intros q Hq. apply Hin. right. exact Hq.
Qed.

Lemma matchedProjects_flat_map (m : gmap jsstring Project.t)
    (orders : list GroupOrder.t) :
  List.flat_map (fun o => matchedProjects m (GroupOrder.projectIds o)) orders
  = matchedProjects m (List.flat_map GroupOrder.projectIds orders).
Proof.
  unfold matchedProjects. induction orders as [|o orders IH]; [reflexivity|].
  simpl. rewrite omap_app, IH. reflexivity.
Qed.

Lemma flat_map_pointwise {A B C} (F : A -> list C) (G : B -> list C)
    (la : list A) (lb : list B) :
  length la = length lb ->
  (forall i b, lb !! i = Some b -> exists a, la !! i = Some a /\ F a = G b) ->
  List.flat_map F la = List.flat_map G lb.
Proof.
  revert lb; induction la as [|a la IH]; intros [|b lb] Hlen H; try discriminate;
    [reflexivity|].
  simpl. destruct (H 0%nat b eq_refl) as (a' & [= <-] & ->). f_equal.
  apply IH; [simpl in Hlen; lia|]. intros i b' Hb. exact (H (S i) b' Hb).
Qed.

Lemma NoDup_lastWithId (orders : list GroupOrder.t) (i : nat) (order : GroupOrder.t) :
  NoDup (List.map GroupOrder.groupId orders) ->
  orders !! i = Some order -> lastWithId orders i order.
Proof.
  intros Hnd Hi j order' Hlt Hj Heq.
  assert (i = j); [|lia].
  apply (NoDup_lookup _ i j (GroupOrder.groupId order) Hnd).
  - rewrite lookup_map, Hi. reflexivity.
  - rewrite lookup_map, Hj. simpl. rewrite Heq. reflexivity.
Qed.

(** The group saved for an order that is the last to name its group. *)
Lemma reorderLoop_saved (groups : list Group.t) (entropy : nat -> jsstring)
    (orders : list GroupOrder.t) (i : nat) (order : GroupOrder.t) :
  orders !! i = Some order ->
  lastWithId orders i order ->
  exists g,
    deref (reorderLoop groups entropy orders) !! i = Some g /\
    Group.projects g
    = Some (matchedProjects (buildProjectMap groups) (GroupOrder.projectIds order)) /\
    forall k, findGroup groups (GroupOrder.groupId order) = Some k ->
      exists g0, groups !! k = Some g0 /\ sameHeader g g0.
Proof.
  intros Hi Hlast.
  destruct (reorderLoop_inv groups entropy orders) as (_ & _ & _ & Hentries).
  destruct (Hentries i order Hi) as (loc & g & Hloc & Hg & Hcase).
  destruct (deref_entry groups entropy orders) as [_ Hderef].
  destruct (Hderef i loc Hloc) as [Hsaved _].
  exists g. split; [rewrite Hsaved; exact Hg|].
  destruct (findGroup groups (GroupOrder.groupId order)) as [k|].
  - destruct Hcase as (_ & Hhead & Hproj). split; [apply Hproj, Hlast|].
    intros k' [= <-]. exact Hhead.
  - destruct Hcase as (_ & ->). split; [reflexivity|]. intros k' [=].
Qed.

(** X12. A reordering that names no group twice and lists every project
    id once loses no project and doubles none, when all projects have
    different ids: the projects of the saved groups are the projects of
    the groups there were, in another order. *)
Theorem reorderGroups_keeps_projects (groups : list Group.t)
    (entropy : nat -> jsstring) (orders : list GroupOrder.t) :
  NoDup (List.map GroupOrder.groupId orders) ->
  NoDup (allProjectIds groups) ->
  List.flat_map GroupOrder.projectIds orders ≡ₚ allProjectIds groups ->
  exists saved,
    reorderGroups groups entropy (Some orders)
    = ([SaveGroups saved; ShowDashboard], Ok tt) /\
    allProjects saved ≡ₚ allProjects groups.
Proof.
  intros Hgroups Hids Hperm.
  exists (deref (reorderLoop groups entropy orders)).
  split; [apply reorderGroups_saves|].
  unfold allProjects at 1.
  rewrite (flat_map_pointwise _
             (fun o => matchedProjects (buildProjectMap groups) (GroupOrder.projectIds o))
             _ orders).
  - rewrite matchedProjects_flat_map. unfold matchedProjects.
    rewrite (omap_Permutation _ _ _ Hperm).
    fold (matchedProjects (buildProjectMap groups) (allProjectIds groups)).
    unfold allProjectIds. rewrite matchedProjects_of_ids; auto.
  - apply deref_entry.
  - intros i order Hi.
    destruct (reorderLoop_saved groups entropy orders i order Hi
                (NoDup_lastWithId orders i order Hgroups Hi)) as (g & Hg & Hps & _).
    exists g. split; [exact Hg|]. rewrite Hps. reflexivity.
Qed.

Lemma findGroup_NoDup (groups : list Group.t) (i : nat) (g0 : Group.t) :
  NoDup (List.map Group.id groups) -> groups !! i = Some g0 ->
  findGroup groups (Group.id g0) = Some i.
Proof.
  revert i; induction groups as [|g rest IH]; intros i Hnd Hi; [discriminate|].
  simpl in Hnd. apply NoDup_cons in Hnd as [Hg Hnd]. simpl.
  destruct i as [|i].
  - injection Hi as ->. rewrite (proj2 (eqb_eq _ _) eq_refl). reflexivity.
  - simpl in Hi. destruct (eqb (Group.id g) (Group.id g0)) eqn:E.
    + exfalso. apply Hg. apply eqb_eq in E. rewrite E, map_fmap.
      apply list_elem_of_fmap_2. eapply list_elem_of_lookup_2, Hi.
    + rewrite (IH i Hnd Hi). reflexivity.
Qed.

(** X13. Asking for the order there is changes nothing: when the groups
    have different ids and all have projects, and all projects have
    different ids, [reorderGroups] called with every group's id and the
    ids of its projects, in order, saves the groups as they are. *)
Theorem reorderGroups_same_order (groups : list Group.t) (entropy : nat -> jsstring) :
  NoDup (List.map Group.id groups) ->
  NoDup (allProjectIds groups) ->
  Forall (fun g => is_Some (Group.projects g)) groups ->
  reorderGroups groups entropy (Some (List.map orderOf groups))
  = ([SaveGroups groups; ShowDashboard], Ok tt).
Proof.
  intros Hgroups Hids Hsome.
  rewrite reorderGroups_saves. do 3 f_equal.
  set (orders := List.map orderOf groups).
  assert (Horders : NoDup (List.map GroupOrder.groupId orders)).
  { subst orders. rewrite List.map_map. exact Hgroups. }
  apply list_eq. intros i.
  destruct (groups !! i) as [g0|] eqn:Hi.
  - assert (Ho : orders !! i = Some (orderOf g0)).
    { subst orders. rewrite lookup_map, Hi. reflexivity. }
    destruct (reorderLoop_saved groups entropy orders i (orderOf g0) Ho
                (NoDup_lastWithId orders i _ Horders Ho)) as (g & Hg & Hps & Hhead).
    rewrite Hg. f_equal.
    destruct (Hhead i (findGroup_NoDup groups i g0 Hgroups Hi))
      as (g0' & Hg0' & Hid & Hname & Hcoll).
    rewrite Hi in Hg0'. injection Hg0' as <-.
    rewrite Forall_forall in Hsome.
    destruct (Hsome g0 (list_elem_of_lookup_2 _ _ _ Hi)) as (ps0 & Hps0).
    cbn [orderOf GroupOrder.projectIds] in Hps. rewrite Hps0 in Hps.
    cbn [default from_option id] in Hps.
    rewrite matchedProjects_of_ids in Hps; [|exact Hids|].
    + destruct g, g0. simpl in *. congruence.
    + intros p Hp. unfold allProjects. apply list_elem_of_In, in_flat_map.
      exists g0. split; [apply list_elem_of_In, (list_elem_of_lookup_2 _ _ _ Hi)|].
      rewrite Hps0. apply list_elem_of_In, Hp.
  - destruct (deref_entry groups entropy orders) as [Hlen _].
    apply lookup_ge_None. rewrite Hlen. subst orders. rewrite length_map.
    apply lookup_ge_None, Hi.
Qed.

Lemma reorderGroups_keeps_projects_witness :
  exists saved,
    reorderGroups [Sample.work] Sample.entropy (Some ReorderSample.movedOrders)
    = ([SaveGroups saved; ShowDashboard], Ok tt) /\
    allProjects saved ≡ₚ allProjects [Sample.work].
Proof.
  apply (reorderGroups_keeps_projects [Sample.work] Sample.entropy
           ReorderSample.movedOrders).
  - apply (bool_decide_unpack _). vm_compute. exact I.
  - apply (bool_decide_unpack _). vm_compute. exact I.
  - apply (bool_decide_unpack _). vm_compute. exact I.
Defined.

Lemma reorderGroups_same_order_witness :
  reorderGroups [Sample.work] Sample.entropy (Some (List.map orderOf [Sample.work]))
  = ([SaveGroups [Sample.work]; ShowDashboard], Ok tt).
Proof.
  apply (reorderGroups_same_order [Sample.work] Sample.entropy).
  - apply (bool_decide_unpack _). vm_compute. exact I.
  - apply (bool_decide_unpack _). vm_compute. exact I.
  - constructor; [|constructor]. eexists. reflexivity.
Defined.

(** ** The dialog that asks for a group *)

Lemma splice1_Permutation {A} (a : list A) (start : Z) :
  fst (splice1 a start) ++ snd (splice1 a start) ≡ₚ a.
Proof.
  unfold splice1. cbn [fst snd].
  set (k := Z.to_nat _).
  rewrite Permutation_app_swap_app.
  replace (drop (S k) a) with (drop 1 (drop k a))
    by (rewrite drop_drop; f_equal; lia).
  rewrite (take_drop 1 (drop k a)), (take_drop k a). reflexivity.
Qed.

Lemma orderedGroups_Permutation (groups : list Group.t) (groupId : option jsstring) :
  orderedGroups groups groupId ≡ₚ groups.
Proof.
  destruct groupId as [groupId|]; [|reflexivity]. unfold orderedGroups.
  pose proof (splice1_Permutation groups (findIndex groups groupId)) as H.
  destruct (splice1 groups (findIndex groups groupId)). exact H.
Qed.

Lemma groupPicks_ids (defaultGroupSet : bool) (groups : list Group.t) :
  List.map QuickPickItem.id (groupPicks defaultGroupSet groups)
  = List.map Group.id groups.
Proof.
  revert defaultGroupSet; induction groups as [|g groups IH]; intros b;
    [reflexivity|].
  cbn [groupPicks]. destruct (Group.groupName g) as [label|];
    [destruct (truthy (VString label))|]; cbn [List.map QuickPickItem.id];
    rewrite IH; reflexivity.
Qed.

Lemma groupPicks_labels (defaultGroupSet : bool) (groups : list Group.t) :
  Forall (fun pick => QuickPickItem.label pick <> []) (groupPicks defaultGroupSet groups).
Proof.
  revert defaultGroupSet; induction groups as [|g groups IH]; intros b;
    [constructor|].
  cbn [groupPicks]. destruct (Group.groupName g) as [label|];
    [destruct (truthy (VString label)) eqn:E|]; constructor; try apply IH;
    cbn [QuickPickItem.label]; try (destruct b; discriminate).
  apply truthy_string, E.
Qed.

(** X14. The picks that [queryGroup] shows are the groups, each once,
    whatever group id it is given, followed by the pick for a new group
    when adding is offered: their ids are the ids of the groups in some
    order, and then [Add]; and no pick has an empty label. *)
Theorem queryGroup_picks (groups : list Group.t) (groupId : option jsstring)
    (optionForAdding : bool) :
  List.map QuickPickItem.id (shownPicks groups groupId optionForAdding)
  ≡ₚ List.map Group.id groups ++ (if optionForAdding then [lit "Add"] else []) /\
  Forall (fun pick => QuickPickItem.label pick <> [])
    (shownPicks groups groupId optionForAdding).
Proof.
  unfold shownPicks. split.
  - rewrite List.map_app, groupPicks_ids, !map_fmap.
    apply Permutation_app; [|destruct optionForAdding; reflexivity].
    apply fmap_Permutation, orderedGroups_Permutation.
  - apply Forall_app. split; [apply groupPicks_labels|].
    destruct optionForAdding; repeat constructor. discriminate.
Qed.

(** X15. When a group has the id given, that group comes first in the
    picks and the other groups follow in their order. *)
Theorem queryGroup_requested_first (groups : list Group.t) (groupId : jsstring)
    (i : nat) :
  findGroup groups groupId = Some i ->
  exists group,
    groups !! i = Some group /\ Group.id group = groupId /\
    orderedGroups groups (Some groupId)
    = group :: take i groups ++ drop (S i) groups.
Proof.
  intros Hfind. destruct (findGroup_Some groups groupId i Hfind) as (g & Hg & Hid).
  exists g. split; [exact Hg|]. split; [exact Hid|].
  unfold orderedGroups, findIndex, splice1. rewrite Hfind.
  pose proof (lookup_lt_Some _ _ _ Hg) as Hlt.
  assert (Hk : Z.to_nat (if (Z.of_nat i <? 0)%Z
                         then Z.max (Z.of_nat (length groups) + Z.of_nat i) 0
                         else Z.min (Z.of_nat i) (Z.of_nat (length groups))) = i).
  { destruct (Z.ltb_spec (Z.of_nat i) 0); lia. }
  rewrite Hk.
  rewrite (drop_S groups g i Hg). reflexivity.
Qed.

(** X16. When no group has the id given, the last group comes first in
    the picks: the position -1 that [findIndex] answers is taken for a
    position, counted from the end. *)
Theorem queryGroup_unknown_id (front : list Group.t) (last : Group.t)
    (groupId : jsstring) :
  findGroup (front ++ [last]) groupId = None ->
  orderedGroups (front ++ [last]) (Some groupId) = last :: front.
Proof.
  intros Hfind. unfold orderedGroups, findIndex, splice1. rewrite Hfind.
  assert (Hk : Z.to_nat (if (-1 <? 0)%Z
                         then Z.max (Z.of_nat (length (front ++ [last])) + -1) 0
                         else Z.min (-1) (Z.of_nat (length (front ++ [last]))))
               = length front).
  { change (-1 <? 0)%Z with true. cbv iota. rewrite length_app. cbn [length]. lia. }
  rewrite Hk.
  rewrite drop_app_length, take_app_length.
  rewrite drop_ge by (rewrite length_app; cbn [length]; lia).
  simpl. rewrite app_nil_r. reflexivity.
Qed.

Section QueryGroup.
Context {P : PathConstants} {W : Window} {S : ProjectService}.

(** X17. In a window that answers a quick pick with one of the picks
    shown, the group id that [queryGroup] returns is the id of a group
    there is, or, when it reports a new group, the id of the group the
    service has just added; a new group is made only when adding was
    offered or a group has the id [Add]. *)
Theorem queryGroup_result (groupId : option jsstring) (optionForAdding : bool)
    (id : jsstring) (newlyCreated : bool) :
  (forall items placeHolder pick,
     showQuickPick items placeHolder = Some pick -> pick ∈ items) ->
  queryGroup groupId optionForAdding = inr (id, newlyCreated) ->
  if newlyCreated
  then (exists newGroupName, id = Group.id (addGroup newGroupName)) /\
       (optionForAdding = true \/ lit "Add" ∈ List.map Group.id getGroups)
  else id ∈ List.map Group.id getGroups /\ id <> lit "Add".
Proof.
  intros Hshown. unfold queryGroup.
  assert (Hadd : forall picked,
    (if eqb picked (lit "Add")
     then match showInputBox
                  {| InputBoxOptions.placeHolder := lit "New Group Name";
                     InputBoxOptions.value := None;
                     InputBoxOptions.prompt := None;
                     InputBoxOptions.validateInput :=
                       Some (fun val =>
                               if truthy (VString val) then []
                               else lit "A Group Name must be provided.") |}
          with
          | None => inl (Dialogs.Error USER_CANCELED)
          | Some newGroupName => inr (Group.id (addGroup newGroupName), true)
          end
     else inr (picked, false)) = inr (id, newlyCreated) ->
    if newlyCreated
    then picked = lit "Add" /\ exists newGroupName, id = Group.id (addGroup newGroupName)
    else picked = id /\ id <> lit "Add").
  { intros picked. destruct (eqb picked (lit "Add")) eqn:E.
    - destruct (showInputBox _) as [name|]; [|discriminate].
      intros [= <- <-]. split; [apply eqb_eq, E | eauto].
    - intros [= <- <-]. split; [reflexivity | apply eqb_neq, E]. }
  destruct (optionForAdding && Nat.eqb (length getGroups) 0) eqn:Hempty.
  - intros H. apply Hadd in H. apply andb_true_iff in Hempty as [-> _].
    destruct newlyCreated; [|destruct H; congruence].
    destruct H as [_ H]. split; [exact H | left; reflexivity].
  - destruct (showQuickPick _ _) as [pick|] eqn:Hpick; [|discriminate].
    intros H. apply Hadd in H. apply Hshown in Hpick.
    assert (Hid : QuickPickItem.id pick ∈ List.map Group.id getGroups \/
                  (optionForAdding = true /\ QuickPickItem.id pick = lit "Add")).
    { unfold shownPicks in Hpick. apply elem_of_app in Hpick as [Hpick | Hpick].
      - left.
        assert (H1 : QuickPickItem.id pick
                     ∈ List.map Group.id (orderedGroups getGroups groupId)).
        { rewrite <- (groupPicks_ids false), map_fmap.
          apply list_elem_of_fmap_2, Hpick. }
        rewrite map_fmap in H1 |- *.
        rewrite (orderedGroups_Permutation getGroups groupId) in H1. exact H1.
      - right. destruct optionForAdding; [|inversion Hpick].
        apply list_elem_of_singleton in Hpick. subst pick. auto. }
    destruct newlyCreated.
    + destruct H as [Hpicked H]. split; [exact H|].
      destruct Hid as [Hid | [Hopt _]]; [right | left; exact Hopt].
      rewrite <- Hpicked. exact Hid.
    + destruct H as [<- Hne]. split; [|exact Hne].
      destruct Hid as [Hid | [_ Hid]]; [exact Hid | congruence].
Qed.

End QueryGroup.

Lemma queryGroup_requested_first_witness :
  exists group,
    [Sample.work; GroupDialogSample.play] !! 1%nat = Some group /\
    Group.id group = lit "play" /\
    orderedGroups [Sample.work; GroupDialogSample.play] (Some (lit "play"))
    = group :: take 1 [Sample.work; GroupDialogSample.play]
      ++ drop 2 [Sample.work; GroupDialogSample.play].
Proof.
  apply (queryGroup_requested_first [Sample.work; GroupDialogSample.play]
           (lit "play") 1 eq_refl).
Defined.

Lemma queryGroup_unknown_id_witness :
  orderedGroups ([Sample.work] ++ [GroupDialogSample.play]) (Some (lit "gone"))
  = [GroupDialogSample.play; Sample.work].
Proof.
  apply (queryGroup_unknown_id [Sample.work] GroupDialogSample.play (lit "gone") eq_refl).
Defined.

Lemma queryGroup_result_witness :
  lit "play" ∈ List.map Group.id [Sample.work; GroupDialogSample.play]
  /\ lit "play" <> lit "Add".
Proof.
  apply (queryGroup_result (P := PathSample.pathConstants)
           (W := WindowSample.window (lit "play") None None)
           (S := GroupDialogSample.service)
           (Some (lit "work")) true (lit "play") false).
  - intros items placeHolder pick H.
    apply list_elem_of_In. exact (proj1 (find_some _ _ H)).
  - reflexivity.
Defined.

(** ** Adding a project to the workspace *)

Section AddToWorkspace.
Context {H : Workspaces.Host}.

Ltac io_run :=
  unfold mbind, io_mbind, io_bind, mret, io_mret, io_ret, lift, Eff.call,
    io_try_catch; cbv beta iota.

(** Finding the folders of a project touches neither the workspace nor
    the dashboard. *)
Lemma foldersOf_quiet (project : value) (uri : Uri) (c : Workspaces.call) :
  c ∈ fst (Workspaces.foldersOf project uri) ->
  match c with
  | Workspaces.UpdateWorkspaceFolders _ _
  | Workspaces.GlobalStateUpdate _ _
  | Workspaces.Dispose => False
  | _ => True
  end.
Proof.
  unfold Workspaces.foldersOf.
  destruct (Workspaces.getProjectPathType _).
  - io_run.
    destruct (getProp project (lit "name")) as [n|e]; run_bind;
      [destruct (sanitizeProjectName n)|]; cbn [fst]; intros Hc; inversion Hc.
  - io_run. destruct (Workspaces.getFoldersFromWorkspaceFile _); cbn [fst app].
    + intros Hc; inversion Hc.
    + intros Hc. apply elem_of_cons in Hc as [-> | Hc]; [exact I|].
      apply list_elem_of_singleton in Hc. subst c. exact I.
  - io_run. cbn [fst app]. intros Hc.
    apply list_elem_of_singleton in Hc. subst c. exact I.
Qed.

(** What follows the search for the folders. *)
Lemma addToWorkspace_unfold (project : value) (uri : Uri) :
  Workspaces.addToWorkspace project uri
  = match Workspaces.foldersOf project uri with
    | (tr, Ok (Some wsToAdd)) =>
        let wsToAdd :=
          filter (fun ws => Workspaces.path_normalize
                              (Workspaces.fsPath (Workspaces.uri ws))
                            ∉ Workspaces.openFolders) wsToAdd in
        if Nat.eqb (length wsToAdd) 0 then (tr, Ok tt)
        else
          let update :=
            Workspaces.UpdateWorkspaceFolders (size Workspaces.openFolders) wsToAdd in
          if negb (Workspaces.updateWorkspaceFolders (size Workspaces.openFolders) wsToAdd)
          then (tr ++ [update;
                       Workspaces.ShowErrorMessage
                         (lit "Could not add project to workspace.")], Ok tt)
          else if negb (bool_decide (is_Some Workspaces.workspaceFile)) then
            let update' :=
              Workspaces.GlobalStateUpdate Workspaces.REOPEN_KEY
                ReopenDashboardReason.EditorReopenedAsWorkspace in
            if Workspaces.instance
            then (tr ++ [update; update'; Workspaces.Dispose], Ok tt)
            else (tr ++ [update; update'], Throw TypeError)
          else (tr ++ [update], Ok tt)
    | (tr, Ok None) => (tr, Ok tt)
    | (tr, Throw e) => (tr, Throw e)
    end.
Proof.
  unfold Workspaces.addToWorkspace.
  destruct (Workspaces.foldersOf project uri) as [tr [[wsToAdd|]|e]]; io_run;
    try (rewrite ?app_nil_r; reflexivity).
  destruct (Nat.eqb _ 0); [rewrite app_nil_r; reflexivity|].
  destruct (negb (Workspaces.updateWorkspaceFolders _ _)); [reflexivity|].
  destruct (negb (bool_decide (is_Some Workspaces.workspaceFile)));
    [destruct Workspaces.instance|]; reflexivity.
Qed.

(** X18. [addToWorkspace] adds only folders that the workspace does not
    have: the folders it hands to [updateWorkspaceFolders] are at least
    one, none of them has the normalized path of a folder of the
    workspace, and they are put after the folders there are, counted by
    their different normalized paths. *)
Theorem addToWorkspace_new_folders (project : value) (uri : Uri) (start : nat)
    (folders : list Workspaces.folder) :
  Workspaces.UpdateWorkspaceFolders start folders
    ∈ fst (Workspaces.addToWorkspace project uri) ->
  folders <> [] /\
  start = size Workspaces.openFolders /\
  forall f w, f ∈ folders -> w ∈ default [] Workspaces.workspaceFolders ->
    Workspaces.path_normalize (Workspaces.fsPath (Workspaces.uri f))
    <> Workspaces.path_normalize (Workspaces.fsPath w).
Proof.
  rewrite addToWorkspace_unfold.
  pose proof (foldersOf_quiet project uri
                (Workspaces.UpdateWorkspaceFolders start folders)) as Hquiet.
  destruct (Workspaces.foldersOf project uri) as [tr [[wsToAdd|]|e]];
    cbn [fst] in Hquiet; try (intros Hc; destruct (Hquiet Hc)).
  cbv zeta.
  set (kept := filter _ wsToAdd).
  assert (Hmain :
    Workspaces.UpdateWorkspaceFolders start folders
    = Workspaces.UpdateWorkspaceFolders (size Workspaces.openFolders) kept ->
    length kept <> 0%nat ->
    folders <> [] /\ start = size Workspaces.openFolders /\
    forall f w, f ∈ folders -> w ∈ default [] Workspaces.workspaceFolders ->
      Workspaces.path_normalize (Workspaces.fsPath (Workspaces.uri f))
      <> Workspaces.path_normalize (Workspaces.fsPath w)).
  { intros [= -> ->] Hlen. split; [intros E; rewrite E in Hlen; apply Hlen; reflexivity|].
    split; [reflexivity|]. intros f w Hf Hw Heq.
    subst kept. apply list_elem_of_filter in Hf as [Hf _]. apply Hf.
    unfold Workspaces.openFolders. apply elem_of_list_to_set.
    rewrite Heq, map_fmap.
    apply (list_elem_of_fmap_2
             (fun w => Workspaces.path_normalize (Workspaces.fsPath w))), Hw. }
  destruct (Nat.eqb (length kept) 0) eqn:Hlen; cbn [fst];
    [intros Hc; destruct (Hquiet Hc)|].
  apply Nat.eqb_neq in Hlen.
  destruct (negb (Workspaces.updateWorkspaceFolders _ _));
    [|destruct (negb (bool_decide _)); [destruct Workspaces.instance|]];
    cbn [fst]; intros Hc; apply elem_of_app in Hc as [Hc | Hc];
    try (destruct (Hquiet Hc));
    repeat (apply elem_of_cons in Hc as [Hc | Hc];
            [first [discriminate Hc | exact (Hmain Hc Hlen)]|]);
    inversion Hc.
Qed.

(** X19. The dashboard is closed by [addToWorkspace] only when the
    window had no workspace file and the folders were added: a call of
    [dispose] comes with a call of [updateWorkspaceFolders] that
    succeeded. *)
Theorem addToWorkspace_dispose (project : value) (uri : Uri) :
  Workspaces.Dispose ∈ fst (Workspaces.addToWorkspace project uri) ->
  Workspaces.workspaceFile = None /\
  exists start folders,
    Workspaces.UpdateWorkspaceFolders start folders
      ∈ fst (Workspaces.addToWorkspace project uri) /\
    Workspaces.updateWorkspaceFolders start folders = true.
Proof.
  rewrite addToWorkspace_unfold.
  pose proof (foldersOf_quiet project uri Workspaces.Dispose) as Hquiet.
  destruct (Workspaces.foldersOf project uri) as [tr [[wsToAdd|]|e]];
    cbn [fst] in Hquiet; try (intros Hc; destruct (Hquiet Hc)).
  cbv zeta.
  set (kept := filter _ wsToAdd).
  destruct (Nat.eqb (length kept) 0); cbn [fst];
    [intros Hc; destruct (Hquiet Hc)|].
  destruct (Workspaces.updateWorkspaceFolders _ _) eqn:Hup; cbn [negb].
  - destruct Workspaces.workspaceFile as [file|] eqn:Hfile.
    + rewrite bool_decide_eq_true_2 by eauto. cbn [negb fst]. intros Hc.
      apply elem_of_app in Hc as [Hc | Hc]; [destruct (Hquiet Hc)|].
      apply list_elem_of_singleton in Hc. discriminate.
    + intros _. split; [reflexivity|].
      exists (size Workspaces.openFolders), kept. split; [|exact Hup].
      rewrite bool_decide_eq_false_2 by (intros [? ?]; discriminate).
      cbn [negb]. destruct Workspaces.instance; cbn [fst];
        apply elem_of_app; right; left.
  - cbn [fst]. intros Hc.
    apply elem_of_app in Hc as [Hc | Hc]; [destruct (Hquiet Hc)|].
    apply elem_of_cons in Hc as [Hc | Hc]; [discriminate|].
    apply list_elem_of_singleton in Hc. discriminate.
Qed.

End AddToWorkspace.

Lemma addToWorkspace_new_folders_witness :
  let H : Workspaces.Host := Workspaces.sampleHost in
  let notes := {| Workspaces.uri := Uri_file (lit "/home/me/notes");
                  Workspaces.name := None |} in
  [notes] <> [] /\
  1%nat = size Workspaces.openFolders /\
  forall f w, f ∈ [notes] -> w ∈ default [] Workspaces.workspaceFolders ->
    Workspaces.path_normalize (Workspaces.fsPath (Workspaces.uri f))
    <> Workspaces.path_normalize (Workspaces.fsPath w).
Proof.
  intros H notes.
  apply (addToWorkspace_new_folders (H := H)
           (Sample.project (lit "/home/me/all.code-workspace"))
           (Uri_file (lit "/home/me/all.code-workspace")) 1 [notes]).
  vm_compute. left.
Defined.

Lemma addToWorkspace_dispose_witness :
  let H : Workspaces.Host := Workspaces.sampleHost in
  Workspaces.workspaceFile = None /\
  exists start folders,
    Workspaces.UpdateWorkspaceFolders start folders
      ∈ fst (Workspaces.addToWorkspace
               (Sample.project (lit "/home/me/all.code-workspace"))
               (Uri_file (lit "/home/me/all.code-workspace"))) /\
    Workspaces.updateWorkspaceFolders start folders = true.
Proof.
  intros H.
  apply (addToWorkspace_dispose (H := H)
           (Sample.project (lit "/home/me/all.code-workspace"))
           (Uri_file (lit "/home/me/all.code-workspace"))).
  vm_compute. right. right. left.
Defined.

(** ** Editing by hand: what is saved *)

Lemma assoc_remove_eq (k : jsstring) (ps : list (jsstring * value)) :
  assoc k (assoc_remove k ps) = None.
Proof.
  unfold assoc_remove. induction ps as [|[k' v] ps IH]; [reflexivity|].
  simpl. destruct (eqb k k') eqn:E; simpl; [exact IH|]. rewrite E. exact IH.
Qed.

Lemma field_deleteProp_eq (g g' : value) (k : jsstring) :
  deleteProp g k = Ok g' -> eqb k (lit "length") = false -> field g' k = VUndefined.
Proof.
  intros H Hk. destruct g; try discriminate; injection H as <-;
    unfold field; simpl; rewrite ?Hk, ?assoc_remove_eq; reflexivity.
Qed.

Lemma checkProjects_cleaned (elems elems' : list value) :
  checkProjects elems = Ok (false, elems') -> Forall cleanedProject elems'.
Proof.
  revert elems'; induction elems as [|p rest IH]; intros elems'.
  - intros [= <-]. constructor.
  - cbn [checkProjects]. rewrite isMalformedProject_spec. run_bind.
    destruct (wellFormedProject p) eqn:Hwf; cbn [negb]; [|discriminate].
    destruct (deleteProp p (lit "imageFileName")) as [p'|e] eqn:Hdel; [|discriminate].
    destruct (checkProjects rest) as [[b rest']|e]; [|discriminate].
    cbn [fst snd]. intros [= -> <-]. constructor; [|apply IH; reflexivity].
    split; [|exact (field_deleteProp_eq _ _ _ Hdel eq_refl)].
    unfold wellFormedProject in *.
    rewrite (field_deleteProp_ne _ _ (lit "id") _ Hdel eq_refl),
      (field_deleteProp_ne _ _ (lit "name") _ Hdel eq_refl),
      (field_deleteProp_ne _ _ (lit "path") _ Hdel eq_refl).
    exact Hwf.
Qed.

(** A group whose check went through without a malformed project. *)
Lemma checkGroup_cleaned (g g' : value) :
  checkGroup g = Ok (Checked false, g') -> cleanedGroup g'.
Proof.
  destruct (faults g) eqn:Hf; [rewrite (checkGroup_faults g Hf); discriminate|].
  destruct (legacyName_spec g Hf) as (g1 & Hlegacy & Hf1 & _).
  pose proof (faults_not_nullish g1 Hf1) as Hn1.
  unfold checkGroup. rewrite Hlegacy. run_bind.
  rewrite (isEmptyUnnamed_spec g1 Hf1).
  destruct (truthy g1 && nullish (field g1 (lit "groupName")) && _).
  { destruct (setProp g1 (lit "_delete") (VBool true)); discriminate. }
  rewrite (isMalformedGroup_spec g1 Hf1).
  destruct (truthy g1 && truthy (field g1 (lit "id"))
            && negb (nullish (field g1 (lit "groupName")))
            && truthy (field g1 (lit "projects"))
            && isArray (field g1 (lit "projects"))) eqn:Hwf;
    cbn [negb]; [|discriminate].
  repeat rewrite andb_true_iff in Hwf.
  destruct Hwf as ((((_ & Hid) & Hname) & _) & Harr).
  apply negb_true_iff in Hname.
  rewrite (getProp_field g1 _ Hn1).
  destruct (field g1 (lit "projects")) as [| | | | |elems extra|] eqn:Hps;
    try discriminate.
  destruct (checkProjects elems) as [[b elems']|e] eqn:Hcheck; [|discriminate].
  cbn [fst snd].
  destruct (setProp g1 (lit "projects") (VArray elems' extra)) as [g2|e] eqn:Hset;
    [|discriminate].
  intros [= -> <-]. unfold cleanedGroup.
  rewrite (field_setProp_ne _ _ (lit "id") _ _ Hset eq_refl),
    (field_setProp_ne _ _ (lit "groupName") _ _ Hset eq_refl),
    (field_setProp_eq _ _ _ _ Hset eq_refl).
  split; [exact Hid|]. split; [exact Hname|].
  exists elems', extra. split; [reflexivity|].
  exact (checkProjects_cleaned _ _ Hcheck).
Qed.

(** Once [jsonIsInvalid] is set it stays set. *)
Lemma checkGroups_invalid (gs gs' : list value) (b : bool) :
  checkGroups true gs = Ok (b, gs') -> b = true.
Proof.
  revert gs' b; induction gs as [|g rest IH]; intros gs' b.
  - intros [= <- _]. reflexivity.
  - cbn [checkGroups]. destruct (checkGroup g) as [[v g']|e]; [|discriminate].
    run_bind. cbn [fst snd]. destruct v as [| |bad].
    + destruct (checkGroups true rest) as [[b' rest']|e]; [|discriminate].
      cbn [fst snd]. intros [= <- _]. exact (IH _ _ eq_refl).
    + intros [= <- _]. reflexivity.
    + cbn [orb]. destruct (checkGroups true rest) as [[b' rest']|e]; [|discriminate].
      cbn [fst snd]. intros [= <- _]. exact (IH _ _ eq_refl).
Qed.

Lemma checkGroups_cleaned (gs : list value) :
  forall gs',
    checkGroups false gs = Ok (false, gs') ->
    Forall (fun g' => nullish g' = false /\
                      (markedDeleted g' = true \/ cleanedGroup g')) gs'.
Proof.
  induction gs as [|g rest IH]; intros gs'.
  - intros [= <-]. constructor.
  - cbn [checkGroups]. destruct (faults g) eqn:Hf.
    { rewrite (checkGroup_faults g Hf). discriminate. }
    destruct (checkGroup_spec g Hf) as (v & g' & Hstep & Hn & Hcase).
    rewrite Hstep. run_bind. cbn [fst snd].
    destruct Hcase as [(-> & _ & Hdel) | [(-> & _) | (-> & _ & _)]].
    + destruct (checkGroups false rest) as [[b rest']|e] eqn:Hloop; [|discriminate].
      cbn [fst snd]. intros [= -> <-]. constructor; [auto|]. exact (IH _ eq_refl).
    + discriminate.
    + cbn [orb]. destruct (flagged g) eqn:Hflag.
      * destruct (checkGroups true rest) as [[b rest']|e] eqn:Hloop; [|discriminate].
        cbn [fst snd]. intros [= -> _].
        apply checkGroups_invalid in Hloop. discriminate.
      * destruct (checkGroups false rest) as [[b rest']|e] eqn:Hloop; [|discriminate].
        cbn [fst snd]. intros [= -> <-].
        constructor; [|exact (IH _ eq_refl)].
        split; [exact Hn|]. right. exact (checkGroup_cleaned g g' Hstep).
Qed.

Section SavedGroups.
Context {R : Runtime}.

(** X20. Whatever the edited document, the groups that the listener
    saves are clean: each has an id, a group name and an array of
    projects, and each of its projects has an id, a name and a path and
    has lost the obsolete property [imageFileName]. *)
Theorem onWillSave_saves_cleaned (isEditDocument : bool) (text : jsstring)
    (showing closing : result unit) (kept : list value) :
  SaveGroups kept ∈ fst (onWillSave isEditDocument text showing closing) ->
  Forall cleanedGroup kept.
Proof.
  unfold onWillSave. destruct isEditDocument; [|intros H; inversion H].
  destruct (JSON_parse (editedText text)) as [doc|e].
  2:{ cbn. intros H. apply list_elem_of_singleton in H. discriminate. }
  unfold saveParsed.
  destruct (validate doc) as [[[|] after]|e] eqn:Hv.
  - rewrite io_bind_lift_ok. cbn. intros H.
    apply list_elem_of_singleton in H. discriminate.
  - rewrite io_bind_lift_ok. cbn [fst snd].
    destruct doc as [| | | | |gs extra|]; try discriminate.
    rewrite validate_unfold in Hv.
    destruct (checkGroups false gs) as [[b gs']|e] eqn:Hloop; [|discriminate].
    cbn [fst snd] in Hv. injection Hv as -> <-.
    pose proof (checkGroups_cleaned gs gs' Hloop) as Hpassed.
    assert (Hnn : Forall (fun g => nullish g = false) gs').
    { eapply Forall_impl; [exact Hpassed|]. intros x [Hx _]. exact Hx. }
    destruct (filterDeleted_spec gs' Hnn) as (kept' & Hfilter & Hkept).
    destruct (closing_returns showing closing) as (tr & Htail & Hnosave).
    rewrite Hfilter, io_bind_lift_ok, io_bind_call. cbv beta. rewrite Htail.
    cbn [fst]. intros H.
    apply elem_of_cons in H as [[= ->] | H].
    + apply Forall_forall. intros h Hh. destruct (Hkept h Hh) as [Hin Hdel].
      rewrite Forall_forall in Hpassed. destruct (Hpassed h Hin) as [_ [Hm | Hm]];
        [congruence | exact Hm].
    + apply elem_of_cons in H as [H | H]; [discriminate|].
      exfalso. apply list_elem_of_In in H.
      assert (Hex : existsb isSaveGroups tr = true)
        by (apply existsb_exists; exists (SaveGroups kept); split; [exact H | reflexivity]).
      congruence.
  - cbn. intros H. inversion H.
Qed.

End SavedGroups.

Lemma onWillSave_saves_cleaned_witness : Forall cleanedGroup [Sample.goodGroup].
Proof.
  apply (onWillSave_saves_cleaned (R := EditSample.runtime) true EditSample.oldText
           (Ok tt) (Ok tt) [Sample.goodGroup]).
  vm_compute. left.
Defined.

Section FolderNames.
Context {H : Workspaces.Host}.

Ltac io_run :=
  unfold mbind, io_mbind, io_bind, mret, io_mret, io_ret, lift, Eff.call,
    io_try_catch; cbv beta iota.

(** The folders found for a project are named by sanitized names. *)
Lemma foldersOf_names (project : value) (uri : Uri) (tr : list Workspaces.call)
    (wsToAdd : list Workspaces.folder) (f : Workspaces.folder) (n : jsstring) :
  Workspaces.foldersOf project uri = (tr, Ok (Some wsToAdd)) ->
  f ∈ wsToAdd -> Workspaces.name f = Some n ->
  exists v, getProp project (lit "name") = Ok v /\ sanitizeProjectName v = Ok n.
Proof.
  unfold Workspaces.foldersOf.
  destruct (Workspaces.getProjectPathType _).
  - io_run. destruct (getProp project (lit "name")) as [v|e]; run_bind;
      [|discriminate].
    destruct (sanitizeProjectName v) as [s|e] eqn:Hs; [|discriminate].
    intros [= _ <-] Hf Hn. apply list_elem_of_singleton in Hf. subst f.
    injection Hn as <-. eauto.
  - io_run. destruct (Workspaces.getFoldersFromWorkspaceFile _) as [paths|e];
      [|discriminate].
    intros [= _ <-] Hf Hn. rewrite map_fmap in Hf.
    apply list_elem_of_fmap in Hf as (p & -> & _). discriminate.
  - io_run. discriminate.
Qed.

(** X21. The name under which [addToWorkspace] adds the folder of a
    project is the sanitized name of the project: it holds no markup
    tag and no white space at its ends. *)
Theorem addToWorkspace_folder_name (project : value) (uri : Uri) (start : nat)
    (folders : list Workspaces.folder) (f : Workspaces.folder) (n : jsstring) :
  Workspaces.UpdateWorkspaceFolders start folders
    ∈ fst (Workspaces.addToWorkspace project uri) ->
  f ∈ folders -> Workspaces.name f = Some n ->
  sanitizeProjectName (field project (lit "name")) = Ok n /\
  hasTag n = false /\ trimmed n.
Proof.
  rewrite addToWorkspace_unfold.
  pose proof (foldersOf_quiet project uri
                (Workspaces.UpdateWorkspaceFolders start folders)) as Hquiet.
  pose proof (foldersOf_names project uri) as Hnames.
  destruct (Workspaces.foldersOf project uri) as [tr [[wsToAdd|]|e]];
    cbn [fst] in Hquiet; try (intros Hc; destruct (Hquiet Hc)).
  cbv zeta. set (kept := filter _ wsToAdd).
  assert (Hmain :
    Workspaces.UpdateWorkspaceFolders start folders
    = Workspaces.UpdateWorkspaceFolders (size Workspaces.openFolders) kept ->
    f ∈ folders -> Workspaces.name f = Some n ->
    sanitizeProjectName (field project (lit "name")) = Ok n /\
    hasTag n = false /\ trimmed n).
  { intros [= -> ->] Hf Hn. subst kept. apply list_elem_of_filter in Hf as [_ Hf].
    destruct (Hnames tr wsToAdd f n eq_refl Hf Hn) as (v & Hv & Hs).
    unfold field. rewrite Hv. split; [exact Hs | exact (sanitized_clean v n Hs)]. }
  destruct (Nat.eqb (length kept) 0); cbn [fst];
    [intros Hc; destruct (Hquiet Hc)|].
  destruct (negb (Workspaces.updateWorkspaceFolders _ _));
    [|destruct (negb (bool_decide _)); [destruct Workspaces.instance|]];
    cbn [fst]; intros Hc; apply elem_of_app in Hc as [Hc | Hc];
    try (destruct (Hquiet Hc));
    repeat (apply elem_of_cons in Hc as [Hc | Hc];
            [first [discriminate Hc | exact (Hmain Hc)]|]);
    inversion Hc.
Qed.

End FolderNames.

Lemma addToWorkspace_folder_name_witness :
  sanitizeProjectName (field FolderSample.notes (lit "name")) = Ok (lit "Notes") /\
  hasTag (lit "Notes") = false /\ trimmed (lit "Notes").
Proof.
  apply (addToWorkspace_folder_name (H := Workspaces.sampleHost) FolderSample.notes
           (Uri_file (lit "/home/me/notes")) 1 [FolderSample.folder]
           FolderSample.folder (lit "Notes")).
  - vm_compute. left.
  - left.
  - reflexivity.
Defined.

Lemma stripComments_comment_line (b tail : jsstring) :
  existsb isLineTerminator b = false ->
  stripComments true (b ++ tail) = stripComments true tail.
Proof.
  induction b as [|c b IH]; [reflexivity|]. simpl.
  rewrite orb_false_iff. intros [-> Hb]. exact (IH Hb).
Qed.

Lemma stripComments_line_end (tail : jsstring) :
  match tail with
  | c :: _ => isLineTerminator c = true
  | [] => True
  end ->
  stripComments true tail = stripComments false tail.
Proof.
  destruct tail as [|c rest]; [reflexivity|]. intros Hc.
  assert (Hne : (c =? 47) = false).
  { destruct (N.eqb_spec c 47) as [->|]; [discriminate Hc | reflexivity]. }
  destruct rest as [|d rest].
  - cbn [stripComments]. rewrite Hc. reflexivity.
  - rewrite stripComments_code, Hne. cbn [andb].
    change (stripComments true (c :: d :: rest))
      with (if isLineTerminator c then c :: stripComments false (d :: rest)
            else stripComments true (d :: rest)).
    rewrite Hc. reflexivity.
Qed.

Lemma stripComments_code_prefix (a s : jsstring) :
  indexOf a (lit "//") = None -> last a <> Some 47 ->
  stripComments false (a ++ 47 :: 47 :: s) = a ++ stripComments true s.
Proof.
  induction a as [|x a IH]; intros Hpair Hlast; [reflexivity|].
  apply indexOf_cons_inv in Hpair as [Hhead Hpair].
  rewrite startsWith_slashes in Hhead.
  destruct a as [|y a].
  - cbn [app]. rewrite stripComments_code.
    assert (Hx : (x =? 47) = false).
    { destruct (N.eqb_spec x 47) as [->|]; [exfalso; apply Hlast; reflexivity|].
      reflexivity. }
    rewrite Hx. cbn [andb]. reflexivity.
  - cbn [app]. rewrite stripComments_code.
    rewrite (N.eqb_sym 47 x), (N.eqb_sym 47 y) in Hhead. rewrite Hhead.
    f_equal. apply IH; [exact Hpair|].
    intros H. apply Hlast. rewrite last_cons_cons. exact H.
Qed.

(** X22. Comments go line by line, wherever they stand: when a pair of
    slashes follows a text without such a pair that does not end with a
    slash, the text is kept, and what follows the pair is dropped up to
    the end of the line or of the file, the rest being treated in the
    same way. *)
Theorem stripComments_line (a b tail : jsstring) :
  indexOf a (lit "//") = None ->
  last a <> Some 47 ->
  existsb isLineTerminator b = false ->
  match tail with
  | c :: _ => isLineTerminator c = true
  | [] => True
  end ->
  stripComments false (a ++ lit "//" ++ b ++ tail) = a ++ stripComments false tail.
Proof.
  intros Hpair Hlast Hb Htail.
  change (lit "//" ++ b ++ tail) with (47 :: 47 :: (b ++ tail)).
  rewrite (stripComments_code_prefix a _ Hpair Hlast).
  rewrite (stripComments_comment_line b tail Hb).
  rewrite (stripComments_line_end tail Htail). reflexivity.
Qed.

Lemma stripComments_line_witness :
  stripComments false
    (lit "{ url: http:" ++ lit "//" ++ lit "host/x }" ++ [10; 125])
  = lit "{ url: http:" ++ stripComments false [10; 125].
Proof.
  apply (stripComments_line (lit "{ url: http:") (lit "host/x }") [10; 125]);
    [reflexivity | discriminate | reflexivity | reflexivity].
Defined.

(** ** The hexadecimal name of a container: its characters *)

Lemma hex_digits_hex (u : Hexadecimal.uint) :
  forallb isHexDigit (hex_digits u) = true.
Proof. induction u; simpl; try reflexivity; exact IHu. Qed.

Lemma hexOfChars_hex (text : jsstring) :
  forallb isHexDigit (hexOfChars text) = true.
Proof.
  induction text as [|c text IH]; [reflexivity|].
  rewrite hexOfChars_cons, forallb_app, IH.
  unfold toString16. rewrite hex_digits_hex. reflexivity.
Qed.

(** X23. [getContainerHex] answers [null] for the name [null] only; for
    every other name, and every context, it answers a text made of the
    digits of base 16 in lower case. *)
Theorem getContainerHex_hexadecimal (containerName contextName : value) :
  (getContainerHex containerName contextName = VNull <-> containerName = VNull) /\
  (containerName <> VNull ->
   exists objectHex,
     getContainerHex containerName contextName = VString objectHex /\
     forallb isHexDigit objectHex = true).
Proof.
  assert (H : containerName <> VNull ->
              exists objectHex,
                getContainerHex containerName contextName = VString objectHex /\
                forallb isHexDigit objectHex = true).
  { intros Hname. unfold getContainerHex.
    destruct containerName; try congruence;
      (eexists; split; [reflexivity|]; rewrite fold_left_hex; apply hexOfChars_hex). }
  split; [|exact H]. split.
  - intros Hnull. destruct containerName; try reflexivity;
      (destruct H as (h & Hh & _); [discriminate | congruence]).
  - intros ->. reflexivity.
Qed.

(** ** The custom color of a project *)

(** X24. The color made of the answer to the custom color box holds no
    semicolon and no double quote, and no white space at its ends,
    whatever the answer. *)
Theorem customColorOf_clean (customColor : option jsstring) :
  Forall (fun c => c <> 59 /\ c <> 34) (customColorOf customColor) /\
  trimmed (customColorOf customColor).
Proof.
  unfold customColorOf. split; [|apply trim_trimmed].
  destruct (trim_infix
              (List.filter (fun c => negb ((c =? 59) || (c =? 34)))
                 (default [] customColor))) as (w & w' & Hw).
  apply Forall_forall. intros c Hc.
  assert (Hin : In c (List.filter (fun c => negb ((c =? 59) || (c =? 34)))
                        (default [] customColor))).
  { rewrite Hw. apply in_or_app. right. apply in_or_app. left.
    apply list_elem_of_In, Hc. }
  apply filter_In in Hin as [_ Hkeep].
  apply negb_true_iff, orb_false_iff in Hkeep as [H1 H2].
  split; apply N.eqb_neq; assumption.
Qed.

Example customColorOf_injection :
  customColorOf (Some (lit " red; background: url(x) "))
  = lit "red background: url(x)".
Proof. reflexivity. Qed.
